(** * The pending-phase reconciler of the cluster controller

    A shallow embedding of [controller/cluster/pending.go]: the cluster
    record, the controller's configuration and caches, the external
    collaborators as oracles, and the pipeline [syncPendingCluster] with
    every step it calls, followed by the properties of the pipeline. *)

From Stdlib Require Import ZArith List Bool Lia DecimalString Sorted Permutation.
From stdpp Require Import base strings gmap.
Import ListNotations.

Local Open Scope string_scope.
Local Open Scope Z_scope.
Local Open Scope list_scope.

(** ** Machine integers *)

(** Go's [int] is 64 bits wide on the platforms the controller runs on;
    an increment wraps around in two's complement. *)
Definition wrap64 (z : Z) : Z := (z + 2 ^ 63) mod 2 ^ 64 - 2 ^ 63.

(** [int32] is the type of [v1.ServicePort.NodePort]. *)
Definition is_int32 (z : Z) : bool := (- 2 ^ 31 <=? z) && (z <? 2 ^ 31).

(** The [%d] verb of [fmt.Sprintf]. *)
Definition itoa (z : Z) : string := NilZero.string_of_int (Z.to_int z).

(** ** Errors *)

(** An error is either produced by a collaborator or built by
    [fmt.Errorf]; the latter is kept as the format string with its
    arguments, in the order of the call. *)
Inductive error : Type :=
| ExternalError (msg : string)
| Errorf (format : string) (args : list fmtArg)
with fmtArg : Type :=
| ArgString (s : string)
| ArgInt (z : Z)
| ArgError (e : error).

(** ** The cluster record ([api.Cluster]) *)

Definition Bytes := list Byte.byte.

(** Modelled from the spec: [api.ClusterPhase] and its constants are
    declared outside [pending.go]; the phases are the ones the data model
    names, and [OtherClusterStatusPhase] is any further one. *)
Inductive ClusterPhase : Type :=
| PendingClusterStatusPhase
| LaunchingClusterStatusPhase
| FailedClusterStatusPhase
| OtherClusterStatusPhase (tag : string).

Record KeyCert := { Key : option Bytes; Cert : option Bytes }.

Record AWSCloudSpec := { awsSettings : string }.

Record CloudSpec := { AWS : option AWSCloudSpec }.

Record ClusterSpec := { MasterVersion : string; Cloud : option CloudSpec }.

Record ClusterAddress := { URL : string; ApiserverExternalPort : Z }.

Record ClusterStatus := {
  Phase : ClusterPhase;
  LastTransitionTime : Z;
  RootCA : KeyCert;
  ApiserverSSH : string
}.

Record ObjectMeta := { Name : string }.

(** Modelled from the spec: [api.Cluster] is declared outside [pending.go].
    The fields are the ones of the data model, which are the ones
    [pending.go] reads or writes; [Untracked] stands for every other field of
    the record (the token material that [createTokens] writes lives there). *)
Record Cluster := {
  Metadata : ObjectMeta;
  Spec : ClusterSpec;
  Address : ClusterAddress;
  Status : ClusterStatus;
  Untracked : string
}.

Definition set_RootCA (kc : KeyCert) (c : Cluster) : Cluster :=
  {| Metadata := Metadata c; Spec := Spec c; Address := Address c;
     Status := {| Phase := Phase (Status c);
                  LastTransitionTime := LastTransitionTime (Status c);
                  RootCA := kc;
                  ApiserverSSH := ApiserverSSH (Status c) |};
     Untracked := Untracked c |}.

Definition set_Phase (p : ClusterPhase) (c : Cluster) : Cluster :=
  {| Metadata := Metadata c; Spec := Spec c; Address := Address c;
     Status := {| Phase := p;
                  LastTransitionTime := LastTransitionTime (Status c);
                  RootCA := RootCA (Status c);
                  ApiserverSSH := ApiserverSSH (Status c) |};
     Untracked := Untracked c |}.

Definition set_LastTransitionTime (t : Z) (c : Cluster) : Cluster :=
  {| Metadata := Metadata c; Spec := Spec c; Address := Address c;
     Status := {| Phase := Phase (Status c);
                  LastTransitionTime := t;
                  RootCA := RootCA (Status c);
                  ApiserverSSH := ApiserverSSH (Status c) |};
     Untracked := Untracked c |}.

Definition set_ApiserverExternalPort (p : Z) (c : Cluster) : Cluster :=
  {| Metadata := Metadata c; Spec := Spec c;
     Address := {| URL := URL (Address c); ApiserverExternalPort := p |};
     Status := Status c; Untracked := Untracked c |}.

Definition set_URL (u : string) (c : Cluster) : Cluster :=
  {| Metadata := Metadata c; Spec := Spec c;
     Address := {| URL := u;
                   ApiserverExternalPort := ApiserverExternalPort (Address c) |};
     Status := Status c; Untracked := Untracked c |}.

Definition set_MasterVersion (v : string) (c : Cluster) : Cluster :=
  {| Metadata := Metadata c;
     Spec := {| MasterVersion := v; Cloud := Cloud (Spec c) |};
     Address := Address c; Status := Status c; Untracked := Untracked c |}.

Definition set_ApiserverSSH (k : string) (c : Cluster) : Cluster :=
  {| Metadata := Metadata c; Spec := Spec c; Address := Address c;
     Status := {| Phase := Phase (Status c);
                  LastTransitionTime := LastTransitionTime (Status c);
                  RootCA := RootCA (Status c);
                  ApiserverSSH := k |};
     Untracked := Untracked c |}.

Definition set_Untracked (u : string) (c : Cluster) : Cluster :=
  {| Metadata := Metadata c; Spec := Spec c; Address := Address c;
     Status := Status c; Untracked := u |}.

(** ** Objects of the host orchestrator *)

(** A generated artifact: its [ObjectMeta.Name] and the rendered rest. *)
Record Obj := { ObjName : string; ObjBody : string }.

Record ServicePort := { NodePort : Z }.

Record Service := { Ports : list ServicePort }.

(** A cached deployment: the namespace it is indexed under and
    [Spec.Selector.MatchLabels]. *)
Record Deployment := {
  DepNamespace : string;
  MatchLabels : gmap string string
}.

(** Modelled from the spec: an entry of the version registry
    ([api.MasterVersion]) lists the template file names of the four
    deployments and of the etcd cluster manifest. *)
Record MasterVersionT := {
  EtcdOperatorDeploymentYaml : string;
  ApiserverDeploymentYaml : string;
  ControllerDeploymentYaml : string;
  SchedulerDeploymentYaml : string;
  EtcdClusterYaml : string
}.

Inductive AddonPhaseT : Type :=
| PendingAddonStatusPhase.

(** [extensions.ClusterAddon], by the fields the reconciler fills in. *)
Record ClusterAddon := {
  AddonMetaName : string;
  AddonName : string;
  AddonPhase : AddonPhaseT
}.

(** ** Caches *)

(** A cache store: the objects under their keys, and the lookups that
    fail.  The reconciler only reads it. *)
Record Store (A : Type) := {
  storeItems : list (string * A);
  storeGetErr : string -> option error
}.
Arguments storeItems {A} _.
Arguments storeGetErr {A} _ _.

Fixpoint lookupKey {A : Type} (key : string) (l : list (string * A)) : option A :=
  match l with
  | [] => None
  | (k, v) :: l' => if String.eqb k key then Some v else lookupKey key l'
  end.

(** [GetByKey] answers [(obj, exists, err)]. *)
Definition GetByKey {A : Type} (st : Store A) (key : string)
  : option A * bool * option error :=
  match storeGetErr st key with
  | Some e => (None, false, Some e)
  | None =>
      match lookupKey key (storeItems st) with
      | Some o => (Some o, true, None)
      | None => (None, false, None)
      end
  end.

Definition StoreList {A : Type} (st : Store A) : list A := map snd (storeItems st).

(** ** The controller ([clusterController]) *)

Record MasterVersionRef := { ID : string }.

Record clusterController := {
  dc : string;
  externalURL : string;
  masterResourcesPath : string;
  minAPIServerPort : Z;
  maxAPIServerPort : Z;
  defaultMasterVersion : MasterVersionRef;
  versions : gmap string MasterVersionT;
  secretStore : Store Obj;
  serviceStore : Store Service;
  saStore : Store Obj;
  clusterRoleBindingStore : Store Obj;
  cmStore : Store Obj;
  pvcStore : Store Obj;
  depStore : Store Deployment;
  depIndexErr : string -> option error;
  addonStore : Store Obj;
  etcdClusterStore : Store Obj
}.

(** ** [GetFreeNodePort] *)

Definition usedPortsOf (service : Service) : list Z :=
  flat_map (fun port => if NodePort port =? 0 then [] else [NodePort port])
           (Ports service).

Definition usedPorts (services : list Service) : list Z :=
  flat_map usedPortsOf services.

Fixpoint isIn (p : Z) (takenPorts : list Z) : bool :=
  match takenPorts with
  | [] => false
  | takenPort :: rest => if p =? takenPort then true else isIn p rest
  end.

Definition noFreeNodePort (cc : clusterController) : error :=
  Errorf "no free NodePort available within the given range %d-%d"
         [ArgInt (minAPIServerPort cc); ArgInt (maxAPIServerPort cc)].

(** The [for port <= cc.maxAPIServerPort] loop; one unit of fuel per test of
    the loop condition, [None] when the fuel runs out. *)
Fixpoint freePortLoop (cc : clusterController) (used : list Z)
         (fuel : nat) (port : Z) : option (Z * option error) :=
  match fuel with
  | O => None
  | S fuel' =>
      if port <=? maxAPIServerPort cc then
        if isIn port used
        then freePortLoop cc used fuel' (wrap64 (port + 1))
        else Some (port, None)
      else Some (0, Some (noFreeNodePort cc))
  end.

Definition freePortFuel (cc : clusterController) : nat :=
  S (Z.to_nat (maxAPIServerPort cc - minAPIServerPort cc + 1)).

Definition GetFreeNodePort (cc : clusterController) : option (Z * option error) :=
  freePortLoop cc (usedPorts (StoreList (serviceStore cc)))
               (freePortFuel cc) (minAPIServerPort cc).

(** Every [NodePort] in the service cache is an [int32]. *)
Definition int32_services (cc : clusterController) : bool :=
  forallb (fun s => forallb (fun p => is_int32 (NodePort p)) (Ports s))
          (StoreList (serviceStore cc)).

(** [taken cc q]: some port entry of some cached service holds the
    non-zero [NodePort] [q]. *)
Definition taken (cc : clusterController) (q : Z) : Prop :=
  exists s p, In s (StoreList (serviceStore cc)) /\ In p (Ports s) /\
              NodePort p <> 0 /\ NodePort p = q.

(** ** The trace of a reconcile *)

(** The functions of [pending.go], in the order [syncPendingCluster]
    calls them. *)
Inductive Fn : Type :=
| FnCheckTimeout
| FnPendingCreateRootCA
| FnLaunchingCheckTokenUsers
| FnLaunchingCheckApiserverPublicService
| FnLaunchingCheckServiceAccounts
| FnLaunchingCheckClusterRoleBindings
| FnLaunchingCheckServices
| FnPendingCheckSecrets
| FnLaunchingCheckConfigMaps
| FnLaunchingCheckPvcs
| FnLaunchingCheckDeployments
| FnLaunchingCheckEtcdCluster
| FnLaunchingCheckDefaultPlugins.

Definition fnIndex (f : Fn) : nat :=
  match f with
  | FnCheckTimeout => 0
  | FnPendingCreateRootCA => 1
  | FnLaunchingCheckTokenUsers => 2
  | FnLaunchingCheckApiserverPublicService => 3
  | FnLaunchingCheckServiceAccounts => 4
  | FnLaunchingCheckClusterRoleBindings => 5
  | FnLaunchingCheckServices => 6
  | FnPendingCheckSecrets => 7
  | FnLaunchingCheckConfigMaps => 8
  | FnLaunchingCheckPvcs => 9
  | FnLaunchingCheckDeployments => 10
  | FnLaunchingCheckEtcdCluster => 11
  | FnLaunchingCheckDefaultPlugins => 12
  end%nat.

Inductive Kind : Type :=
| KSecret
| KService
| KServiceAccount
| KClusterRoleBinding
| KConfigMap
| KPersistentVolumeClaim
| KDeployment
| KEtcdCluster
| KClusterAddon.

Record CertificateRequest := {
  CN : string;
  KeyRequestA : string;
  KeyRequestS : Z;
  CAExpiry : string
}.

(** What a step does to the outside: it is entered, probes a cache, calls
    the orchestrator client, the CA library or the event recorder. *)
Inductive Action : Type :=
| ActEnter
| ActGetByKey (k : Kind) (key : string)
| ActByIndex (k : Kind) (index value : string)
| ActCreate (k : Kind) (ns : string) (o : Obj)
| ActCreateAddon (ns : string) (a : ClusterAddon)
| ActDelete (k : Kind) (ns name : string)
| ActInitCA (req : CertificateRequest)
| ActRecordEvent (phase format : string) (args : list fmtArg).

Record Event := { evFn : Fn; evAct : Action }.

(** ** Pointers to clusters *)

(** A non-nil [*api.Cluster] in the reconciler is the argument [c] itself
    or a record a generator allocated. *)
Inductive Ref : Type :=
| RefC
| RefNew (v : Cluster).

(** ** External collaborators *)

Definition Template := string.

(** The answer of a secret generator: the record [c] points to after the
    call, the returned cluster pointer, the secret and the error. *)
Record GenResult := {
  genCluster : Cluster;
  genChanged : option Ref;
  genSecret : Obj;
  genErr : option error
}.

Definition SecretGen := Cluster -> Template -> GenResult.

(** Everything [pending.go] calls and does not define.  The orchestrator
    client and the clock answer by the history of the reconcile so far;
    [mapOrder] ranks the keys of a map for one [range] statement, so that
    any order of the keys can come up.  [checkTimeout], [createTokens] and
    the two secret generators may write to the record they are given and hand
    it back as it is after the call; the template loaders only read it. *)
Record World := {
  timeNow : list Event -> Z;
  mapOrder : list Event -> string -> nat;
  NamespaceName : string -> string;
  pathJoin : string -> string -> string;
  checkTimeout : Cluster -> Cluster * option error;
  initca_New : CertificateRequest -> option Bytes * option Bytes * option error;
  createTokens : Cluster -> Cluster * Obj * option error;
  createApiserverAuth : SecretGen;
  createApiserverSSH : SecretGen;
  ParseFiles : string -> Template * option error;
  LoadServiceFile : Cluster -> string -> string -> Obj * option error;
  LoadServiceAccountFile : string -> string -> Obj * option error;
  LoadClusterRoleBindingFile : string -> string -> string -> Obj * option error;
  LoadDeploymentFile :
    Cluster -> MasterVersionT -> string -> string -> string -> Obj * option error;
  LoadEtcdClusterFile : MasterVersionT -> string -> string -> Obj * option error;
  LoadAwsCloudConfigConfigMap : Cluster -> Obj * option error;
  LoadPVCFile : Cluster -> string -> string -> Obj * option error;
  clientCreate : list Event -> Kind -> string -> Obj -> option error;
  clientDelete : list Event -> Kind -> string -> string -> option error;
  tprCreate : list Event -> string -> ClusterAddon -> option error
}.

(** ** The reconcile monad *)

(** The record [c] points to and the trace so far; [None] is a call that
    does not return. *)
Record State := { cur : Cluster; log : list Event }.

Definition M (A : Type) : Type := State -> option (A * State).

Definition mret {A : Type} (a : A) : M A := fun s => Some (a, s).

Definition mbind {A B : Type} (m : M A) (k : A -> M B) : M B :=
  fun s => match m s with
           | Some (a, s') => k a s'
           | None => None
           end.

Notation "x <- m ;; k" := (mbind m (fun x => k))
  (at level 62, m at next level, right associativity).
Notation "m ;;; k" := (mbind m (fun _ => k))
  (at level 62, right associativity).

Definition getC : M Cluster := fun s => Some (cur s, s).

Definition putC (c : Cluster) : M unit :=
  fun s => Some (tt, {| cur := c; log := log s |}).

Definition history : M (list Event) := fun s => Some (log s, s).

Definition emit (f : Fn) (a : Action) : M unit :=
  fun s => Some (tt, {| cur := cur s; log := log s ++ [{| evFn := f; evAct := a |}] |}).

Definition liftOption {A : Type} (o : option A) : M A :=
  fun s => match o with Some a => Some (a, s) | None => None end.

(** The record a pointer leads to, when [c] points to [here]. *)
Definition pointee (here : Cluster) (r : Ref) : Cluster :=
  match r with RefC => here | RefNew v => v end.

Definition deref (s : State) (r : Ref) : Cluster := pointee (cur s) r.

(** ** Ranging over a map *)

Fixpoint insertBy {A : Type} (rank : string -> nat) (e : string * A)
         (l : list (string * A)) : list (string * A) :=
  match l with
  | [] => [e]
  | e' :: l' =>
      if (rank (fst e) <=? rank (fst e'))%nat then e :: l
      else e' :: insertBy rank e l'
  end.

(** The position of [k] in [ks]. *)
Fixpoint indexOf (k : string) (ks : list string) : nat :=
  match ks with
  | [] => O
  | k' :: rest => if String.eqb k' k then O else S (indexOf k rest)
  end.

(** The order in which one [range] statement visits the entries. *)
Definition rangeOrder {A : Type} (rank : string -> nat)
           (entries : list (string * A)) : list (string * A) :=
  fold_right (insertBy rank) [] entries.

Inductive LoopCtl (R : Type) : Type :=
| Continue
| Return (r : R).
Arguments Continue {R}.
Arguments Return {R} _.

Fixpoint forEach {A R : Type} (entries : list A) (body : A -> M (LoopCtl R))
  : M (option R) :=
  match entries with
  | [] => mret None
  | e :: rest =>
      ctl <- body e ;;
      match ctl with
      | Continue => forEach rest body
      | Return r => mret (Some r)
      end
  end.

(** ** The steps of the pipeline *)

Definition Result : Type := option Ref * option error.

Definition isNil {A : Type} (o : option A) : bool :=
  match o with None => true | Some _ => false end.

Section Reconciler.

Variable w : World.
Variable cc : clusterController.

(** [cc.recordClusterEvent(c, phase, format, args...)] *)
Definition recordClusterEvent (f : Fn) (phase format : string)
           (args : list fmtArg) : M unit :=
  emit f (ActRecordEvent phase format args).

(** A [Create] call of the orchestrator client. *)
Definition apiCreate (f : Fn) (k : Kind) (ns : string) (o : Obj) : M (option error) :=
  h <- history ;;
  emit f (ActCreate k ns o) ;;;
  mret (clientCreate w h k ns o).

Definition apiDelete (f : Fn) (k : Kind) (ns name : string) : M (option error) :=
  h <- history ;;
  emit f (ActDelete k ns name) ;;;
  mret (clientDelete w h k ns name).

(** A [GetByKey] probe of a cache. *)
Definition probe {A : Type} (f : Fn) (k : Kind) (st : Store A) (key : string)
  : M (bool * option error) :=
  emit f (ActGetByKey k key) ;;;
  let '(_, exists_, err) := GetByKey st key in
  mret (exists_, err).

(** [for k, v := range entries] *)
Definition rangeMap {A R : Type} (entries : list (string * A))
           (body : string * A -> M (LoopCtl R)) : M (option R) :=
  h <- history ;;
  forEach (rangeOrder (mapOrder w h) entries) body.

Definition pendingCreateRootCA : M Result :=
  emit FnPendingCreateRootCA ActEnter ;;;
  c <- getC ;;
  if negb (isNil (Key (RootCA (Status c)))) then mret (None, None)
  else
    let rootCAReq :=
      {| CN := "root-ca." +:+ Name (Metadata c) +:+ "." +:+ dc cc
               +:+ "." +:+ externalURL cc;
         KeyRequestA := "rsa";
         KeyRequestS := 2048;
         CAExpiry := itoa (24 * 365 * 10) +:+ "h" |} in
    emit FnPendingCreateRootCA (ActInitCA rootCAReq) ;;;
    let '(cert, key, err) := initca_New w rootCAReq in
    putC (set_RootCA {| Key := key; Cert := cert |} c) ;;;
    match err with
    | Some e =>
        mret (None, Some (Errorf "failed to create root-ca: %v" [ArgError e]))
    | None => mret (Some RefC, None)
    end.

Definition secrets : list (string * SecretGen) :=
  [("apiserver-auth", createApiserverAuth w);
   ("apiserver-ssh", createApiserverSSH w)].

(** [recreateSecrets], as [pendingCheckSecrets] fills it. *)
Definition recreateSecretsOf (c : Cluster) : gset string :=
  if (String.length (ApiserverSSH (Status c)) =? 0)%nat
  then {[ "apiserver-ssh" ]} else ∅.

(** The second half of an iteration of [pendingCheckSecrets]: the template
    is parsed, the secret generated and created. *)
Definition generateSecret (ns key s : string) (gen : SecretGen)
  : M (LoopCtl Result) :=
  let '(t, err) := ParseFiles w (pathJoin w (masterResourcesPath cc)
                                          (s +:+ "-secret.yaml")) in
  match err with
  | Some e => mret (Return (None, Some e))
  | None =>
      c <- getC ;;
      let g := gen c t in
      putC (genCluster g) ;;;
      match genErr g with
      | Some e =>
          mret (Return (None, Some (Errorf "failed to generate %s: %v"
                                           [ArgString s; ArgError e])))
      | None =>
          err <- apiCreate FnPendingCheckSecrets KSecret ns (genSecret g) ;;
          match err with
          | Some e =>
              mret (Return (None,
                            Some (Errorf "failed to create secret for %s: %v"
                                         [ArgString s; ArgError e])))
          | None =>
              recordClusterEvent FnPendingCheckSecrets "pending"
                                 "Created secret %q" [ArgString key] ;;;
              match genChanged g with
              | Some changedC => mret (Return (Some changedC, None))
              | None => mret Continue
              end
          end
      end
  end.

(** One iteration of the loop of [pendingCheckSecrets]. *)
Definition secretBody (recreateSecrets : gset string) (ns : string)
  : string * SecretGen -> M (LoopCtl Result) :=
  fun '(s, gen) =>
    let key := ns +:+ "/" +:+ s in
    pr <- probe FnPendingCheckSecrets KSecret (secretStore cc) key ;;
    let '(exists_, err) := pr in
    match err with
    | Some e => mret (Return (None, Some e))
    | None =>
        if exists_ then
          if negb (bool_decide (s ∈ recreateSecrets)) then mret Continue
          else
            err <- apiDelete FnPendingCheckSecrets KSecret ns s ;;
            match err with
            | Some e => mret (Return (None, Some e))
            | None => generateSecret ns key s gen
            end
        else generateSecret ns key s gen
    end.

Definition pendingCheckSecrets : M Result :=
  emit FnPendingCheckSecrets ActEnter ;;;
  c <- getC ;;
  let recreateSecrets := recreateSecretsOf c in
  let ns := NamespaceName w (Name (Metadata c)) in
  r <- rangeMap secrets (secretBody recreateSecrets ns) ;;
  match r with
  | Some res => mret res
  | None => mret (None, None)
  end.

Definition launchingCheckTokenUsers : M Result :=
  emit FnLaunchingCheckTokenUsers ActEnter ;;;
  c <- getC ;;
  let ns := NamespaceName w (Name (Metadata c)) in
  let key := ns +:+ "/token-users" in
  pr <- probe FnLaunchingCheckTokenUsers KSecret (secretStore cc) key ;;
  let '(exists_, err) := pr in
  match err with
  | Some e => mret (None, Some e)
  | None =>
      if exists_ then mret (None, None)
      else
        let '(c', secret, err) := createTokens w c in
        putC c' ;;;
        match err with
        | Some e =>
            mret (None, Some (Errorf "failed to generate token users: %v"
                                     [ArgError e]))
        | None =>
            err <- apiCreate FnLaunchingCheckTokenUsers KSecret ns secret ;;
            match err with
            | Some e =>
                mret (None,
                      Some (Errorf "failed to create secret for token user: %v"
                                   [ArgError e]))
            | None =>
                recordClusterEvent FnLaunchingCheckTokenUsers "launching"
                                   "Created secret %q" [ArgString key] ;;;
                mret (Some RefC, None)
            end
        end
  end.

Definition launchingCheckApiserverPublicService : M Result :=
  emit FnLaunchingCheckApiserverPublicService ActEnter ;;;
  c <- getC ;;
  let ns := NamespaceName w (Name (Metadata c)) in
  let key := ns +:+ "/" +:+ "apiserver" in
  pr <- probe FnLaunchingCheckApiserverPublicService KService (serviceStore cc) key ;;
  let '(exists_, err) := pr in
  match err with
  | Some e => mret (None, Some e)
  | None =>
      if exists_ then mret (None, None)
      else
        pe <- liftOption (GetFreeNodePort cc) ;;
        let '(port, err) := pe in
        putC (set_ApiserverExternalPort port c) ;;;
        match err with
        | Some e => mret (None, Some e)
        | None =>
            c1 <- getC ;;
            putC (set_URL ("https://" +:+ Name (Metadata c1) +:+ "." +:+ dc cc
                           +:+ "." +:+ externalURL cc +:+ ":"
                           +:+ itoa (ApiserverExternalPort (Address c1))) c1) ;;;
            c2 <- getC ;;
            let '(service, err) :=
              LoadServiceFile w c2 "apiserver" (masterResourcesPath cc) in
            match err with
            | Some e =>
                mret (None,
                      Some (Errorf "failed to generate apiserver service %s: %v"
                                   [ArgString key; ArgError e]))
            | None =>
                err <- apiCreate FnLaunchingCheckApiserverPublicService
                                 KService ns service ;;
                match err with
                | Some e =>
                    mret (None,
                          Some (Errorf "failed to create apiserver service %s: %v"
                                       [ArgString key; ArgError e]))
                | None =>
                    recordClusterEvent FnLaunchingCheckApiserverPublicService
                                       "launching" "Created apiserver service %q"
                                       [ArgString key] ;;;
                    mret (Some RefC, None)
                end
            end
        end
  end.

Definition launchingCheckServices : M Result :=
  emit FnLaunchingCheckServices ActEnter ;;;
  c <- getC ;;
  let services := [("apiserver-insecure", LoadServiceFile w)] in
  let ns := NamespaceName w (Name (Metadata c)) in
  r <- rangeMap services (fun '(s, gen) =>
    let key := ns +:+ "/" +:+ s in
    pr <- probe FnLaunchingCheckServices KService (serviceStore cc) key ;;
    let '(exists_, err) := pr in
    match err with
    | Some e => mret (Return (None, Some e))
    | None =>
        if exists_ then mret Continue
        else
          let '(service, err) := gen c s (masterResourcesPath cc) in
          match err with
          | Some e =>
              mret (Return (None, Some (Errorf "failed to generate service %s: %v"
                                               [ArgString s; ArgError e])))
          | None =>
              err <- apiCreate FnLaunchingCheckServices KService ns service ;;
              match err with
              | Some e =>
                  mret (Return (None, Some (Errorf "failed to create service %s: %v"
                                                   [ArgString s; ArgError e])))
              | None =>
                  recordClusterEvent FnLaunchingCheckServices "launching"
                                     "Created service %q" [ArgString s] ;;;
                  mret Continue
              end
          end
    end) ;;
  match r with
  | Some res => mret res
  | None => mret (None, None)
  end.

Definition launchingCheckServiceAccounts : M (option error) :=
  emit FnLaunchingCheckServiceAccounts ActEnter ;;;
  c <- getC ;;
  let serviceAccounts := [("etcd-operator", LoadServiceAccountFile w)] in
  let ns := NamespaceName w (Name (Metadata c)) in
  r <- rangeMap serviceAccounts (fun '(s, gen) =>
    let key := ns +:+ "/" +:+ s in
    pr <- probe FnLaunchingCheckServiceAccounts KServiceAccount (saStore cc) key ;;
    let '(exists_, err) := pr in
    match err with
    | Some e => mret (Return (Some e))
    | None =>
        if exists_ then mret Continue
        else
          let '(sa, err) := gen s (masterResourcesPath cc) in
          match err with
          | Some e =>
              mret (Return (Some (Errorf "failed to generate service account %s: %v"
                                         [ArgString s; ArgError e])))
          | None =>
              err <- apiCreate FnLaunchingCheckServiceAccounts KServiceAccount ns sa ;;
              match err with
              | Some e =>
                  mret (Return (Some (Errorf "failed to create service account %s: %v"
                                             [ArgString s; ArgError e])))
              | None =>
                  recordClusterEvent FnLaunchingCheckServiceAccounts "launching"
                                     "Created service account %q" [ArgString s] ;;;
                  mret Continue
              end
          end
    end) ;;
  match r with
  | Some res => mret res
  | None => mret None
  end.

Definition launchingCheckClusterRoleBindings : M (option error) :=
  emit FnLaunchingCheckClusterRoleBindings ActEnter ;;;
  c <- getC ;;
  let roleBindings := [("etcd-operator", LoadClusterRoleBindingFile w)] in
  let ns := NamespaceName w (Name (Metadata c)) in
  r <- rangeMap roleBindings (fun '(s, gen) =>
    let '(binding, err) := gen ns s (masterResourcesPath cc) in
    match err with
    | Some e =>
        mret (Return (Some (Errorf "failed to generate cluster role binding %s: %v"
                                   [ArgString s; ArgError e])))
    | None =>
        pr <- probe FnLaunchingCheckClusterRoleBindings KClusterRoleBinding
                    (clusterRoleBindingStore cc) (ObjName binding) ;;
        let '(exists_, err) := pr in
        match err with
        | Some e => mret (Return (Some e))
        | None =>
            if exists_ then mret Continue
            else
              err <- apiCreate FnLaunchingCheckClusterRoleBindings
                               KClusterRoleBinding "" binding ;;
              match err with
              | Some e =>
                  mret (Return (Some (Errorf "failed to create cluster role binding %s: %v"
                                             [ArgString s; ArgError e])))
              | None =>
                  recordClusterEvent FnLaunchingCheckClusterRoleBindings "launching"
                                     "Created binding %q" [ArgString s] ;;;
                  mret Continue
              end
        end
    end) ;;
  match r with
  | Some res => mret res
  | None => mret None
  end.

(** The master-version resolution both [launchingCheckDeployments] and
    [launchingCheckEtcdCluster] open with: [inl] is the early return on an
    unknown version, [inr] the registry entry found. *)
Definition resolveMasterVersion (f : Fn) : M (Result + MasterVersionT) :=
  c <- getC ;;
  (if String.eqb (MasterVersion (Spec c)) ""
   then putC (set_MasterVersion (ID (defaultMasterVersion cc)) c)
   else mret tt) ;;;
  c <- getC ;;
  match versions cc !! MasterVersion (Spec c) with
  | None =>
      h <- history ;;
      putC (set_LastTransitionTime (timeNow w h) c) ;;;
      c <- getC ;;
      putC (set_Phase FailedClusterStatusPhase c) ;;;
      c <- getC ;;
      recordClusterEvent f "launching"
        "Failed to create new cluster %q due to unknown master version %q"
        [ArgString (Name (Metadata c)); ArgString (MasterVersion (Spec c))] ;;;
      mret (inl (Some RefC,
                 Some (Errorf "unknown new cluster %q master version %q"
                              [ArgString (Name (Metadata c));
                               ArgString (MasterVersion (Spec c))])))
  | Some masterVersion => mret (inr masterVersion)
  end.

(** [cc.depStore.ByIndex("namespace", ns)] *)
Definition depsByNamespace (ns : string) : list Deployment * option error :=
  match depIndexErr cc ns with
  | Some e => ([], Some e)
  | None =>
      (List.filter (fun d => String.eqb (DepNamespace d) ns)
                   (StoreList (depStore cc)),
       None)
  end.

(** One iteration of the loop of [launchingCheckDeployments]. *)
Definition deploymentBody (ns : string) (masterVersion : MasterVersionT)
           (existingDeps : list Deployment)
  : string * string -> M (LoopCtl Result) :=
  fun '(s, yamlFile) =>
    let exists_ :=
      existsb (fun dep =>
                 match MatchLabels dep !! "role" with
                 | Some role => String.eqb role s
                 | None => false
                 end) existingDeps in
    if exists_ then mret Continue
    else
      c <- getC ;;
      let '(dep, err) :=
        LoadDeploymentFile w c masterVersion (masterResourcesPath cc)
                           (dc cc) yamlFile in
      match err with
      | Some e =>
          mret (Return (None,
                        Some (Errorf "failed to generate deployment %s: %v"
                                     [ArgString s; ArgError e])))
      | None =>
          err <- apiCreate FnLaunchingCheckDeployments KDeployment ns dep ;;
          match err with
          | Some e =>
              mret (Return (None,
                            Some (Errorf "failed to create deployment %s: %v"
                                         [ArgString s; ArgError e])))
          | None =>
              recordClusterEvent FnLaunchingCheckDeployments "launching"
                                 "Created dep %q" [ArgString s] ;;;
              mret Continue
          end
      end.

Definition launchingCheckDeployments : M Result :=
  emit FnLaunchingCheckDeployments ActEnter ;;;
  c <- getC ;;
  let ns := NamespaceName w (Name (Metadata c)) in
  mv <- resolveMasterVersion FnLaunchingCheckDeployments ;;
  match mv with
  | inl res => mret res
  | inr masterVersion =>
      let deps :=
        [("etcd-operator", EtcdOperatorDeploymentYaml masterVersion);
         ("apiserver", ApiserverDeploymentYaml masterVersion);
         ("controller-manager", ControllerDeploymentYaml masterVersion);
         ("scheduler", SchedulerDeploymentYaml masterVersion)] in
      emit FnLaunchingCheckDeployments (ActByIndex KDeployment "namespace" ns) ;;;
      let '(existingDeps, err) := depsByNamespace ns in
      match err with
      | Some e => mret (None, Some e)
      | None =>
          r <- rangeMap deps (deploymentBody ns masterVersion existingDeps) ;;
          match r with
          | Some res => mret res
          | None => mret (None, None)
          end
      end
  end.

Definition configMaps (c : Cluster) : list (string * (Cluster -> Obj * option error)) :=
  match Cloud (Spec c) with
  | Some cloud =>
      match AWS cloud with
      | Some _ => [("aws-cloud-config", LoadAwsCloudConfigConfigMap w)]
      | None => []
      end
  | None => []
  end.

Definition launchingCheckConfigMaps : M (option error) :=
  emit FnLaunchingCheckConfigMaps ActEnter ;;;
  c <- getC ;;
  let ns := NamespaceName w (Name (Metadata c)) in
  let cms := configMaps c in
  r <- rangeMap cms (fun '(s, gen) =>
    let key := ns +:+ "/" +:+ s in
    pr <- probe FnLaunchingCheckConfigMaps KConfigMap (cmStore cc) key ;;
    let '(exists_, err) := pr in
    match err with
    | Some e => mret (Return (Some e))
    | None =>
        if exists_ then mret Continue
        else
          c <- getC ;;
          let '(cm, err) := gen c in
          match err with
          | Some e =>
              mret (Return (Some (Errorf "failed to generate cm %s: %v"
                                         [ArgString s; ArgError e])))
          | None =>
              err <- apiCreate FnLaunchingCheckConfigMaps KConfigMap ns cm ;;
              match err with
              | Some e =>
                  mret (Return (Some (Errorf "failed to create cm %s; %v"
                                             [ArgString s; ArgError e])))
              | None =>
                  recordClusterEvent FnLaunchingCheckConfigMaps "launching"
                                     "Created cm %q" [ArgString s] ;;;
                  mret Continue
              end
          end
    end) ;;
  match r with
  | Some res => mret res
  | None => mret None
  end.

Definition launchingCheckPvcs : M (option error) :=
  emit FnLaunchingCheckPvcs ActEnter ;;;
  c <- getC ;;
  let ns := NamespaceName w (Name (Metadata c)) in
  let pvcs : list (string * (Cluster -> string -> string -> Obj * option error)) :=
    [] in
  r <- rangeMap pvcs (fun '(s, gen) =>
    let key := ns +:+ "/" +:+ s +:+ "-pvc" in
    pr <- probe FnLaunchingCheckPvcs KPersistentVolumeClaim (pvcStore cc) key ;;
    let '(exists_, err) := pr in
    match err with
    | Some e => mret (Return (Some e))
    | None =>
        if exists_ then mret Continue
        else
          c <- getC ;;
          let '(pvc, err) := gen c s (masterResourcesPath cc) in
          match err with
          | Some e =>
              mret (Return (Some (Errorf "failed to generate pvc %s: %v"
                                         [ArgString s; ArgError e])))
          | None =>
              err <- apiCreate FnLaunchingCheckPvcs KPersistentVolumeClaim ns pvc ;;
              match err with
              | Some e =>
                  mret (Return (Some (Errorf "failed to create pvc %s; %v"
                                             [ArgString s; ArgError e])))
              | None =>
                  recordClusterEvent FnLaunchingCheckPvcs "launching"
                                     "Created pvc %q" [ArgString s] ;;;
                  mret Continue
              end
          end
    end) ;;
  match r with
  | Some res => mret res
  | None => mret None
  end.

Definition defaultPlugins : list (string * string) :=
  [("flannelcni", "flannel-cni");
   ("heapster", "heapster");
   ("kubedns", "kubedns");
   ("kubeproxy", "kube-proxy");
   ("kubernetesdashboard", "kubernetes-dashboard")].

(** One iteration of the loop of [launchingCheckDefaultPlugins]. *)
Definition defaultPluginBody (c : Cluster) (ns : string)
  : string * string -> M (LoopCtl (option error)) :=
  fun '(safeName, name) =>
    let metaName := "addon-default-" +:+ safeName in
    pr <- probe FnLaunchingCheckDefaultPlugins KClusterAddon (addonStore cc)
                (ns +:+ "/" +:+ metaName) ;;
    let '(exists_, err) := pr in
    match err with
    | Some e => mret (Return (Some e))
    | None =>
        if exists_ then mret Continue
        else
          let addon := {| AddonMetaName := metaName;
                          AddonName := name;
                          AddonPhase := PendingAddonStatusPhase |} in
          h <- history ;;
          emit FnLaunchingCheckDefaultPlugins
               (ActCreateAddon ("cluster-" +:+ Name (Metadata c)) addon) ;;;
          match tprCreate w h ("cluster-" +:+ Name (Metadata c)) addon with
          | Some e =>
              mret (Return (Some (Errorf
                "failed to create default addon third-party-resource %s; %v"
                [ArgString name; ArgError e])))
          | None => mret Continue
          end
    end.

Definition launchingCheckDefaultPlugins : M (option error) :=
  emit FnLaunchingCheckDefaultPlugins ActEnter ;;;
  c <- getC ;;
  let ns := NamespaceName w (Name (Metadata c)) in
  r <- rangeMap defaultPlugins (defaultPluginBody c ns) ;;
  match r with
  | Some res => mret res
  | None => mret None
  end.

Definition launchingCheckEtcdCluster : M Result :=
  emit FnLaunchingCheckEtcdCluster ActEnter ;;;
  c <- getC ;;
  let ns := NamespaceName w (Name (Metadata c)) in
  mv <- resolveMasterVersion FnLaunchingCheckEtcdCluster ;;
  match mv with
  | inl res => mret res
  | inr masterVersion =>
      let '(etcd, err) :=
        LoadEtcdClusterFile w masterVersion (masterResourcesPath cc)
                            (EtcdClusterYaml masterVersion) in
      match err with
      | Some e =>
          mret (None, Some (Errorf "failed to load etcd-cluster: %v" [ArgError e]))
      | None =>
          let key := ns +:+ "/" +:+ ObjName etcd in
          pr <- probe FnLaunchingCheckEtcdCluster KEtcdCluster
                      (etcdClusterStore cc) key ;;
          let '(exists_, err) := pr in
          match err with
          | Some e => mret (None, Some e)
          | None =>
              if exists_ then mret (Some RefC, None)
              else
                err <- apiCreate FnLaunchingCheckEtcdCluster KEtcdCluster ns etcd ;;
                match err with
                | Some e =>
                    mret (None,
                          Some (Errorf "failed to create ecd-cluster definition (tpr): %v"
                                       [ArgError e]))
                | None =>
                    recordClusterEvent FnLaunchingCheckEtcdCluster "launching"
                                       "Created etcd-cluster"
                                       [ArgString (ObjName etcd)] ;;;
                    mret (None, None)
                end
          end
      end
  end.

(** ** The pipeline driver *)

Definition stops (r : Result) : bool := negb (isNil (snd r)) || negb (isNil (fst r)).

Definition runCheckTimeout : M (option error) :=
  emit FnCheckTimeout ActEnter ;;;
  c <- getC ;;
  let '(c', err) := checkTimeout w c in
  putC c' ;;;
  mret err.

Definition syncPendingCluster : M Result :=
  err <- runCheckTimeout ;;
  if negb (isNil err) then mret (None, err) else
  r <- pendingCreateRootCA ;;
  if stops r then mret r else
  r <- launchingCheckTokenUsers ;;
  if stops r then mret r else
  r <- launchingCheckApiserverPublicService ;;
  if stops r then mret r else
  let changedC := fst r in
  err <- launchingCheckServiceAccounts ;;
  if negb (isNil err) then mret (changedC, err) else
  err <- launchingCheckClusterRoleBindings ;;
  if negb (isNil err) then mret (changedC, err) else
  r <- launchingCheckServices ;;
  if stops r then mret r else
  r <- pendingCheckSecrets ;;
  if stops r then mret r else
  let changedC := fst r in
  err <- launchingCheckConfigMaps ;;
  if negb (isNil err) || negb (isNil changedC) then mret (changedC, err) else
  err <- launchingCheckPvcs ;;
  if negb (isNil err) then mret (None, err) else
  r <- launchingCheckDeployments ;;
  if negb (isNil (snd r)) then mret r else
  r <- launchingCheckEtcdCluster ;;
  if negb (isNil (snd r)) then mret r else
  err <- launchingCheckDefaultPlugins ;;
  if negb (isNil err) then mret (None, err) else
  h <- history ;;
  c <- getC ;;
  putC (set_LastTransitionTime (timeNow w h) c) ;;;
  c <- getC ;;
  putC (set_Phase LaunchingClusterStatusPhase c) ;;;
  mret (Some RefC, None).

End Reconciler.

(** A reconcile of [c] from an empty trace. *)
Definition reconcile (w : World) (cc : clusterController) (c : Cluster)
  : option (Result * State) :=
  syncPendingCluster w cc {| cur := c; log := [] |}.

(** ** Vocabulary of the properties *)

(** The master version a step works with: the configured default when the
    spec leaves it blank. *)
Definition resolvedVersion (cc : clusterController) (c : Cluster) : string :=
  if String.eqb (MasterVersion (Spec c)) "" then ID (defaultMasterVersion cc)
  else MasterVersion (Spec c).

(** The [Create] calls of the orchestrator client in a trace. *)
Definition creates (l : list Event) : list (Kind * string * Obj) :=
  flat_map (fun e => match evAct e with
                     | ActCreate k ns o => [(k, ns, o)]
                     | _ => []
                     end) l.

(** The last character of a string. *)
Fixpoint lastChar (s : string) : option Ascii.ascii :=
  match s with
  | EmptyString => None
  | String ch EmptyString => Some ch
  | String _ rest => lastChar rest
  end.

(** The key [launchingCheckDefaultPlugins] probes the add-on cache with. *)
Definition addonProbeKey (w : World) (c : Cluster) (safeName : string) : string :=
  NamespaceName w (Name (Metadata c)) +:+ "/" +:+ "addon-default-" +:+ safeName.

(** The key [<namespace>/<name>] of the add-on the step creates for
    [safeName]: its namespace is the one the [Create] is issued against. *)
Definition addonCacheKey (c : Cluster) (safeName : string) : string :=
  ("cluster-" +:+ Name (Metadata c)) +:+ "/" +:+ "addon-default-" +:+ safeName.

(** The add-on cache once it holds the five add-ons the step created. *)
Definition createdAddons (c : Cluster) : list (string * Obj) :=
  map (fun '(safeName, _) =>
         (addonCacheKey c safeName,
          {| ObjName := "addon-default-" +:+ safeName; ObjBody := "" |}))
      defaultPlugins.

(** What the default-plugins step may do for the record [c]: probe the
    add-on cache under the probe key of a default plug-in, or create the
    add-on of a default plug-in in the namespace [cluster-<name>]. *)
Definition pluginAction (w : World) (c : Cluster) (a : Action) : Prop :=
  exists safeName name,
    In (safeName, name) defaultPlugins /\
    (a = ActGetByKey KClusterAddon (addonProbeKey w c safeName) \/
     a = ActCreateAddon ("cluster-" +:+ Name (Metadata c))
                        {| AddonMetaName := "addon-default-" +:+ safeName;
                           AddonName := name;
                           AddonPhase := PendingAddonStatusPhase |}).

(** The add-on [Create] calls in a trace. *)
Definition addonCreates (l : list Event) : list (string * ClusterAddon) :=
  flat_map (fun e => match evAct e with
                     | ActCreateAddon ns a => [(ns, a)]
                     | _ => []
                     end) l.

(** [c.Spec.Cloud != nil && c.Spec.Cloud.AWS != nil] *)
Definition hasAWS (c : Cluster) : bool :=
  match Cloud (Spec c) with
  | Some cloud => negb (isNil (AWS cloud))
  | None => false
  end.

(** The [Create] calls the config-map step issues for the record [c]. *)
Definition configMapCreates (w : World) (cc : clusterController) (c : Cluster)
  : list (Kind * string * Obj) :=
  match launchingCheckConfigMaps w cc {| cur := c; log := [] |} with
  | Some (_, s') => creates (log s')
  | None => []
  end.

(** [https://<name>.<dc>.<external-url>:<port>] *)
Definition publicURL (cc : clusterController) (name : string) (port : Z) : string :=
  "https://" +:+ name +:+ "." +:+ dc cc +:+ "." +:+ externalURL cc
  +:+ ":" +:+ itoa port.

(** The record after the resolution: [Spec.MasterVersion] is assigned only
    when it was blank. *)
Definition withResolvedVersion (cc : clusterController) (c : Cluster) : Cluster :=
  if String.eqb (MasterVersion (Spec c)) ""
  then set_MasterVersion (ID (defaultMasterVersion cc)) c
  else c.

(** The error of the unknown-master-version path. *)
Definition unknownMasterVersion (name version : string) : error :=
  Errorf "unknown new cluster %q master version %q"
         [ArgString name; ArgString version].

(** [traced f s s']: from [s] to [s'] the trace grew by events of [f]
    only; [quiet f s s'] when the record is untouched as well. *)
Definition traced (f : Fn) (s s' : State) : Prop :=
  exists evs, log s' = log s ++ evs /\ Forall (fun e => evFn e = f) evs.

Definition quiet (f : Fn) (s s' : State) : Prop :=
  cur s' = cur s /\ traced f s s'.

Definition enter (f : Fn) : Event := {| evFn := f; evAct := ActEnter |}.

(** The four mutations of the record that make the pipeline yield. *)
Inductive Aspect : Type :=
| AspectRootCA
| AspectTokenUsers
| AspectPublicService
| AspectApiserverSSH.

(** [unchanged a c c']: the part of the record the mutation [a] writes is
    the same in [c] and [c'].  The token material is among the fields
    [pending.go] does not name. *)
Definition unchanged (a : Aspect) (c c' : Cluster) : Prop :=
  match a with
  | AspectRootCA => RootCA (Status c') = RootCA (Status c)
  | AspectTokenUsers => Untracked c' = Untracked c
  | AspectPublicService =>
      URL (Address c') = URL (Address c) /\
      ApiserverExternalPort (Address c') = ApiserverExternalPort (Address c)
  | AspectApiserverSSH => ApiserverSSH (Status c') = ApiserverSSH (Status c)
  end.

(** [only_changes a c c']: of the four parts, at most the one of [a]
    differs between [c] and [c']. *)
Definition only_changes (a : Aspect) (c c' : Cluster) : Prop :=
  forall a', a' <> a -> unchanged a' c c'.

Definition same_phase (c c' : Cluster) : Prop :=
  Phase (Status c') = Phase (Status c).

(** The step that performs the mutation. *)
Definition aspectStep (a : Aspect) : Fn :=
  match a with
  | AspectRootCA => FnPendingCreateRootCA
  | AspectTokenUsers => FnLaunchingCheckTokenUsers
  | AspectPublicService => FnLaunchingCheckApiserverPublicService
  | AspectApiserverSSH => FnPendingCheckSecrets
  end.

(** Assumptions on the collaborators that are not part of [pending.go]. *)

(** [checkTimeout], when it reports no expiry, leaves the record alone. *)
Definition timeout_leaves_record (w : World) : Prop :=
  forall c c', checkTimeout w c = (c', None) -> c' = c.

(** [createTokens] writes the token material and nothing else of the four
    parts; it keeps the phase. *)
Definition tokens_frame (w : World) : Prop :=
  forall c, only_changes AspectTokenUsers c (fst (fst (createTokens w c))).

Definition tokens_keep_phase (w : World) : Prop :=
  forall c, same_phase c (fst (fst (createTokens w c))).

(** A secret generator that succeeds either returns no cluster and leaves
    the record alone, or returns a cluster related to the record by [R]. *)
Definition gen_respects (R : Cluster -> Cluster -> Prop) (gen : SecretGen) : Prop :=
  forall c t,
    genErr (gen c t) = None ->
    match genChanged (gen c t) with
    | None => genCluster (gen c t) = c
    | Some ref => R c (pointee (genCluster (gen c t)) ref)
    end.

(** [progress_log k s]: the trace of [s] holds events of the first [k]
    functions only, and each of them was entered. *)
Definition progress_log (k : nat) (s : State) : Prop :=
  (forall ev, In ev (log s) -> (fnIndex (evFn ev) < k)%nat) /\
  (forall f, (fnIndex f < k)%nat -> In (enter f) (log s)).

(** [afterEach P Q l]: whatever follows an action satisfying [P] in [l]
    satisfies [Q]. *)
Fixpoint afterEach (P : Action -> Prop) (Q : list Action -> Prop)
         (l : list Action) : Prop :=
  match l with
  | [] => True
  | a :: rest => (P a -> Q rest) /\ afterEach P Q rest
  end.

(** [grew Q s s']: from [s] to [s'] the trace grew by actions satisfying
    [Q] only. *)
Definition grew (Q : Action -> Prop) (s s' : State) : Prop :=
  exists evs, log s' = log s ++ evs /\ Forall (fun e => Q (evAct e)) evs.


(** [ran f s s']: [f] was entered at [s] and the trace grew by its events
    only. *)
Definition ran (f : Fn) (s s' : State) : Prop :=
  exists evs, log s' = log s ++ enter f :: evs /\ Forall (fun e => evFn e = f) evs.

(** ** Concrete inputs *)

Module Sample.

Definition emptyStore {A : Type} : Store A :=
  {| storeItems := []; storeGetErr := fun _ => None |}.

Definition storeOf {A : Type} (items : list (string * A)) : Store A :=
  {| storeItems := items; storeGetErr := fun _ => None |}.

Definition svc (ports : list Z) : Service :=
  {| Ports := map (fun p => {| NodePort := p |}) ports |}.

Definition v1 : MasterVersionT :=
  {| EtcdOperatorDeploymentYaml := "etcd-operator-dep.yaml";
     ApiserverDeploymentYaml := "apiserver-dep.yaml";
     ControllerDeploymentYaml := "controller-manager-dep.yaml";
     SchedulerDeploymentYaml := "scheduler-dep.yaml";
     EtcdClusterYaml := "etcd-cluster.yaml" |}.

(** A controller for the port range 30000-30002 whose caches hold what
    [secretItems] and [serviceItems] list. *)
Definition controller (secretItems : list (string * Obj))
           (serviceItems : list (string * Service)) : clusterController :=
  {| dc := "fra1";
     externalURL := "example.com";
     masterResourcesPath := "/opt/master";
     minAPIServerPort := 30000;
     maxAPIServerPort := 30002;
     defaultMasterVersion := {| ID := "v1" |};
     versions := {[ "v1" := v1 ]};
     secretStore := storeOf secretItems;
     serviceStore := storeOf serviceItems;
     saStore := emptyStore;
     clusterRoleBindingStore := emptyStore;
     cmStore := emptyStore;
     pvcStore := emptyStore;
     depStore := emptyStore;
     depIndexErr := fun _ => None;
     addonStore := emptyStore;
     etcdClusterStore := emptyStore |}.

Definition obj (name : string) : Obj := {| ObjName := name; ObjBody := "" |}.

Definition withConfigMaps (items : list (string * Obj)) (cc : clusterController)
  : clusterController :=
  {| dc := dc cc; externalURL := externalURL cc;
     masterResourcesPath := masterResourcesPath cc;
     minAPIServerPort := minAPIServerPort cc;
     maxAPIServerPort := maxAPIServerPort cc;
     defaultMasterVersion := defaultMasterVersion cc;
     versions := versions cc;
     secretStore := secretStore cc;
     serviceStore := serviceStore cc;
     saStore := saStore cc;
     clusterRoleBindingStore := clusterRoleBindingStore cc;
     cmStore := storeOf items;
     pvcStore := pvcStore cc;
     depStore := depStore cc;
     depIndexErr := depIndexErr cc;
     addonStore := addonStore cc;
     etcdClusterStore := etcdClusterStore cc |}.

Definition withAddons (items : list (string * Obj)) (cc : clusterController)
  : clusterController :=
  {| dc := dc cc; externalURL := externalURL cc;
     masterResourcesPath := masterResourcesPath cc;
     minAPIServerPort := minAPIServerPort cc;
     maxAPIServerPort := maxAPIServerPort cc;
     defaultMasterVersion := defaultMasterVersion cc;
     versions := versions cc;
     secretStore := secretStore cc;
     serviceStore := serviceStore cc;
     saStore := saStore cc;
     clusterRoleBindingStore := clusterRoleBindingStore cc;
     cmStore := cmStore cc;
     pvcStore := pvcStore cc;
     depStore := depStore cc;
     depIndexErr := depIndexErr cc;
     addonStore := storeOf items;
     etcdClusterStore := etcdClusterStore cc |}.

Definition aws : option CloudSpec :=
  Some {| AWS := Some {| awsSettings := "eu-central-1" |} |}.

Definition ok (name : string) : Obj * option error := (obj name, None).

(** Collaborators that never fail: the namespace of a cluster is
    [cluster-<name>], [createTokens] writes the token material,
    [createApiserverSSH] records the public key in [Status.ApiserverSSH] and
    hands the record back, [createApiserverAuth] leaves it alone. *)
Definition world : World :=
  {| timeNow := fun _ => 1700000000;
     mapOrder := fun _ _ => 0%nat;
     NamespaceName := fun name => "cluster-" +:+ name;
     pathJoin := fun dir file => dir +:+ "/" +:+ file;
     checkTimeout := fun c => (c, None);
     initca_New := fun _ => (Some [Byte.x01], Some [Byte.x02], None);
     createTokens := fun c => (set_Untracked "tokens" c, obj "token-users", None);
     createApiserverAuth := fun c _ =>
       {| genCluster := c; genChanged := None;
          genSecret := obj "apiserver-auth"; genErr := None |};
     createApiserverSSH := fun c _ =>
       {| genCluster := set_ApiserverSSH "ssh-rsa AAAA" c; genChanged := Some RefC;
          genSecret := obj "apiserver-ssh"; genErr := None |};
     ParseFiles := fun file => (file, None);
     LoadServiceFile := fun _ app _ => ok app;
     LoadServiceAccountFile := fun app _ => ok app;
     LoadClusterRoleBindingFile := fun _ app _ => ok app;
     LoadDeploymentFile := fun _ _ _ _ yamlFile => ok yamlFile;
     LoadEtcdClusterFile := fun _ _ yamlFile => ok yamlFile;
     LoadAwsCloudConfigConfigMap := fun _ => ok "aws-cloud-config";
     LoadPVCFile := fun _ app _ => ok app;
     clientCreate := fun _ _ _ _ => None;
     clientDelete := fun _ _ _ _ => None;
     tprCreate := fun _ _ _ => None |}.

(** A cluster named [name] in phase Pending, without a root CA. *)
Definition cluster (name : string) (cloud : option CloudSpec) : Cluster :=
  {| Metadata := {| Name := name |};
     Spec := {| MasterVersion := "v1"; Cloud := cloud |};
     Address := {| URL := ""; ApiserverExternalPort := 0 |};
     Status := {| Phase := PendingClusterStatusPhase;
                  LastTransitionTime := 0;
                  RootCA := {| Key := None; Cert := None |};
                  ApiserverSSH := "" |};
     Untracked := "" |}.

Definition start (c : Cluster) : State := {| cur := c; log := [] |}.

(** A cluster that went through the first three steps before: the root CA
    is minted and port 30001 is recorded with its URL. *)
Definition advanced (name : string) : Cluster :=
  set_URL "https://c1.fra1.example.com:30001"
    (set_ApiserverExternalPort 30001
       (set_RootCA {| Key := Some [Byte.x02]; Cert := Some [Byte.x01] |}
                   (cluster name None))).

(** A cluster whose every yielding step is behind it, and the caches that
    show it: the three secrets and the public service of [c1]. *)
Definition settled (name : string) : Cluster :=
  set_ApiserverSSH "ssh-rsa AAAA" (advanced name).

Definition warm : clusterController :=
  controller [("cluster-c1/token-users", obj "token-users");
              ("cluster-c1/apiserver-auth", obj "apiserver-auth");
              ("cluster-c1/apiserver-ssh", obj "apiserver-ssh")]
             [("cluster-c1/apiserver", svc [30001])].

(** The caches of a controller that sees the token-users secret of [c1],
    not its apiserver service, and other services on every port of the
    range. *)
Definition exhausted : clusterController :=
  controller [("cluster-c1/token-users", obj "token-users")]
             [("cluster-a/apiserver", svc [30000]);
              ("cluster-b/apiserver", svc [30001]);
              ("cluster-c/apiserver", svc [30002])].

End Sample.

(** ** Vocabulary of the further properties *)

(** The trace lists the events of the functions in the order
    [syncPendingCluster] calls them. *)
Definition in_order (l : list Event) : Prop :=
  StronglySorted (fun a b => (fnIndex (evFn a) <= fnIndex (evFn b))%nat) l.

(** [reached k s]: exactly the first [k] functions ran, one after the
    other. *)
Definition reached (k : nat) (s : State) : Prop :=
  progress_log k s /\ in_order (log s).

(** [hasRole existingDeps s]: some deployment of [existingDeps] selects
    the role [s] ([dep.Spec.Selector.MatchLabels["role"] == s]). *)
Definition hasRole (existingDeps : list Deployment) (s : string) : bool :=
  existsb (fun dep =>
             match MatchLabels dep !! "role" with
             | Some role => String.eqb role s
             | None => false
             end) existingDeps.

(** The [deps] map of [launchingCheckDeployments]: the template file of
    each role. *)
Definition deploymentFiles (masterVersion : MasterVersionT) : list (string * string) :=
  [("etcd-operator", EtcdOperatorDeploymentYaml masterVersion);
   ("apiserver", ApiserverDeploymentYaml masterVersion);
   ("controller-manager", ControllerDeploymentYaml masterVersion);
   ("scheduler", SchedulerDeploymentYaml masterVersion)].

(** ** Further concrete inputs *)

Module Fixture.

Definition withDeployments (items : list (string * Deployment))
           (cc : clusterController) : clusterController :=
  {| dc := dc cc; externalURL := externalURL cc;
     masterResourcesPath := masterResourcesPath cc;
     minAPIServerPort := minAPIServerPort cc;
     maxAPIServerPort := maxAPIServerPort cc;
     defaultMasterVersion := defaultMasterVersion cc;
     versions := versions cc;
     secretStore := secretStore cc;
     serviceStore := serviceStore cc;
     saStore := saStore cc;
     clusterRoleBindingStore := clusterRoleBindingStore cc;
     cmStore := cmStore cc;
     pvcStore := pvcStore cc;
     depStore := Sample.storeOf items;
     depIndexErr := depIndexErr cc;
     addonStore := addonStore cc;
     etcdClusterStore := etcdClusterStore cc |}.

(** A deployment of the namespace [ns] that selects the role [role]. *)
Definition dep (ns role : string) : Deployment :=
  {| DepNamespace := ns; MatchLabels := {[ "role" := role ]} |}.

End Fixture.

(** ** Side effects by step *)

(** The kind of object a function of the pipeline creates through the
    orchestrator client, if any. *)
Definition stepCreates (f : Fn) : option Kind :=
  match f with
  | FnLaunchingCheckTokenUsers => Some KSecret
  | FnLaunchingCheckApiserverPublicService => Some KService
  | FnLaunchingCheckServiceAccounts => Some KServiceAccount
  | FnLaunchingCheckClusterRoleBindings => Some KClusterRoleBinding
  | FnLaunchingCheckServices => Some KService
  | FnPendingCheckSecrets => Some KSecret
  | FnLaunchingCheckConfigMaps => Some KConfigMap
  | FnLaunchingCheckPvcs => Some KPersistentVolumeClaim
  | FnLaunchingCheckDeployments => Some KDeployment
  | FnLaunchingCheckEtcdCluster => Some KEtcdCluster
  | FnCheckTimeout | FnPendingCreateRootCA | FnLaunchingCheckDefaultPlugins => None
  end.

(** [fits e]: the call of the event [e] is one its function makes: a
    [Create] of the kind of the step, the delete of the [apiserver-ssh]
    secret by the secrets step, an add-on by the default-plugins step, a CA
    by the CA minter. *)
Definition fits (e : Event) : Prop :=
  match evAct e with
  | ActCreate k _ _ => stepCreates (evFn e) = Some k
  | ActDelete k _ name =>
      evFn e = FnPendingCheckSecrets /\ k = KSecret /\ name = "apiserver-ssh"
  | ActCreateAddon _ _ => evFn e = FnLaunchingCheckDefaultPlugins
  | ActInitCA _ => evFn e = FnPendingCreateRootCA
  | ActEnter | ActGetByKey _ _ | ActByIndex _ _ _ | ActRecordEvent _ _ _ => True
  end.

(** [emitted Q s s']: from [s] to [s'] the trace grew by events
    satisfying [Q] only. *)
Definition emitted (Q : Event -> Prop) (s s' : State) : Prop :=
  exists evs, log s' = log s ++ evs /\ Forall Q evs.

(** The stage of the pipeline at which objects of a kind are created:
    the objects that give access (secrets, services, service accounts, role
    bindings) first, then config maps, volume claims, deployments, and the
    etcd cluster. *)
Definition kindStage (k : Kind) : nat :=
  match k with
  | KSecret | KService | KServiceAccount | KClusterRoleBinding => 0
  | KConfigMap => 1
  | KPersistentVolumeClaim => 2
  | KDeployment => 3
  | KEtcdCluster => 4
  | KClusterAddon => 5
  end%nat.

(** The [Delete] calls of the orchestrator client in a trace. *)
Definition deletes (l : list Event) : list (Kind * string * string) :=
  flat_map (fun e => match evAct e with
                     | ActDelete k ns name => [(k, ns, name)]
                     | _ => []
                     end) l.

(** ** The steady state *)

(** [cached st key]: the cache holds an object under [key], and the
    lookup reports no error. *)
Definition cached {A : Type} (st : Store A) (key : string) : Prop :=
  exists o, GetByKey st key = (o, true, None).

(** [readOnly e]: the event is the entry of a function or a read of a
    cache. *)
Definition readOnly (e : Event) : Prop :=
  match evAct e with
  | ActEnter | ActGetByKey _ _ | ActByIndex _ _ _ => True
  | ActCreate _ _ _ | ActCreateAddon _ _ | ActDelete _ _ _
  | ActInitCA _ | ActRecordEvent _ _ _ => False
  end.

(** [materialised w cc c]: the record holds the root CA key and the SSH
    key, and the caches hold, under the keys the steps probe, everything the
    pipeline makes for [c]. *)
Definition materialised (w : World) (cc : clusterController) (c : Cluster) : Prop :=
  let ns := NamespaceName w (Name (Metadata c)) in
  let binding :=
    LoadClusterRoleBindingFile w ns "etcd-operator" (masterResourcesPath cc) in
  Key (RootCA (Status c)) <> None /\
  cached (secretStore cc) (ns +:+ "/token-users") /\
  cached (serviceStore cc) (ns +:+ "/" +:+ "apiserver") /\
  cached (saStore cc) (ns +:+ "/" +:+ "etcd-operator") /\
  snd binding = None /\
  cached (clusterRoleBindingStore cc) (ObjName (fst binding)) /\
  cached (serviceStore cc) (ns +:+ "/" +:+ "apiserver-insecure") /\
  ApiserverSSH (Status c) <> "" /\
  cached (secretStore cc) (ns +:+ "/" +:+ "apiserver-auth") /\
  cached (secretStore cc) (ns +:+ "/" +:+ "apiserver-ssh") /\
  (hasAWS c = true -> cached (cmStore cc) (ns +:+ "/" +:+ "aws-cloud-config")) /\
  (exists masterVersion,
      let etcd :=
        LoadEtcdClusterFile w masterVersion (masterResourcesPath cc)
                            (EtcdClusterYaml masterVersion) in
      versions cc !! resolvedVersion cc c = Some masterVersion /\
      snd (depsByNamespace cc ns) = None /\
      (forall e, In e (deploymentFiles masterVersion) ->
                 hasRole (fst (depsByNamespace cc ns)) (fst e) = true) /\
      snd etcd = None /\
      cached (etcdClusterStore cc) (ns +:+ "/" +:+ ObjName (fst etcd))) /\
  (forall e, In e defaultPlugins ->
             cached (addonStore cc) (addonProbeKey w c (fst e))).

Module Steady.

(** The caches once everything of the cluster [c1] is there. *)
Definition controller : clusterController :=
  {| dc := "fra1";
     externalURL := "example.com";
     masterResourcesPath := "/opt/master";
     minAPIServerPort := 30000;
     maxAPIServerPort := 30002;
     defaultMasterVersion := {| ID := "v1" |};
     versions := {[ "v1" := Sample.v1 ]};
     secretStore :=
       Sample.storeOf [("cluster-c1/token-users", Sample.obj "token-users");
                       ("cluster-c1/apiserver-auth", Sample.obj "apiserver-auth");
                       ("cluster-c1/apiserver-ssh", Sample.obj "apiserver-ssh")];
     serviceStore :=
       Sample.storeOf [("cluster-c1/apiserver", Sample.svc [30001]);
                       ("cluster-c1/apiserver-insecure", Sample.svc [0])];
     saStore := Sample.storeOf [("cluster-c1/etcd-operator", Sample.obj "etcd-operator")];
     clusterRoleBindingStore :=
       Sample.storeOf [("etcd-operator", Sample.obj "etcd-operator")];
     cmStore :=
       Sample.storeOf [("cluster-c1/aws-cloud-config", Sample.obj "aws-cloud-config")];
     pvcStore := Sample.emptyStore;
     depStore :=
       Sample.storeOf
         [("cluster-c1/etcd-operator", Fixture.dep "cluster-c1" "etcd-operator");
          ("cluster-c1/apiserver", Fixture.dep "cluster-c1" "apiserver");
          ("cluster-c1/controller-manager",
           Fixture.dep "cluster-c1" "controller-manager");
          ("cluster-c1/scheduler", Fixture.dep "cluster-c1" "scheduler")];
     depIndexErr := fun _ => None;
     addonStore := Sample.storeOf (createdAddons (Sample.cluster "c1" None));
     etcdClusterStore :=
       Sample.storeOf [("cluster-c1/etcd-cluster.yaml", Sample.obj "etcd-cluster.yaml")] |}.

(** The record of [c1] with its root CA, its port and its SSH key, on
    AWS. *)
Definition cluster : Cluster :=
  {| Metadata := {| Name := "c1" |};
     Spec := {| MasterVersion := ""; Cloud := Sample.aws |};
     Address := {| URL := "https://c1.fra1.example.com:30001";
                   ApiserverExternalPort := 30001 |};
     Status := {| Phase := PendingClusterStatusPhase;
                  LastTransitionTime := 0;
                  RootCA := {| Key := Some [Byte.x02]; Cert := Some [Byte.x01] |};
                  ApiserverSSH := "ssh-rsa AAAA" |};
     Untracked := "tokens" |}.

End Steady.

(** ** Add-ons *)

(** The add-on [launchingCheckDefaultPlugins] builds for an entry of
    [defaultPlugins]. *)
Definition addonOf (e : string * string) : ClusterAddon :=
  {| AddonMetaName := "addon-default-" +:+ fst e;
     AddonName := snd e;
     AddonPhase := PendingAddonStatusPhase |}.

(** [absent st key]: the lookup of [key] reports no error and finds
    nothing. *)
Definition absent {A : Type} (st : Store A) (key : string) : bool :=
  match GetByKey st key with
  | (_, false, None) => true
  | _ => false
  end.

(** * Hetzner server sizes

    A shallow embedding of [HetznerSize] of
    [pkg/handler/common/provider/hetzner.go]. *)

Module Hetzner.

(** The two patterns are a literal anchored at the start of the text
    ([(^cx)], [(^ccx)]). *)
Inductive Regexp : Type :=
| StartsWith (literal : string).

Definition MatchString (re : Regexp) (s : string) : bool :=
  match re with
  | StartsWith literal => String.prefix literal s
  end.

Definition reStandardSize : Regexp := StartsWith "cx".

Definition reDedicatedSize : Regexp := StartsWith "ccx".

Section Sizes.

(** Go's [float32], of which [HetznerSize] only copies values. *)
Variable float32 : Type.

(** [hcloud.ServerType], by the fields [HetznerSize] reads. *)
Record ServerType := {
  ID : Z;
  Name : string;
  Description : string;
  Cores : Z;
  Memory : float32;
  Disk : Z
}.

(** [apiv1.HetznerSize] *)
Record HetznerSizeT := {
  SizeID : Z;
  SizeName : string;
  SizeDescription : string;
  SizeCores : Z;
  SizeMemory : float32;
  SizeDisk : Z
}.

(** [apiv1.HetznerSizeList] *)
Record HetznerSizeList := {
  Standard : list HetznerSizeT;
  Dedicated : list HetznerSizeT
}.

Record ListOpts := { Page : Z; PerPage : Z }.

(** [client.ServerType.List] of the client made for a token: the sizes
    and the error. *)
Definition ServerTypeClient : Type :=
  string -> ListOpts -> list ServerType * option error.

(** The [HetznerSize] built in the loop. *)
Definition sizeOf (size : ServerType) : HetznerSizeT :=
  {| SizeID := ID size;
     SizeName := Name size;
     SizeDescription := Description size;
     SizeCores := Cores size;
     SizeMemory := Memory size;
     SizeDisk := Disk size |}.

(** One iteration of the loop over the sizes. *)
Definition addSize (sizeList : HetznerSizeList) (size : ServerType) : HetznerSizeList :=
  let s := sizeOf size in
  if MatchString reStandardSize (Name size)
  then {| Standard := Standard sizeList ++ [s]; Dedicated := Dedicated sizeList |}
  else if MatchString reDedicatedSize (Name size)
  then {| Standard := Standard sizeList; Dedicated := Dedicated sizeList ++ [s] |}
  else sizeList.

Definition HetznerSize (client : ServerTypeClient) (token : string)
  : HetznerSizeList * option error :=
  let listOptions := {| Page := 1; PerPage := 1000 |} in
  let '(sizes, err) := client token listOptions in
  match err with
  | Some e =>
      ({| Standard := []; Dedicated := [] |},
       Some (Errorf "failed to list sizes: %v" [ArgError e]))
  | None =>
      (fold_left addSize sizes {| Standard := []; Dedicated := [] |}, None)
  end.

End Sizes.

Arguments ID {float32} _.
Arguments Name {float32} _.
Arguments Description {float32} _.
Arguments Cores {float32} _.
Arguments Memory {float32} _.
Arguments Disk {float32} _.
Arguments SizeName {float32} _.
Arguments Standard {float32} _.
Arguments Dedicated {float32} _.
Arguments sizeOf {float32} _.
Arguments addSize {float32} _ _.
Arguments HetznerSize {float32} _ _.

End Hetzner.

(** * The reader of the list-datacenters response

    A shallow embedding of [ListDatacentersReader.ReadResponse] of the
    generated API client. *)

Module Datacenters.

(** What [consumer.Consume] reports: [io.EOF] or another error. *)
Inductive ConsumeError : Type :=
| io_EOF
| OtherError (e : error).

Section Reader.

(** [models.DatacenterList] and [models.ErrorResponse], after the
    consumer has filled them in. *)
Variable DatacenterList : Type.
Variable ErrorResponse : Type.

(** [runtime.ClientResponse], by [Code()] and [Body()]. *)
Record ClientResponse := { Code : Z; Body : Bytes }.

(** [runtime.Consumer]: the payload as it is after [Consume], and the
    error, for either target. *)
Record Consumer := {
  ConsumeList : Bytes -> DatacenterList * option ConsumeError;
  ConsumeErrorResponse : Bytes -> ErrorResponse * option ConsumeError
}.

Record ListDatacentersOK := { Payload : DatacenterList }.

Record ListDatacentersDefault := {
  _statusCode : Z;
  DefaultPayload : ErrorResponse
}.

Inductive Response : Type :=
| IsOK (o : ListDatacentersOK)
| IsDefault (o : ListDatacentersDefault).

(** The [error] results of [ReadResponse]: the consumer's, or the default
    response itself. *)
Inductive ReadError : Type :=
| Consumed (e : error)
| Unexpected (o : ListDatacentersDefault).

(** [err != nil && err != io.EOF] *)
Definition failure (err : option ConsumeError) : option error :=
  match err with
  | Some (OtherError e) => Some e
  | Some io_EOF | None => None
  end.

(** [readResponse] of [ListDatacentersOK] *)
Definition readResponseOK (response : ClientResponse) (consumer : Consumer)
  : ListDatacentersOK * option error :=
  let '(payload, err) := ConsumeList consumer (Body response) in
  ({| Payload := payload |}, failure err).

(** [readResponse] of [ListDatacentersDefault], on the response made by
    [NewListDatacentersDefault code]. *)
Definition readResponseDefault (code : Z) (response : ClientResponse)
           (consumer : Consumer) : ListDatacentersDefault * option error :=
  let '(payload, err) := ConsumeErrorResponse consumer (Body response) in
  ({| _statusCode := code; DefaultPayload := payload |}, failure err).

Definition ReadResponse (response : ClientResponse) (consumer : Consumer)
  : option Response * option ReadError :=
  if Code response =? 200 then
    let '(result, err) := readResponseOK response consumer in
    match err with
    | Some e => (None, Some (Consumed e))
    | None => (Some (IsOK result), None)
    end
  else
    let '(result, err) := readResponseDefault (Code response) response consumer in
    match err with
    | Some e => (None, Some (Consumed e))
    | None =>
        if Z.quot (Code response) 100 =? 2
        then (Some (IsDefault result), None)
        else (None, Some (Unexpected result))
    end.

End Reader.

Arguments ConsumeList {DatacenterList ErrorResponse} _ _.
Arguments ConsumeErrorResponse {DatacenterList ErrorResponse} _ _.
Arguments Payload {DatacenterList} _.
Arguments _statusCode {ErrorResponse} _.
Arguments DefaultPayload {ErrorResponse} _.
Arguments IsOK {DatacenterList ErrorResponse} _.
Arguments IsDefault {DatacenterList ErrorResponse} _.
Arguments Consumed {ErrorResponse} _.
Arguments Unexpected {ErrorResponse} _.
Arguments ReadResponse {DatacenterList ErrorResponse} _ _.

End Datacenters.

(** ** Secrets *)

(** The [exists] answer of [GetByKey]. *)
Definition existsIn {A : Type} (st : Store A) (key : string) : bool :=
  snd (fst (GetByKey st key)).

(** The keys of the secrets a trace records as created
    ([recordClusterEvent(c, _, "Created secret %q", key)]). *)
Definition createdSecrets (l : list Event) : list string :=
  flat_map (fun e => match evAct e with
                     | ActRecordEvent _ format [ArgString key] =>
                         if String.eqb format "Created secret %q" then [key] else []
                     | _ => []
                     end) l.


(** * Properties *)

(** ** The port allocator *)

Section PortAllocator.

Variable cc : clusterController.

Lemma isIn_In (p : Z) (l : list Z) : isIn p l = true <-> In p l.
Proof.
  induction l as [|x l IH]; simpl.
  - split; [discriminate | tauto].
  - destruct (Z.eqb_spec p x) as [->|Hne].
    + split; auto.
    + rewrite IH. split; [auto | intros [H|H]; [congruence | exact H]].
Qed.

Lemma usedPortsOf_In (s : Service) (q : Z) :
  In q (usedPortsOf s) <-> exists p, In p (Ports s) /\ NodePort p <> 0 /\ NodePort p = q.
Proof.
  unfold usedPortsOf. rewrite in_flat_map. split.
  - intros (p & Hp & Hq). exists p. split; [exact Hp|].
    destruct (Z.eqb_spec (NodePort p) 0) as [E|E]; simpl in Hq.
    + tauto.
    + destruct Hq as [Hq|[]]. auto.
  - intros (p & Hp & Hnz & Hq). exists p. split; [exact Hp|].
    destruct (Z.eqb_spec (NodePort p) 0) as [E|E]; [contradiction|].
    simpl. auto.
Qed.

Lemma usedPorts_taken (q : Z) :
  In q (usedPorts (StoreList (serviceStore cc))) <-> taken cc q.
Proof.
  unfold usedPorts, taken. rewrite in_flat_map. split.
  - intros (s & Hs & Hq). apply usedPortsOf_In in Hq as (p & Hp & Hnz & Hq).
    exists s, p. auto.
  - intros (s & p & Hs & Hp & Hnz & Hq). exists s. split; [exact Hs|].
    apply usedPortsOf_In. exists p. auto.
Qed.

Lemma taken_int32 (q : Z) :
  int32_services cc = true -> taken cc q -> is_int32 q = true.
Proof.
  unfold int32_services. intros Hwf (s & p & Hs & Hp & _ & <-).
  rewrite forallb_forall in Hwf. specialize (Hwf s Hs).
  rewrite forallb_forall in Hwf. exact (Hwf p Hp).
Qed.

Lemma wrap64_id (z : Z) : - 2 ^ 63 <= z < 2 ^ 63 -> wrap64 z = z.
Proof.
  intros H. unfold wrap64. rewrite Z.mod_small; lia.
Qed.

Lemma succ_int32_no_wrap (z : Z) : is_int32 z = true -> wrap64 (z + 1) = z + 1.
Proof.
  unfold is_int32. intros H. apply andb_prop in H as [H1 H2].
  apply Z.leb_le in H1. apply Z.ltb_lt in H2.
  apply wrap64_id. lia.
Qed.

(** The loop, started at [port] with enough fuel to reach the end of the
    range, answers with the first free port from [port] on, or with the
    error when there is none. *)
Lemma freePortLoop_spec (used : list Z) :
  (forall q, In q used -> is_int32 q = true) ->
  forall (fuel : nat) (port : Z),
    (Z.to_nat (maxAPIServerPort cc - port + 1) < fuel)%nat ->
    (exists p, freePortLoop cc used fuel port = Some (p, None) /\
               port <= p <= maxAPIServerPort cc /\ ~ In p used /\
               forall q, port <= q < p -> In q used)
    \/ (freePortLoop cc used fuel port = Some (0, Some (noFreeNodePort cc)) /\
        forall q, port <= q <= maxAPIServerPort cc -> In q used).
Proof.
  intros Hused. induction fuel as [|fuel IH]; intros port Hfuel; [lia|].
  simpl. destruct (Z.leb_spec port (maxAPIServerPort cc)) as [Hle|Hgt].
  - destruct (isIn port used) eqn:Hin.
    + apply isIn_In in Hin.
      rewrite (succ_int32_no_wrap port (Hused port Hin)).
      assert (Hfuel' : (Z.to_nat (maxAPIServerPort cc - (port + 1) + 1) < fuel)%nat)
        by lia.
      destruct (IH (port + 1) Hfuel') as [(p & Hp & Hrange & Hfree & Hmin)|[Hp Hall]];
        [left | right].
      * exists p. repeat split; try lia; try assumption.
        intros q Hq. destruct (Z.eq_dec q port) as [->|Hne]; [exact Hin|].
        apply Hmin. lia.
      * split; [exact Hp|]. intros q Hq.
        destruct (Z.eq_dec q port) as [->|Hne]; [exact Hin|]. apply Hall. lia.
    + left. exists port. repeat split; try lia.
      intros Hc. apply isIn_In in Hc. congruence.
  - right. split; [reflexivity|]. intros q Hq. lia.
Qed.

(** More fuel than the loop needs changes nothing. *)
Lemma freePortLoop_more_fuel (used : list Z) (fuel : nat) (port : Z) res :
  freePortLoop cc used fuel port = Some res ->
  freePortLoop cc used (S fuel) port = Some res.
Proof.
  revert port. induction fuel as [|fuel IH]; intros port H; [discriminate|].
  simpl in H. change (freePortLoop cc used (S (S fuel)) port)
    with (if port <=? maxAPIServerPort cc
          then if isIn port used
               then freePortLoop cc used (S fuel) (wrap64 (port + 1))
               else Some (port, None)
          else Some (0, Some (noFreeNodePort cc))).
  destruct (port <=? maxAPIServerPort cc); [|exact H].
  destruct (isIn port used); [|exact H]. apply IH. exact H.
Qed.

(** Over [int32] node ports the allocator returns. *)
Lemma GetFreeNodePort_returns :
  int32_services cc = true -> exists res, GetFreeNodePort cc = Some res.
Proof.
  intros Hwf. unfold GetFreeNodePort.
  destruct (freePortLoop_spec (usedPorts (StoreList (serviceStore cc))))
    with (fuel := freePortFuel cc) (port := minAPIServerPort cc)
    as [(p & Hp & _)|[Hp _]].
  - intros q Hq. apply taken_int32; [exact Hwf|]. apply usedPorts_taken. exact Hq.
  - unfold freePortFuel. lia.
  - eexists. exact Hp.
  - eexists. exact Hp.
Qed.

(** C2: for every cache state whose node ports are [int32] values,
    [GetFreeNodePort] returns the smallest port of the inclusive range
    [minAPIServerPort .. maxAPIServerPort] that no port entry of a cached
    service holds as a non-zero [NodePort]; when every port of the range is
    taken it returns port 0 with the [no free NodePort] error. *)
Theorem GetFreeNodePort_smallest_free :
  int32_services cc = true ->
  (exists p, GetFreeNodePort cc = Some (p, None) /\
             minAPIServerPort cc <= p <= maxAPIServerPort cc /\
             ~ taken cc p /\
             forall q, minAPIServerPort cc <= q < p -> taken cc q)
  \/ (GetFreeNodePort cc
      = Some (0, Some (Errorf "no free NodePort available within the given range %d-%d"
                              [ArgInt (minAPIServerPort cc);
                               ArgInt (maxAPIServerPort cc)])) /\
      forall q, minAPIServerPort cc <= q <= maxAPIServerPort cc -> taken cc q).
Proof.
  intros Hwf. unfold GetFreeNodePort.
  destruct (freePortLoop_spec (usedPorts (StoreList (serviceStore cc))))
    with (fuel := freePortFuel cc) (port := minAPIServerPort cc)
    as [(p & Hp & Hrange & Hfree & Hmin)|[Hp Hall]].
  - intros q Hq. apply taken_int32; [exact Hwf|]. apply usedPorts_taken. exact Hq.
  - unfold freePortFuel. lia.
  - left. exists p. repeat split; try lia; try assumption.
    + intros Ht. apply Hfree. apply usedPorts_taken. exact Ht.
    + intros q Hq. apply usedPorts_taken. apply Hmin. lia.
  - right. split; [exact Hp|]. intros q Hq. apply usedPorts_taken. apply Hall. lia.
Qed.

End PortAllocator.

Lemma GetFreeNodePort_smallest_free_witness :
  let cc := Sample.controller []
              [("cluster-a/apiserver", Sample.svc [30000; 0]);
               ("cluster-b/apiserver", Sample.svc [30001; 31000])] in
  int32_services cc = true /\
  GetFreeNodePort cc = Some (30002, None) /\ ~ taken cc 30002 /\ taken cc 30001.
Proof.
  intros cc.
  assert (Hwf : int32_services cc = true) by reflexivity.
  split; [exact Hwf|].
  destruct (GetFreeNodePort_smallest_free cc Hwf)
    as [(p & Hp & Hrange & Hfree & Hmin)|[Hp _]].
  - assert (Hres : GetFreeNodePort cc = Some (30002, None)) by reflexivity.
    assert (p = 30002) by congruence. subst p.
    split; [exact Hres|]. split; [exact Hfree|]. apply Hmin. simpl. lia.
  - assert (Hres : GetFreeNodePort cc = Some (30002, None)) by reflexivity.
    congruence.
Defined.

(** ** Running the monad *)

Ltac unfold_m :=
  unfold recordClusterEvent, apiCreate, apiDelete, probe, rangeMap,
    liftOption, mbind, mret, emit, getC, putC, history in *.

(** Unfolds the monad and computes, until nothing moves. *)
Ltac msimpl := repeat (progress (unfold_m; simpl)).

Ltac break_goal :=
  match goal with
  | |- context [match ?x with _ => _ end] =>
      lazymatch x with
      | context [match _ with _ => _ end] => fail
      | _ => destruct x eqn:?
      end
  end.

Ltac break_in H :=
  match type of H with
  | context [match ?x with _ => _ end] =>
      lazymatch x with
      | context [match _ with _ => _ end] => fail
      | _ => destruct x eqn:?
      end
  end.

(** ** The CA minter *)

(** C4: [pendingCreateRootCA] returns [(nil, nil)] and leaves the record as
    it is when [Status.RootCA.Key] is present; otherwise it asks the CA
    library for an RSA key of 2048 bits under the Common Name
    [root-ca.<name>.<dc>.<external-url>] with an expiry of [87600h]
    (24*365*10 hours), stores the certificate and the key it gets in
    [Status.RootCA], and returns the record [c] when the library reports no
    error (and [nil] with the wrapped error when it does). *)
Theorem pendingCreateRootCA_spec (w : World) (cc : clusterController) (s : State) :
  (Key (RootCA (Status (cur s))) <> None ->
   pendingCreateRootCA w cc s
   = Some ((None, None),
           {| cur := cur s;
              log := log s ++ [{| evFn := FnPendingCreateRootCA; evAct := ActEnter |}] |}))
  /\
  (Key (RootCA (Status (cur s))) = None ->
   let req := {| CN := "root-ca." +:+ Name (Metadata (cur s)) +:+ "." +:+ dc cc
                       +:+ "." +:+ externalURL cc;
                 KeyRequestA := "rsa";
                 KeyRequestS := 2048;
                 CAExpiry := "87600h" |} in
   exists r,
     pendingCreateRootCA w cc s
     = Some (r,
             {| cur := set_RootCA {| Key := snd (fst (initca_New w req));
                                     Cert := fst (fst (initca_New w req)) |} (cur s);
                log := log s ++ [{| evFn := FnPendingCreateRootCA; evAct := ActEnter |};
                                 {| evFn := FnPendingCreateRootCA;
                                    evAct := ActInitCA req |}] |}) /\
     match snd (initca_New w req) with
     | None => r = (Some RefC, None)
     | Some e => r = (None, Some (Errorf "failed to create root-ca: %v" [ArgError e]))
     end).
Proof.
  split.
  - intros Hkey. unfold pendingCreateRootCA. unfold_m. simpl.
    destruct (Key (RootCA (Status (cur s)))); [reflexivity | congruence].
  - intros Hkey req. unfold pendingCreateRootCA. unfold_m. simpl.
    rewrite Hkey. simpl.
    change (itoa (24 * 365 * 10) +:+ "h") with "87600h". fold req.
    destruct (initca_New w req) as [[cert key] [e|]]; simpl;
      eexists; (split; [rewrite <- app_assoc; reflexivity | reflexivity]).
Qed.

Lemma pendingCreateRootCA_spec_witness :
  let s0 := Sample.start (Sample.cluster "c1" None) in
  let s1 := Sample.start
              (set_RootCA {| Key := Some [Byte.x02]; Cert := Some [Byte.x01] |}
                          (Sample.cluster "c1" None)) in
  Key (RootCA (Status (cur s0))) = None /\
  Key (RootCA (Status (cur s1))) <> None /\
  fst <$> pendingCreateRootCA Sample.world (Sample.controller [] []) s0
    = Some (Some RefC, None) /\
  pendingCreateRootCA Sample.world (Sample.controller [] []) s1
    = Some ((None, None),
            {| cur := cur s1;
               log := [{| evFn := FnPendingCreateRootCA; evAct := ActEnter |}] |}).
Proof.
  intros s0 s1.
  assert (H0 : Key (RootCA (Status (cur s0))) = None) by reflexivity.
  assert (H1 : Key (RootCA (Status (cur s1))) <> None) by discriminate.
  split; [exact H0|]. split; [exact H1|]. split.
  - destruct (pendingCreateRootCA_spec Sample.world (Sample.controller [] []) s0)
      as [_ Hmint].
    destruct (Hmint H0) as (r & Hrun & Hr). rewrite Hrun. simpl in *.
    rewrite Hr. reflexivity.
  - destruct (pendingCreateRootCA_spec Sample.world (Sample.controller [] []) s1)
      as [Hskip _].
    exact (Hskip H1).
Defined.

(** ** Loops *)

Lemma insertBy_In {A : Type} (rank : string -> nat) (e x : string * A) l :
  In x (insertBy rank e l) <-> x = e \/ In x l.
Proof.
  induction l as [|y l IH]; simpl.
  - intuition congruence.
  - destruct (_ <=? _)%nat; simpl; [intuition congruence|].
    rewrite IH. intuition congruence.
Qed.

Lemma rangeOrder_In {A : Type} (rank : string -> nat) (l : list (string * A)) x :
  In x (rangeOrder rank l) <-> In x l.
Proof.
  unfold rangeOrder. induction l as [|y l IH]; simpl; [tauto|].
  rewrite insertBy_In, IH. intuition congruence.
Qed.

Lemma insertBy_Permutation {A : Type} (rank : string -> nat) (e : string * A) l :
  Permutation (insertBy rank e l) (e :: l).
Proof.
  induction l as [|y l IH]; simpl; [reflexivity|].
  destruct (_ <=? _)%nat; [reflexivity|].
  rewrite IH. apply perm_swap.
Qed.

Lemma rangeOrder_Permutation {A : Type} (rank : string -> nat)
      (l : list (string * A)) :
  Permutation (rangeOrder rank l) l.
Proof.
  unfold rangeOrder. induction l as [|y l IH]; simpl; [reflexivity|].
  rewrite insertBy_Permutation. constructor. exact IH.
Qed.

Section AnyOrder.

Context {A : Type}.
Variable rank : string -> nat.

Let le_rank (a b : string * A) : Prop := (rank (fst a) <= rank (fst b))%nat.
Let lt_rank (a b : string * A) : Prop := (rank (fst a) < rank (fst b))%nat.

Lemma insertBy_sorted (e : string * A) (l : list (string * A)) :
  StronglySorted le_rank l -> StronglySorted le_rank (insertBy rank e l).
Proof.
  induction 1 as [|y l Hs IH Hall]; simpl.
  - repeat constructor.
  - destruct (Nat.leb_spec (rank (fst e)) (rank (fst y))) as [Hle|Hgt].
    + constructor; [constructor; assumption|]. constructor; [exact Hle|].
      rewrite List.Forall_forall in *. intros z Hz.
      specialize (Hall z Hz). unfold le_rank in *. lia.
    + constructor; [exact IH|].
      rewrite List.Forall_forall in *. intros z Hz.
      apply insertBy_In in Hz as [->|Hz]; [unfold le_rank; lia | apply Hall; exact Hz].
Qed.

Lemma rangeOrder_sorted (l : list (string * A)) :
  StronglySorted le_rank (rangeOrder rank l).
Proof.
  unfold rangeOrder. induction l as [|y l IH]; simpl; [constructor|].
  apply insertBy_sorted. exact IH.
Qed.

Lemma sorted_unique (l1 l2 : list (string * A)) :
  StronglySorted le_rank l1 -> StronglySorted lt_rank l2 ->
  Permutation l1 l2 -> l1 = l2.
Proof.
  intros H1 H2. revert l1 H1.
  induction H2 as [|x l2 Hs IH Hall]; intros l1 H1 Hperm.
  - apply Permutation_sym, Permutation_nil in Hperm. exact Hperm.
  - destruct l1 as [|y l1].
    { apply Permutation_nil in Hperm. discriminate. }
    inversion H1 as [|y' l1' Hs1 Hall1]; subst.
    assert (Hy : In y (x :: l2))
      by (eapply Permutation_in; [exact Hperm | left; reflexivity]).
    assert (Hx : In x (y :: l1))
      by (eapply Permutation_in; [symmetry; exact Hperm | left; reflexivity]).
    rewrite List.Forall_forall in Hall, Hall1.
    assert (y = x).
    { destruct Hy as [Hy|Hy]; [congruence|].
      destruct Hx as [Hx|Hx]; [congruence|].
      specialize (Hall y Hy). specialize (Hall1 x Hx).
      unfold le_rank, lt_rank in *. lia. }
    subst y. f_equal. apply IH; [exact Hs1|].
    eapply Permutation_cons_inv. exact Hperm.
Qed.

End AnyOrder.

Lemma StronglySorted_impl_In {B : Type} (R1 R2 : B -> B -> Prop) (l : list B) :
  (forall a b, In a l -> In b l -> R1 a b -> R2 a b) ->
  StronglySorted R1 l -> StronglySorted R2 l.
Proof.
  intros Himp Hs. induction Hs as [|y q Hs IH Hall]; [constructor|].
  constructor.
  - apply IH. intros a b Ha Hb. apply Himp; right; assumption.
  - rewrite List.Forall_forall in *. intros z Hz.
    apply Himp; [left; reflexivity | right; exact Hz | apply Hall; exact Hz].
Qed.

Lemma indexOf_sorted {A : Type} (p : list (string * A)) :
  List.NoDup (map fst p) ->
  StronglySorted
    (fun a b => (indexOf (fst a) (map fst p) < indexOf (fst b) (map fst p))%nat) p.
Proof.
  induction p as [|x p IH]; intros Hnd; [constructor|].
  simpl in Hnd. inversion Hnd as [|k ks Hnotin Hnd']; subst.
  assert (Htail : forall y, In y p -> String.eqb (fst x) (fst y) = false).
  { intros y Hy. apply String.eqb_neq. intros Heq. apply Hnotin.
    rewrite Heq. apply in_map. exact Hy. }
  constructor.
  - eapply StronglySorted_impl_In; [|exact (IH Hnd')].
    intros a b Ha Hb Hlt. simpl in *.
    rewrite (Htail a Ha), (Htail b Hb). lia.
  - rewrite List.Forall_forall. intros y Hy. simpl.
    rewrite String.eqb_refl, (Htail y Hy). lia.
Qed.

(** Every order of the entries of a map with distinct keys is the order of
    some ranking: the model of [range] leaves no iteration order out. *)
Lemma rangeOrder_any_order {A : Type} (l p : list (string * A)) :
  List.NoDup (map fst p) -> Permutation l p ->
  rangeOrder (fun k => indexOf k (map fst p)) l = p.
Proof.
  intros Hnd Hperm.
  apply (sorted_unique (fun k => indexOf k (map fst p))).
  - apply (rangeOrder_sorted (fun k => indexOf k (map fst p))).
  - apply (indexOf_sorted p Hnd).
  - rewrite rangeOrder_Permutation. exact Hperm.
Qed.

Lemma forEach_inv {A R : Type} (P : State -> State -> Prop) :
  (forall s, P s s) ->
  (forall s1 s2 s3, P s1 s2 -> P s2 s3 -> P s1 s3) ->
  forall (body : A -> M (LoopCtl R)) (entries : list A),
    (forall e s ctl s', In e entries -> body e s = Some (ctl, s') -> P s s') ->
    forall s r s', forEach entries body s = Some (r, s') -> P s s'.
Proof.
  intros Hrefl Htrans body entries.
  induction entries as [|e rest IH]; intros Hbody s r s' Hrun; simpl in Hrun.
  - unfold mret in Hrun. injection Hrun as _ <-. apply Hrefl.
  - unfold mbind in Hrun. destruct (body e s) as [[ctl s1]|] eqn:Hb; [|discriminate].
    assert (P s s1) by (eapply Hbody; [left; reflexivity | exact Hb]).
    destruct ctl.
    + eapply Htrans; [eassumption|]. eapply IH; [|exact Hrun].
      intros e' s2 ctl' s2' Hin. apply Hbody. right. exact Hin.
    + unfold mret in Hrun. injection Hrun as _ <-. assumption.
Qed.

Lemma forEach_ret {A R : Type} (Q : R -> Prop)
      (body : A -> M (LoopCtl R)) (entries : list A) :
  (forall e s r s', In e entries -> body e s = Some (Return r, s') -> Q r) ->
  forall s r s', forEach entries body s = Some (Some r, s') -> Q r.
Proof.
  induction entries as [|e rest IH]; intros Hbody s r s' Hrun; simpl in Hrun.
  - discriminate.
  - unfold mbind in Hrun. destruct (body e s) as [[ctl s1]|] eqn:Hb; [|discriminate].
    destruct ctl as [|r0].
    + eapply IH; [|exact Hrun]. intros e' s2 r' s2' Hin. apply Hbody. right. exact Hin.
    + unfold mret in Hrun. injection Hrun as <- _.
      eapply Hbody; [left; reflexivity | exact Hb].
Qed.

Lemma forEach_total {A R : Type} (body : A -> M (LoopCtl R)) (entries : list A) :
  (forall e s, In e entries -> exists res, body e s = Some res) ->
  forall s, exists res, forEach entries body s = Some res.
Proof.
  induction entries as [|e rest IH]; intros Hbody s; simpl.
  - eexists. reflexivity.
  - unfold mbind. destruct (Hbody e s) as [[ctl s1] Hb]; [left; reflexivity|].
    rewrite Hb. destruct ctl; [|eexists; reflexivity].
    apply IH. intros e' s2 Hin. apply Hbody. right. exact Hin.
Qed.

Lemma traced_refl (f : Fn) (s : State) : traced f s s.
Proof.
  exists []. rewrite app_nil_r. split; [reflexivity|constructor].
Qed.

Lemma traced_trans (f : Fn) (s1 s2 s3 : State) :
  traced f s1 s2 -> traced f s2 s3 -> traced f s1 s3.
Proof.
  intros (e1 & Hl1 & Hf1) (e2 & Hl2 & Hf2).
  exists (e1 ++ e2). split.
  - rewrite Hl2, Hl1, app_assoc. reflexivity.
  - apply Forall_app. split; assumption.
Qed.

Lemma quiet_refl (f : Fn) (s : State) : quiet f s s.
Proof. split; [reflexivity | apply traced_refl]. Qed.

Lemma quiet_trans (f : Fn) (s1 s2 s3 : State) :
  quiet f s1 s2 -> quiet f s2 s3 -> quiet f s1 s3.
Proof.
  intros [Hc1 Ht1] [Hc2 Ht2]. split; [congruence|]. eapply traced_trans; eassumption.
Qed.

Lemma enter_then_traced (f : Fn) (s s' : State) :
  traced f {| cur := cur s; log := log s ++ [enter f] |} s' -> ran f s s'.
Proof.
  intros (evs & Hl & Hf). exists evs. split; [|exact Hf].
  rewrite Hl. simpl. rewrite <- app_assoc. reflexivity.
Qed.

(** Closes [traced], [quiet] and [ran] goals between two explicit states. *)
Ltac solve_traced :=
  lazymatch goal with
  | |- quiet _ _ _ =>
      first [apply quiet_refl | split; [reflexivity | solve_traced]]
  | |- traced _ _ _ =>
      first
        [ apply traced_refl
        | eexists; split;
          [simpl; repeat rewrite <- app_assoc; simpl; reflexivity
          | repeat constructor] ]
  | |- ran _ _ _ =>
      eexists; split;
      [simpl; repeat rewrite <- app_assoc; simpl; reflexivity | repeat constructor]
  end.

(** Splits the run in [H] into its cases and hands each to [tac]. *)
Ltac run_cases H tac :=
  repeat (progress (unfold_m; simpl in H) || break_in H);
  try discriminate;
  injection H as <- <-; tac.

(** Picks the matching case of a three-way step lemma. *)
Ltac pick_case :=
  simpl;
  first [ left; split; reflexivity
        | right; left; split; [reflexivity | repeat eexists; reflexivity]
        | right; right; split; [reflexivity | discriminate] ].

Section Steps.

Variable w : World.
Variable cc : clusterController.

Lemma launchingCheckServiceAccounts_quiet s r s' :
  launchingCheckServiceAccounts w cc s = Some (r, s') ->
  cur s' = cur s /\ ran FnLaunchingCheckServiceAccounts s s'.
Proof.
  intros H. unfold launchingCheckServiceAccounts in H.
  run_cases H ltac:(split; [reflexivity | solve_traced]).
Qed.

Lemma launchingCheckClusterRoleBindings_quiet s r s' :
  launchingCheckClusterRoleBindings w cc s = Some (r, s') ->
  cur s' = cur s /\ ran FnLaunchingCheckClusterRoleBindings s s'.
Proof.
  intros H. unfold launchingCheckClusterRoleBindings in H.
  run_cases H ltac:(split; [reflexivity | solve_traced]).
Qed.

Lemma launchingCheckServices_quiet s r s' :
  launchingCheckServices w cc s = Some (r, s') ->
  cur s' = cur s /\ ran FnLaunchingCheckServices s s' /\ fst r = None.
Proof.
  intros H. unfold launchingCheckServices in H.
  run_cases H ltac:(split; [reflexivity | split; [solve_traced | reflexivity]]).
Qed.

Lemma launchingCheckConfigMaps_quiet s r s' :
  launchingCheckConfigMaps w cc s = Some (r, s') ->
  cur s' = cur s /\ ran FnLaunchingCheckConfigMaps s s'.
Proof.
  intros H. unfold launchingCheckConfigMaps, configMaps in H.
  run_cases H ltac:(split; [reflexivity | solve_traced]).
Qed.

Lemma launchingCheckPvcs_quiet s r s' :
  launchingCheckPvcs w cc s = Some (r, s') ->
  cur s' = cur s /\ ran FnLaunchingCheckPvcs s s'.
Proof.
  intros H. unfold launchingCheckPvcs in H.
  run_cases H ltac:(split; [reflexivity | solve_traced]).
Qed.

Lemma defaultPluginBody_quiet c ns e s ctl s' :
  defaultPluginBody w cc c ns e s = Some (ctl, s') ->
  quiet FnLaunchingCheckDefaultPlugins s s'.
Proof.
  intros H. destruct e as [safeName name]. unfold defaultPluginBody in H.
  run_cases H ltac:(idtac; solve_traced).
Qed.

Lemma launchingCheckDefaultPlugins_quiet s r s' :
  launchingCheckDefaultPlugins w cc s = Some (r, s') ->
  cur s' = cur s /\ ran FnLaunchingCheckDefaultPlugins s s'.
Proof.
  intros H. unfold launchingCheckDefaultPlugins in H. unfold_m. simpl in H.
  destruct (forEach _ _ _) as [[res s1]|] eqn:Hloop; [|discriminate].
  apply (forEach_inv (quiet FnLaunchingCheckDefaultPlugins)) in Hloop;
    [| apply quiet_refl | apply quiet_trans
     | intros e s2 ctl s2' _; apply defaultPluginBody_quiet].
  assert (s' = s1) by (destruct res; congruence). subst s1.
  destruct Hloop as [Hcur Htr]. split; [exact Hcur|].
  apply enter_then_traced. exact Htr.
Qed.

Lemma runCheckTimeout_spec s :
  runCheckTimeout w s
  = Some (snd (checkTimeout w (cur s)),
          {| cur := fst (checkTimeout w (cur s));
             log := log s ++ [enter FnCheckTimeout] |}).
Proof.
  unfold runCheckTimeout. unfold_m. simpl.
  destruct (checkTimeout w (cur s)) as [c' err]. reflexivity.
Qed.

Lemma pendingCreateRootCA_cases s r s' :
  pendingCreateRootCA w cc s = Some (r, s') ->
  ran FnPendingCreateRootCA s s' /\
  ((r = (None, None) /\ cur s' = cur s)
   \/ (r = (Some RefC, None) /\ exists kc, cur s' = set_RootCA kc (cur s))
   \/ (fst r = None /\ snd r <> None)).
Proof.
  intros H. unfold pendingCreateRootCA in H.
  run_cases H ltac:(split; [solve_traced | pick_case]).
Qed.

Lemma launchingCheckTokenUsers_cases s r s' :
  launchingCheckTokenUsers w cc s = Some (r, s') ->
  ran FnLaunchingCheckTokenUsers s s' /\
  ((r = (None, None) /\ cur s' = cur s)
   \/ (r = (Some RefC, None) /\ cur s' = fst (fst (createTokens w (cur s))))
   \/ (fst r = None /\ snd r <> None)).
Proof.
  intros H. unfold launchingCheckTokenUsers in H.
  run_cases H ltac:(split; [solve_traced | pick_case]).
Qed.

Lemma launchingCheckApiserverPublicService_cases s r s' :
  launchingCheckApiserverPublicService w cc s = Some (r, s') ->
  ran FnLaunchingCheckApiserverPublicService s s' /\
  ((r = (None, None) /\ cur s' = cur s)
   \/ (r = (Some RefC, None) /\
       exists p u, cur s' = set_URL u (set_ApiserverExternalPort p (cur s)))
   \/ (fst r = None /\ snd r <> None)).
Proof.
  intros H. unfold launchingCheckApiserverPublicService in H.
  run_cases H ltac:(split; [solve_traced | pick_case]).
Qed.

Lemma resolveMasterVersion_spec f s :
  resolveMasterVersion w cc f s
  = Some
      match versions cc !! resolvedVersion cc (cur s) with
      | Some masterVersion =>
          (inr masterVersion,
           {| cur := withResolvedVersion cc (cur s); log := log s |})
      | None =>
          (inl (Some RefC,
                Some (unknownMasterVersion (Name (Metadata (cur s)))
                                           (resolvedVersion cc (cur s)))),
           {| cur := set_Phase FailedClusterStatusPhase
                       (set_LastTransitionTime (timeNow w (log s))
                          (withResolvedVersion cc (cur s)));
              log := log s ++
                [{| evFn := f;
                    evAct := ActRecordEvent "launching"
                      "Failed to create new cluster %q due to unknown master version %q"
                      [ArgString (Name (Metadata (cur s)));
                       ArgString (resolvedVersion cc (cur s))] |}] |})
      end.
Proof.
  destruct s as [c l].
  unfold resolveMasterVersion, resolvedVersion, withResolvedVersion. unfold_m. simpl.
  destruct (String.eqb (MasterVersion (Spec c)) ""); simpl;
    destruct (versions cc !! _); reflexivity.
Qed.

Lemma withResolvedVersion_MasterVersion c :
  MasterVersion (Spec (withResolvedVersion cc c)) = resolvedVersion cc c.
Proof.
  unfold withResolvedVersion, resolvedVersion.
  destruct (String.eqb (MasterVersion (Spec c)) ""); reflexivity.
Qed.

Lemma deploymentBody_quiet ns mv deps e s ctl s' :
  deploymentBody w cc ns mv deps e s = Some (ctl, s') ->
  quiet FnLaunchingCheckDeployments s s' /\
  match ctl with
  | Continue => True
  | Return r => fst r = None /\ snd r <> None
  end.
Proof.
  intros H. destruct e as [name yamlFile]. unfold deploymentBody in H.
  match type of H with context [existsb ?f ?l] => destruct (existsb f l) end.
  all: run_cases H ltac:(split; [solve_traced|]);
    first [exact I | split; [reflexivity | discriminate]].
Qed.

Lemma launchingCheckDeployments_cases s r s' :
  launchingCheckDeployments w cc s = Some (r, s') ->
  ran FnLaunchingCheckDeployments s s' /\
  ((versions cc !! resolvedVersion cc (cur s) <> None /\
    fst r = None /\ cur s' = withResolvedVersion cc (cur s))
   \/ (versions cc !! resolvedVersion cc (cur s) = None /\
       r = (Some RefC,
            Some (unknownMasterVersion (Name (Metadata (cur s)))
                                       (resolvedVersion cc (cur s)))) /\
       cur s' = set_Phase FailedClusterStatusPhase
                  (set_LastTransitionTime
                     (timeNow w (log s ++ [enter FnLaunchingCheckDeployments]))
                     (withResolvedVersion cc (cur s))))).
Proof.
  intros H. unfold launchingCheckDeployments in H. unfold_m. simpl in H.
  rewrite resolveMasterVersion_spec in H. simpl in H.
  destruct (versions cc !! resolvedVersion cc (cur s)) as [mv|] eqn:Hv.
  - destruct (depsByNamespace cc _) as [existingDeps [e|]].
    + injection H as <- <-. split; [solve_traced|]. left.
      split; [discriminate|]. split; reflexivity.
    + destruct (forEach _ _ _) as [[res s1]|] eqn:Hloop; [|discriminate].
      assert (Hq : quiet FnLaunchingCheckDeployments
                     {| cur := withResolvedVersion cc (cur s);
                        log := (log s ++ [enter FnLaunchingCheckDeployments]) ++
                               [{| evFn := FnLaunchingCheckDeployments;
                                   evAct := ActByIndex KDeployment "namespace"
                                     (NamespaceName w (Name (Metadata (cur s)))) |}] |}
                     s1).
      { eapply (forEach_inv (quiet FnLaunchingCheckDeployments));
          [apply quiet_refl | apply quiet_trans | | exact Hloop].
        intros e s2 ctl s2' _ Hb. eapply deploymentBody_quiet. exact Hb. }
      assert (Hr : fst r = None /\ s' = s1).
      { destruct res as [res|]; injection H as <- <-; [|split; reflexivity].
        split; [|reflexivity].
        eapply (forEach_ret (fun r => fst r = None)); [|exact Hloop].
        intros e s2 r' s2' _ Hb. apply deploymentBody_quiet in Hb. tauto. }
      destruct Hr as [Hr ->]. destruct Hq as [Hcur Htr]. split.
      * apply enter_then_traced. eapply traced_trans; [|exact Htr]. solve_traced.
      * left. split; [discriminate|]. split; [exact Hr | exact Hcur].
  - injection H as <- <-. split; [solve_traced|]. right.
    split; [reflexivity|]. split; reflexivity.
Qed.

Lemma launchingCheckEtcdCluster_cases s r s' :
  launchingCheckEtcdCluster w cc s = Some (r, s') ->
  ran FnLaunchingCheckEtcdCluster s s' /\
  ((versions cc !! resolvedVersion cc (cur s) <> None /\
    (snd r <> None -> fst r = None) /\
    cur s' = withResolvedVersion cc (cur s))
   \/ (versions cc !! resolvedVersion cc (cur s) = None /\
       r = (Some RefC,
            Some (unknownMasterVersion (Name (Metadata (cur s)))
                                       (resolvedVersion cc (cur s)))) /\
       cur s' = set_Phase FailedClusterStatusPhase
                  (set_LastTransitionTime
                     (timeNow w (log s ++ [enter FnLaunchingCheckEtcdCluster]))
                     (withResolvedVersion cc (cur s))))).
Proof.
  intros H. unfold launchingCheckEtcdCluster in H. unfold_m. simpl in H.
  rewrite resolveMasterVersion_spec in H. simpl in H.
  destruct (versions cc !! resolvedVersion cc (cur s)) as [mv|] eqn:Hv.
  - run_cases H ltac:(split; [solve_traced|]);
      left; (split; [discriminate|]); (split; [|reflexivity]);
      simpl; first [reflexivity | congruence | intros; reflexivity].
  - injection H as <- <-. split; [solve_traced|]. right.
    split; [reflexivity|]. split; reflexivity.
Qed.

End Steps.

(** ** Master-version resolution *)

Lemma withResolvedVersion_set (cc : clusterController) (c : Cluster) :
  withResolvedVersion cc c = set_MasterVersion (resolvedVersion cc c) c.
Proof.
  unfold withResolvedVersion, resolvedVersion.
  destruct (String.eqb (MasterVersion (Spec c)) ""); [reflexivity|].
  destruct c as [m [v cl] a st u]. reflexivity.
Qed.

(** C3: the deployment step and the etcd-cluster step leave
    [Spec.MasterVersion] at the configured default id when it was empty (and
    as it was otherwise); when that id is not a key of the version registry,
    either step sets [Status.Phase] to Failed and [Status.LastTransitionTime]
    to the current time, records one event, and returns the record [c]
    together with the unknown-master-version error. *)
Theorem unknown_master_version_fails
        (w : World) (cc : clusterController) (s : State) :
  let v := if String.eqb (MasterVersion (Spec (cur s))) ""
           then ID (defaultMasterVersion cc)
           else MasterVersion (Spec (cur s)) in
  let failed (f : Fn) : State :=
    {| cur := set_Phase FailedClusterStatusPhase
                (set_LastTransitionTime (timeNow w (log s ++ [enter f]))
                   (set_MasterVersion v (cur s)));
       log := log s ++
         [enter f;
          {| evFn := f;
             evAct := ActRecordEvent "launching"
               "Failed to create new cluster %q due to unknown master version %q"
               [ArgString (Name (Metadata (cur s))); ArgString v] |}] |} in
  let err := Errorf "unknown new cluster %q master version %q"
                    [ArgString (Name (Metadata (cur s))); ArgString v] in
  (forall r s', launchingCheckDeployments w cc s = Some (r, s') ->
                MasterVersion (Spec (cur s')) = v) /\
  (forall r s', launchingCheckEtcdCluster w cc s = Some (r, s') ->
                MasterVersion (Spec (cur s')) = v) /\
  (versions cc !! v = None ->
   launchingCheckDeployments w cc s
   = Some ((Some RefC, Some err), failed FnLaunchingCheckDeployments) /\
   launchingCheckEtcdCluster w cc s
   = Some ((Some RefC, Some err), failed FnLaunchingCheckEtcdCluster)).
Proof.
  intros v failed err. fold (resolvedVersion cc (cur s)) in v.
  split; [|split].
  - intros r s' H. apply launchingCheckDeployments_cases in H.
    destruct H as [_ [(_ & _ & ->)|(_ & _ & ->)]]; simpl;
      apply withResolvedVersion_MasterVersion.
  - intros r s' H. apply launchingCheckEtcdCluster_cases in H.
    destruct H as [_ [(_ & _ & ->)|(_ & _ & ->)]]; simpl;
      apply withResolvedVersion_MasterVersion.
  - intros Hv. subst failed err. split.
    + unfold launchingCheckDeployments. unfold_m. simpl.
      rewrite resolveMasterVersion_spec. simpl. fold v. rewrite Hv.
      rewrite withResolvedVersion_set. simpl. rewrite <- app_assoc. reflexivity.
    + unfold launchingCheckEtcdCluster. unfold_m. simpl.
      rewrite resolveMasterVersion_spec. simpl. fold v. rewrite Hv.
      rewrite withResolvedVersion_set. simpl. rewrite <- app_assoc. reflexivity.
Qed.

Lemma unknown_master_version_fails_witness :
  let c := set_MasterVersion "zzz" (Sample.cluster "c1" None) in
  let cc := Sample.controller [] [] in
  versions cc !! "zzz" = None /\
  (fst <$> launchingCheckDeployments Sample.world cc (Sample.start c)
   = Some (Some RefC, Some (unknownMasterVersion "c1" "zzz"))) /\
  (Phase <$> (Status <$> (cur <$> (snd <$>
     launchingCheckEtcdCluster Sample.world cc (Sample.start c))))
   = Some FailedClusterStatusPhase).
Proof.
  intros c cc.
  assert (Hv : versions cc !! "zzz" = None) by reflexivity.
  split; [exact Hv|].
  destruct (unknown_master_version_fails Sample.world cc (Sample.start c))
    as (_ & _ & Hfail).
  destruct (Hfail Hv) as [Hdep Hetcd].
  rewrite Hdep, Hetcd. split; reflexivity.
Defined.

(** ** The public apiserver service *)

(** C8: when [launchingCheckApiserverPublicService] sets [Address.URL], the
    URL is exactly [https://<name>.<dc>.<external-url>:<port>] for the port
    stored in [Address.ApiserverExternalPort] by the same call; and it does
    set both as soon as the service is not cached and a port is free. *)
Theorem public_service_URL_matches_port
        (w : World) (cc : clusterController) (s : State) :
  (forall r s',
      launchingCheckApiserverPublicService w cc s = Some (r, s') ->
      URL (Address (cur s')) <> URL (Address (cur s)) ->
      URL (Address (cur s'))
      = "https://" +:+ Name (Metadata (cur s')) +:+ "." +:+ dc cc +:+ "."
        +:+ externalURL cc +:+ ":"
        +:+ itoa (ApiserverExternalPort (Address (cur s')))) /\
  (forall o p,
      GetByKey (serviceStore cc)
               (NamespaceName w (Name (Metadata (cur s))) +:+ "/" +:+ "apiserver")
      = (o, false, None) ->
      GetFreeNodePort cc = Some (p, None) ->
      exists r s',
        launchingCheckApiserverPublicService w cc s = Some (r, s') /\
        ApiserverExternalPort (Address (cur s')) = p /\
        URL (Address (cur s')) = publicURL cc (Name (Metadata (cur s))) p).
Proof.
  split.
  - intros r s' H Hset. unfold launchingCheckApiserverPublicService in H.
    run_cases H ltac:(simpl in *; first [reflexivity | congruence]).
  - intros o p Hget Hport. unfold launchingCheckApiserverPublicService.
    unfold_m. simpl. rewrite Hget, Hport. simpl.
    destruct (LoadServiceFile w _ _ _) as [service [e|]]; simpl.
    + eexists _, _. split; [reflexivity|]. split; reflexivity.
    + destruct (clientCreate w _ _ _ _); simpl;
        eexists _, _; (split; [reflexivity|]); split; reflexivity.
Qed.

Lemma public_service_URL_matches_port_witness :
  let cc := Sample.controller [] [("cluster-a/apiserver", Sample.svc [30000])] in
  let s := Sample.start (Sample.cluster "c1" None) in
  GetByKey (serviceStore cc) "cluster-c1/apiserver" = (None, false, None) /\
  GetFreeNodePort cc = Some (30001, None) /\
  (Address <$> (cur <$> (snd <$>
     launchingCheckApiserverPublicService Sample.world cc s)))
  = Some {| URL := "https://c1.fra1.example.com:30001";
            ApiserverExternalPort := 30001 |}.
Proof.
  intros cc s.
  assert (Hget : GetByKey (serviceStore cc)
                   (NamespaceName Sample.world (Name (Metadata (cur s)))
                    +:+ "/" +:+ "apiserver") = (None, false, None))
    by reflexivity.
  assert (Hport : GetFreeNodePort cc = Some (30001, None)) by reflexivity.
  split; [exact Hget|]. split; [exact Hport|].
  destruct (public_service_URL_matches_port Sample.world cc s) as [Hurl Hsets].
  destruct (Hsets None 30001 Hget Hport) as (r & s' & Hrun & Hp & Hu).
  assert (Hne : URL (Address (cur s')) <> URL (Address (cur s)))
    by (rewrite Hu; discriminate).
  pose proof (Hurl r s' Hrun Hne) as Hfmt. clear Hfmt Hurl Hne.
  rewrite Hrun. simpl.
  destruct (cur s') as [m sp [u p] st un]. simpl in *. subst u p. reflexivity.
Defined.

(** On exhaustion the step has already stored the port it got, 0, in the
    record when it returns the error. *)
Lemma exhaustion_overwrites_port (w : World) (cc : clusterController) (s : State) o e :
  GetByKey (serviceStore cc)
           (NamespaceName w (Name (Metadata (cur s))) +:+ "/" +:+ "apiserver")
  = (o, false, None) ->
  GetFreeNodePort cc = Some (0, Some e) ->
  launchingCheckApiserverPublicService w cc s
  = Some ((None, Some e),
          {| cur := set_ApiserverExternalPort 0 (cur s);
             log := log s ++
               [enter FnLaunchingCheckApiserverPublicService;
                {| evFn := FnLaunchingCheckApiserverPublicService;
                   evAct := ActGetByKey KService
                     (NamespaceName w (Name (Metadata (cur s)))
                      +:+ "/" +:+ "apiserver") |}] |}).
Proof.
  intros Hget Hport. unfold launchingCheckApiserverPublicService.
  unfold_m. simpl. rewrite Hget, Hport. simpl.
  rewrite <- app_assoc. reflexivity.
Qed.

(** C5 (port exhaustion): with the apiserver service of [c1] absent from
    the cache and every port of the range taken, the reconcile returns a nil
    cluster with the [no free NodePort] error and creates nothing, and
    [Address.URL] keeps its value; [Address.ApiserverExternalPort] of the
    record, 30001 before the call, is 0 after it. *)
Theorem port_exhaustion_resets_port :
  let c := Sample.advanced "c1" in
  exists s',
    reconcile Sample.world Sample.exhausted c
    = Some ((None,
             Some (Errorf "no free NodePort available within the given range %d-%d"
                          [ArgInt 30000; ArgInt 30002])), s') /\
    creates (log s') = [] /\
    URL (Address (cur s')) = URL (Address c) /\
    ApiserverExternalPort (Address c) = 30001 /\
    ApiserverExternalPort (Address (cur s')) = 0.
Proof.
  eexists. split; [reflexivity|]. repeat split.
Qed.

(** ** The config-map step *)

(** C7, as stated, fails: for a cluster with [Spec.Cloud.AWS] set whose
    [aws-cloud-config] config map is already in the cache, the config-map
    step issues no [Create] at all. *)
Lemma aws_config_map_skipped_when_cached :
  let c := Sample.cluster "c1" Sample.aws in
  let cc := Sample.withConfigMaps
              [("cluster-c1/aws-cloud-config", Sample.obj "aws-cloud-config")]
              (Sample.controller [] []) in
  ~ (configMapCreates Sample.world cc c <> [] <-> hasAWS c = true).
Proof.
  intros c cc [_ H]. apply H; reflexivity.
Qed.

(** C7, amended: the config-map step probes the cache for
    [<namespace>/aws-cloud-config] if and only if [Spec.Cloud] and
    [Spec.Cloud.AWS] are non-nil; it issues a [Create], of the config map the
    loader returned and of nothing else, exactly when in addition the probe
    finds no such config map and the loader reports no error; for every
    other cluster the step creates no config map and probes nothing. *)
Theorem aws_config_map_created_when_absent
        (w : World) (cc : clusterController) (c : Cluster) :
  let ns := NamespaceName w (Name (Metadata c)) in
  let key := ns +:+ "/" +:+ "aws-cloud-config" in
  (hasAWS c = false ->
   launchingCheckConfigMaps w cc {| cur := c; log := [] |}
   = Some (None, {| cur := c; log := [enter FnLaunchingCheckConfigMaps] |})) /\
  (hasAWS c = true ->
   exists r evs,
     launchingCheckConfigMaps w cc {| cur := c; log := [] |}
     = Some (r, {| cur := c;
                   log := enter FnLaunchingCheckConfigMaps
                          :: {| evFn := FnLaunchingCheckConfigMaps;
                                evAct := ActGetByKey KConfigMap key |} :: evs |})) /\
  (configMapCreates w cc c <> [] <->
   hasAWS c = true /\
   (exists o, GetByKey (cmStore cc) key = (o, false, None)) /\
   snd (LoadAwsCloudConfigConfigMap w c) = None) /\
  (configMapCreates w cc c <> [] ->
   configMapCreates w cc c
   = [(KConfigMap, ns, fst (LoadAwsCloudConfigConfigMap w c))]).
Proof.
  intros ns key. subst key ns.
  unfold configMapCreates, hasAWS, launchingCheckConfigMaps, configMaps.
  msimpl.
  destruct (Cloud (Spec c)) as [[[a|]]|]; msimpl.
  2, 3: repeat split; try reflexivity; try discriminate; try tauto;
        intros; try tauto; try discriminate;
        match goal with H : _ /\ _ |- _ => destruct H; discriminate end.
  destruct (GetByKey (cmStore cc) _) as [[o ex] [e|]]; msimpl;
    [| destruct ex; msimpl;
       [| destruct (LoadAwsCloudConfigConfigMap w c) as [cm [e|]]; msimpl;
          [| destruct (clientCreate w _ _ _ _); msimpl ] ] ].
  all: split; [intros Hh; discriminate Hh|].
  all: split; [intros _; eexists _, _; reflexivity|].
  all: split;
    [ split;
      [ intros Hh; first
          [ exfalso; apply Hh; reflexivity
          | split; [reflexivity | split; [eexists; reflexivity | reflexivity]] ]
      | intros (Ha & (o' & Ho) & Hl); first
          [ discriminate Ho | discriminate Hl | discriminate ] ]
    | intros Hh; first [reflexivity | exfalso; apply Hh; reflexivity] ].
Qed.

Lemma aws_config_map_created_when_absent_witness :
  let c := Sample.cluster "c1" Sample.aws in
  let cc := Sample.controller [] [] in
  hasAWS c = true /\
  hasAWS (Sample.cluster "c2" None) = false /\
  configMapCreates Sample.world cc c
  = [(KConfigMap, "cluster-c1", Sample.obj "aws-cloud-config")] /\
  configMapCreates Sample.world cc (Sample.cluster "c2" None) = [].
Proof.
  intros c cc.
  assert (Haws : hasAWS c = true) by reflexivity.
  assert (Hno : hasAWS (Sample.cluster "c2" None) = false) by reflexivity.
  split; [exact Haws|]. split; [exact Hno|].
  destruct (aws_config_map_created_when_absent Sample.world cc c)
    as (_ & Hprobe & Hiff & Hone).
  destruct (aws_config_map_created_when_absent Sample.world cc
              (Sample.cluster "c2" None)) as (Hnone & _).
  split.
  - rewrite Hone; [reflexivity|]. apply Hiff.
    split; [exact Haws|]. split; [eexists; reflexivity | reflexivity].
  - unfold configMapCreates. rewrite (Hnone Hno). reflexivity.
Defined.

(** ** Strings *)

Lemma length_app_str (a b : string) :
  String.length (a +:+ b) = (String.length a + String.length b)%nat.
Proof. induction a as [|ch a IH]; simpl; [reflexivity | rewrite IH; reflexivity]. Qed.

Lemma app_inv_tail_str (a b x : string) : a +:+ x = b +:+ x -> a = b.
Proof.
  revert b. induction a as [|ch a IH]; intros [|ch' b] H; simpl in H.
  - reflexivity.
  - apply (f_equal String.length) in H. simpl in H.
    rewrite !length_app_str in H. simpl in H. lia.
  - apply (f_equal String.length) in H. simpl in H.
    rewrite !length_app_str in H. simpl in H. lia.
  - injection H as -> H. f_equal. apply IH. exact H.
Qed.

Lemma lastChar_app (a b : string) : b <> "" -> lastChar (a +:+ b) = lastChar b.
Proof.
  intros Hb. induction a as [|ch a IH]; [reflexivity|].
  change (String ch a +:+ b) with (String ch (a +:+ b)).
  assert (Hne : a +:+ b <> "") by (destruct a; [exact Hb | discriminate]).
  rewrite <- IH. destruct (a +:+ b); [contradiction | reflexivity].
Qed.

Lemma lookupKey_Some {A : Type} (key : string) (l : list (string * A)) :
  (exists v, In (key, v) l) -> exists v, lookupKey key l = Some v.
Proof.
  induction l as [|[k v] l IH]; intros [v0 Hin]; simpl in *; [contradiction|].
  destruct (String.eqb_spec k key) as [->|Hne]; [eexists; reflexivity|].
  apply IH. destruct Hin as [Heq|Hin]; [congruence | eexists; exact Hin].
Qed.

Lemma lookupKey_None {A : Type} (key : string) (l : list (string * A)) :
  (forall k v, In (k, v) l -> k <> key) -> lookupKey key l = None.
Proof.
  induction l as [|[k v] l IH]; intros Hall; simpl; [reflexivity|].
  destruct (String.eqb_spec k key) as [->|Hne].
  - exfalso. eapply Hall; [left; reflexivity | reflexivity].
  - apply IH. intros k' v' Hin. eapply Hall. right. exact Hin.
Qed.

(** ** Default plug-ins *)

(** From here on the order of a [range] is kept abstract. *)
#[local] Arguments rangeOrder : simpl never.

Section DefaultPlugins.

Variable w : World.
Variable cc : clusterController.
Variable c : Cluster.

Lemma addon_keys_coincide (safeName : string) :
  addonProbeKey w c safeName = addonCacheKey c safeName <->
  NamespaceName w (Name (Metadata c)) = "cluster-" +:+ Name (Metadata c).
Proof.
  unfold addonProbeKey, addonCacheKey. split.
  - apply app_inv_tail_str.
  - intros ->. reflexivity.
Qed.

Lemma addon_keys_differ (safeName name safeName' name' : string) :
  NamespaceName w (Name (Metadata c)) <> "cluster-" +:+ Name (Metadata c) ->
  In (safeName, name) defaultPlugins ->
  In (safeName', name') defaultPlugins ->
  addonCacheKey c safeName' <> addonProbeKey w c safeName.
Proof.
  intros Hne H1 H2 Heq. unfold addonProbeKey, addonCacheKey in Heq.
  simpl in H1, H2.
  repeat match goal with
         | H : _ \/ _ |- _ => destruct H
         | H : (_, _) = (_, _) |- _ => injection H as <- <-
         | H : False |- _ => destruct H
         end;
    try (apply (f_equal lastChar) in Heq;
         rewrite !lastChar_app in Heq by discriminate;
         vm_compute in Heq; discriminate Heq);
    apply app_inv_tail_str in Heq; congruence.
Qed.

Lemma defaultPluginBody_actions ns e s ctl s' :
  ns = NamespaceName w (Name (Metadata c)) ->
  In e defaultPlugins ->
  defaultPluginBody w cc c ns e s = Some (ctl, s') ->
  exists evs, log s' = log s ++ evs /\
              Forall (fun ev => pluginAction w c (evAct ev)) evs.
Proof.
  intros -> Hin H. destruct e as [safeName name]. unfold defaultPluginBody in H.
  assert (Hprobe : pluginAction w c (ActGetByKey KClusterAddon
                                       (addonProbeKey w c safeName)))
    by (exists safeName, name; split; [exact Hin | left; reflexivity]).
  assert (Hcreate : pluginAction w c
            (ActCreateAddon ("cluster-" +:+ Name (Metadata c))
               {| AddonMetaName := "addon-default-" +:+ safeName;
                  AddonName := name;
                  AddonPhase := PendingAddonStatusPhase |}))
    by (exists safeName, name; split; [exact Hin | right; reflexivity]).
  run_cases H ltac:(eexists; split;
                    [simpl; repeat rewrite <- app_assoc; simpl; reflexivity
                    | repeat constructor; assumption]).
Qed.

Lemma addonCreates_app (l1 l2 : list Event) :
  addonCreates (l1 ++ l2) = addonCreates l1 ++ addonCreates l2.
Proof. apply flat_map_app. Qed.

Hypothesis Hitems : storeItems (addonStore cc) = createdAddons c.
Hypothesis Hnoerr : forall key, storeGetErr (addonStore cc) key = None.

Lemma created_addon_probe_hits safeName name :
  NamespaceName w (Name (Metadata c)) = "cluster-" +:+ Name (Metadata c) ->
  In (safeName, name) defaultPlugins ->
  exists o, GetByKey (addonStore cc) (addonProbeKey w c safeName) = (Some o, true, None).
Proof using Hitems Hnoerr.
  intros Hns Hin. unfold GetByKey. rewrite Hnoerr, Hitems.
  destruct (lookupKey_Some (addonProbeKey w c safeName) (createdAddons c)) as [o Ho].
  - eexists. apply in_map_iff. exists (safeName, name). split; [|exact Hin].
    simpl. f_equal. symmetry. apply addon_keys_coincide. exact Hns.
  - rewrite Ho. eexists. reflexivity.
Qed.

Lemma created_addon_probe_misses safeName name :
  NamespaceName w (Name (Metadata c)) <> "cluster-" +:+ Name (Metadata c) ->
  In (safeName, name) defaultPlugins ->
  GetByKey (addonStore cc) (addonProbeKey w c safeName) = (None, false, None).
Proof using Hitems Hnoerr.
  intros Hns Hin. unfold GetByKey. rewrite Hnoerr, Hitems.
  rewrite lookupKey_None; [reflexivity|].
  intros k v Hk. apply in_map_iff in Hk as ([safeName' name'] & Hkv & Hin').
  injection Hkv as <- _. eapply addon_keys_differ; eassumption.
Qed.

End DefaultPlugins.

Lemma grew_refl (Q : Action -> Prop) (s : State) : grew Q s s.
Proof. exists []. rewrite app_nil_r. split; [reflexivity | constructor]. Qed.

Lemma grew_trans (Q : Action -> Prop) (s1 s2 s3 : State) :
  grew Q s1 s2 -> grew Q s2 s3 -> grew Q s1 s3.
Proof.
  intros (e1 & Hl1 & Hf1) (e2 & Hl2 & Hf2).
  exists (e1 ++ e2). split.
  - rewrite Hl2, Hl1, app_assoc. reflexivity.
  - apply Forall_app. split; assumption.
Qed.

Lemma rangeOrder_nonempty {A : Type} (rank : string -> nat) (l : list (string * A)) :
  l <> [] -> rangeOrder rank l <> [].
Proof.
  destruct l as [|x l]; [congruence|]. intros _ Hnil.
  assert (Hin : In x (rangeOrder rank (x :: l)))
    by (apply rangeOrder_In; left; reflexivity).
  rewrite Hnil in Hin. exact Hin.
Qed.

Lemma launchingCheckDefaultPlugins_total w cc s :
  exists res, launchingCheckDefaultPlugins w cc s = Some res.
Proof.
  unfold launchingCheckDefaultPlugins. unfold_m. simpl.
  destruct (forEach_total
              (defaultPluginBody w cc (cur s) (NamespaceName w (Name (Metadata (cur s)))))
              (rangeOrder (mapOrder w (log s ++ [enter FnLaunchingCheckDefaultPlugins]))
                          defaultPlugins))
    with (s := {| cur := cur s;
                  log := log s ++ [enter FnLaunchingCheckDefaultPlugins] |})
    as [[res s1] Hres].
  - intros [safeName name] s0 _. unfold defaultPluginBody. msimpl.
    repeat (break_goal; msimpl); eexists; reflexivity.
  - unfold enter in Hres. rewrite Hres. destruct res; eexists; reflexivity.
Qed.



(** ** Secrets *)

Lemma app_inv_head_str (a x y : string) : a +:+ x = a +:+ y -> x = y.
Proof.
  induction a as [|ch a IH]; simpl; intros H; [exact H|].
  injection H as H. apply IH. exact H.
Qed.

Lemma afterEach_split (P : Action -> Prop) (Q : list Action -> Prop) (l : list Action) :
  afterEach P Q l ->
  forall l1 a l2, l = l1 ++ a :: l2 -> P a -> Q l2.
Proof.
  intros H l1. revert l H. induction l1 as [|b l1 IH]; intros l H a l2 -> Ha.
  - simpl in H. apply H. exact Ha.
  - simpl in H. destruct H as [_ H]. eapply IH; [exact H | reflexivity | exact Ha].
Qed.

Lemma recreate_member (c : Cluster) (s : string) :
  bool_decide (s ∈ recreateSecretsOf c)
  = (String.eqb s "apiserver-ssh"
     && (String.length (ApiserverSSH (Status c)) =? 0)%nat).
Proof.
  unfold recreateSecretsOf.
  destruct (String.length (ApiserverSSH (Status c)) =? 0)%nat.
  - rewrite andb_true_r. destruct (String.eqb_spec s "apiserver-ssh") as [->|Hne].
    + apply bool_decide_eq_true. set_solver.
    + apply bool_decide_eq_false. set_solver.
  - rewrite andb_false_r. apply bool_decide_eq_false. set_solver.
Qed.

Lemma afterEach_eq_split (a : Action) (Q : list Action -> Prop) (l : list Action) :
  afterEach (fun x => x = a) Q l ->
  forall l1 l2, l = l1 ++ a :: l2 -> Q l2.
Proof.
  intros H l1 l2 Heq. eapply afterEach_split; [exact H | exact Heq | reflexivity].
Qed.

(** Two probe keys of the secrets step are equal only for equal names. *)
Ltac key_contra H :=
  injection H as H; apply app_inv_head_str in H; vm_compute in H; discriminate H.

Ltac split_In H :=
  simpl in H;
  repeat match type of H with
         | _ \/ _ => destruct H as [H|H]
         end.

Ltac find_In := solve [simpl; repeat (first [left; reflexivity | right])].

Ltac not_cached Hc := solve [exfalso; destruct Hc as [? Hc]; congruence].

Ltac secrets_deletes :=
  let Hin := fresh "Hin" in
  intros ? ? ? Hin; simpl in Hin;
  repeat match goal with
         | H : _ \/ _ |- _ => destruct H as [H|H]
         end;
  try discriminate; try contradiction;
  injection Hin as <- <- <-;
  (split; [reflexivity
          | split; [first [assumption | reflexivity]
                   | eexists; first [eassumption | reflexivity]]]).

Ltac secrets_reached :=
  let Hin := fresh "Hin" in
  let Hs := fresh "Hs" in
  let Hc := fresh "Hc" in
  intros Hin Hs Hc;
  first
    [ find_In
    | not_cached Hc
    | congruence
    | exfalso; simpl in Hin;
      repeat match goal with
             | H : _ \/ _ |- _ => destruct H as [H|H]
             end;
      solve [discriminate | contradiction | key_contra Hin] ].

Ltac secrets_after P :=
  apply afterEach_eq_split; simpl; repeat split;
  let Ha := fresh "Ha" in
  intros Ha; try discriminate Ha; try solve [key_contra Ha]; P.

Ltac secrets_after_delete :=
  secrets_after
    ltac:(first [ left; eexists _, _; reflexivity
                | right; split; [reflexivity | split; [reflexivity | discriminate]] ]).

Ltac secrets_skip :=
  secrets_after
    ltac:(first [ left; reflexivity | right; eexists; reflexivity ]).

Ltac secrets_leaf :=
  eexists; split;
  [ simpl; repeat rewrite <- app_assoc; simpl; reflexivity |];
  simpl;
  split; [secrets_deletes|];
  split; [secrets_reached|];
  split; [secrets_after_delete|];
  split;
  [ let Hc := fresh "Hc" in intros Hc; first [not_cached Hc | secrets_skip]
  | let Hs := fresh "Hs" in let Hc := fresh "Hc" in
    intros Hs Hc; first [congruence | not_cached Hc | secrets_skip] ].



(** ** The pipeline driver *)

Lemma forEach_spec {A R : Type} (PC : State -> State -> Prop)
      (PR : R -> State -> State -> Prop) :
  (forall s, PC s s) ->
  (forall s1 s2 s3, PC s1 s2 -> PC s2 s3 -> PC s1 s3) ->
  (forall r s1 s2 s3, PC s1 s2 -> PR r s2 s3 -> PR r s1 s3) ->
  forall (body : A -> M (LoopCtl R)) (entries : list A),
    (forall e s ctl s',
        In e entries -> body e s = Some (ctl, s') ->
        match ctl with Continue => PC s s' | Return r => PR r s s' end) ->
    forall s res s',
      forEach entries body s = Some (res, s') ->
      match res with None => PC s s' | Some r => PR r s s' end.
Proof.
  intros Hrefl Htrans Hcomp body entries.
  induction entries as [|e rest IH]; intros Hbody s res s' Hrun; simpl in Hrun.
  - unfold mret in Hrun. injection Hrun as <- <-. apply Hrefl.
  - unfold mbind in Hrun. destruct (body e s) as [[ctl s1]|] eqn:Hb; [|discriminate].
    pose proof (Hbody e s ctl s1 (or_introl eq_refl) Hb) as Hstep.
    destruct ctl as [|r0].
    + assert (Hrest : forall e' s2 ctl' s2',
                 In e' rest -> body e' s2 = Some (ctl', s2') ->
                 match ctl' with Continue => PC s2 s2' | Return r => PR r s2 s2' end)
        by (intros e' s2 ctl' s2' Hin; apply Hbody; right; exact Hin).
      specialize (IH Hrest s1 res s' Hrun).
      destruct res; [eapply Hcomp | eapply Htrans]; eassumption.
    + unfold mret in Hrun. injection Hrun as <- <-. exact Hstep.
Qed.

Lemma fnIndex_inj (f g : Fn) : fnIndex f = fnIndex g -> f = g.
Proof. destruct f, g; simpl; intros H; first [reflexivity | discriminate H]. Qed.

Lemma fnIndex_bound (f : Fn) : (fnIndex f < 13)%nat.
Proof. destruct f; simpl; lia. Qed.

Lemma progress_step (k : nat) (f : Fn) (s s' : State) :
  progress_log k s -> ran f s s' -> fnIndex f = k -> progress_log (S k) s'.
Proof.
  intros [Hev Hent] (evs & Hl & Hf) Hk. split.
  - intros ev Hin. rewrite Hl in Hin. apply in_app_or in Hin as [Hin|[<-|Hin]].
    + specialize (Hev ev Hin). lia.
    + simpl. lia.
    + rewrite List.Forall_forall in Hf. rewrite (Hf ev Hin). lia.
  - intros g Hg. rewrite Hl. apply in_or_app.
    destruct (Nat.eq_dec (fnIndex g) k) as [Heq|Hne].
    + right. left. f_equal. apply fnIndex_inj. congruence.
    + left. apply Hent. lia.
Qed.

Lemma progress_same_log (k : nat) (s s' : State) :
  log s' = log s -> progress_log k s -> progress_log k s'.
Proof. unfold progress_log. intros ->. tauto. Qed.

Section SecretsFrame.

Variable w : World.
Variable cc : clusterController.
Variable R : Cluster -> Cluster -> Prop.

(** What a [Return] of the secrets loop looks like: an error without a
    cluster, or a cluster related to the record by [R] without an error. *)
Let yields (r : Result) (s s' : State) : Prop :=
  traced FnPendingCheckSecrets s s' /\
  ((fst r = None /\ snd r <> None)
   \/ exists ref, r = (Some ref, None) /\ R (cur s) (deref s' ref)).

Lemma secretBody_cases recreate ns name gen s ctl s' :
  gen_respects R gen ->
  secretBody w cc recreate ns (name, gen) s = Some (ctl, s') ->
  match ctl with
  | Continue => quiet FnPendingCheckSecrets s s'
  | Return r => yields r s s'
  end.
Proof.
  intros Hgen H. unfold secretBody, generateSecret in H. subst yields.
  run_cases H ltac:(
    try match goal with
        | E : genErr (gen ?c ?t) = None |- _ =>
            let F := fresh "Hfr" in
            pose proof (Hgen c t E) as F; simpl in F;
            match goal with
            | E' : genChanged (gen c t) = _ |- _ => rewrite E' in F
            end
        end;
    simpl;
    first
      [ solve [split; [solve_traced | left; split; [reflexivity | discriminate]]]
      | solve [split; [solve_traced
                      | right; eexists; split; [reflexivity | eassumption]]]
      | solve [split; [first [assumption | reflexivity] | solve_traced]] ]).
Qed.

Hypothesis Hauth : gen_respects R (createApiserverAuth w).
Hypothesis Hssh : gen_respects R (createApiserverSSH w).

Lemma pendingCheckSecrets_cases s r s' :
  pendingCheckSecrets w cc s = Some (r, s') ->
  ran FnPendingCheckSecrets s s' /\
  ((r = (None, None) /\ cur s' = cur s)
   \/ (fst r = None /\ snd r <> None)
   \/ (exists ref, r = (Some ref, None) /\ R (cur s) (deref s' ref))).
Proof using Hauth Hssh.
  intros H. unfold pendingCheckSecrets in H. unfold_m. simpl in H.
  destruct (forEach _ _ _) as [[res s1]|] eqn:Hloop; [|discriminate].
  apply (forEach_spec (quiet FnPendingCheckSecrets) yields) in Hloop.
  - destruct res as [r0|]; injection H as <- <-.
    + destruct Hloop as [Htr Hcase]. split.
      * apply enter_then_traced. exact Htr.
      * right. exact Hcase.
    + destruct Hloop as [Hcur Htr]. split.
      * apply enter_then_traced. exact Htr.
      * left. split; [reflexivity | exact Hcur].
  - apply quiet_refl.
  - apply quiet_trans.
  - intros r0 s2 s3 s4 [Hc Ht] [Ht' Hcase]. split.
    + eapply traced_trans; eassumption.
    + destruct Hcase as [Herr|(ref & Hr & HR)]; [left; exact Herr|].
      right. exists ref. split; [exact Hr|]. rewrite <- Hc. exact HR.
  - intros [name gen] s2 ctl s2' Hin Hb. apply rangeOrder_In in Hin.
    eapply secretBody_cases; [|exact Hb].
    unfold secrets in Hin. simpl in Hin.
    destruct Hin as [Heq|[Heq|[]]]; injection Heq as _ <-; assumption.
Qed.

End SecretsFrame.

Lemma withResolvedVersion_Name (cc : clusterController) (c : Cluster) :
  Name (Metadata (withResolvedVersion cc c)) = Name (Metadata c).
Proof.
  unfold withResolvedVersion.
  destruct (String.eqb (MasterVersion (Spec c)) ""); reflexivity.
Qed.

(** Runs the next step of the driver in [H] and applies its case lemma. *)
Ltac next_step H lem Hk :=
  unfold mbind at 1 in H;
  match type of H with
  | match ?m ?S with _ => _ end = _ =>
      destruct (m S) as [[? ?]|] eqn:Hk; [|discriminate H]; apply lem in Hk
  end.

(** Leaves the driver through an error of the current step. *)
Ltac exit_error H :=
  simpl in *; subst;
  repeat match goal with
         | o : option error |- _ => destruct o
         | r : Result |- _ => destruct r
         end;
  simpl in *; subst; try congruence;
  unfold mret in H; injection H as <- <-; left; reflexivity.

Section Driver.

Variable w : World.
Variable cc : clusterController.
Variable R : Cluster -> Cluster -> Prop.

Hypothesis Htimeout : timeout_leaves_record w.
Hypothesis Hauth : gen_respects R (createApiserverAuth w).
Hypothesis Hssh : gen_respects R (createApiserverSSH w).

(** The ways [syncPendingCluster] returns: without a cluster; with the
    record after one of the four yielding steps; with the failed record and
    the unknown-master-version error; with the promoted record. *)
Lemma syncPendingCluster_cases (c : Cluster) (r : Result) (s' : State) :
  reconcile w cc c = Some (r, s') ->
  fst r = None
  \/ (r = (Some RefC, None) /\ (exists kc, cur s' = set_RootCA kc c) /\
      progress_log 2 s')
  \/ (r = (Some RefC, None) /\ cur s' = fst (fst (createTokens w c)) /\
      progress_log 3 s')
  \/ (r = (Some RefC, None) /\
      (exists p u, cur s' = set_URL u (set_ApiserverExternalPort p c)) /\
      progress_log 4 s')
  \/ (exists ref, r = (Some ref, None) /\ R c (deref s' ref) /\ progress_log 8 s')
  \/ (exists v, r = (Some RefC, Some (unknownMasterVersion (Name (Metadata c)) v)) /\
                versions cc !! v = None /\
                Phase (Status (cur s')) = FailedClusterStatusPhase)
  \/ (r = (Some RefC, None) /\
      Phase (Status (cur s')) = LaunchingClusterStatusPhase /\
      LastTransitionTime (Status (cur s')) = timeNow w (log s') /\
      progress_log 13 s').
Proof using Htimeout Hauth Hssh.
  unfold reconcile, syncPendingCluster. intros H.
  (* checkTimeout *)
  unfold mbind at 1 in H. rewrite runCheckTimeout_spec in H. simpl in H.
  destruct (checkTimeout w c) as [c0 [e|]] eqn:Ht; simpl in H.
  { unfold mret in H. injection H as <- <-. left. reflexivity. }
  apply Htimeout in Ht. subst c0.
  assert (P1 : progress_log 1 {| cur := c; log := [enter FnCheckTimeout] |}).
  { split.
    - intros ev [<-|[]]. simpl. lia.
    - intros f Hf. destruct f; simpl in Hf; try lia. left. reflexivity. }
  (* pendingCreateRootCA *)
  next_step H pendingCreateRootCA_cases H1.
  destruct H1 as [Hran [(-> & Hc)|[(-> & kc & Hc)|(Hf & He)]]]; simpl in H.
  2: { unfold mret in H. injection H as <- <-. right. left.
       split; [reflexivity|]. split; [exists kc; exact Hc|].
       eapply progress_step; [exact P1 | exact Hran | reflexivity]. }
  2: { exit_error H. }
  pose proof (progress_step _ _ _ _ P1 Hran eq_refl) as P2. simpl in Hc.
  clear P1 Hran.
  (* launchingCheckTokenUsers *)
  next_step H launchingCheckTokenUsers_cases H2.
  destruct H2 as [Hran [(-> & Hc2)|[(-> & Hc2)|(Hf & He)]]]; simpl in H.
  2: { unfold mret in H. injection H as <- <-. right. right. left.
       split; [reflexivity|]. split; [rewrite Hc2, Hc; reflexivity|].
       eapply progress_step; [exact P2 | exact Hran | reflexivity]. }
  2: { exit_error H. }
  pose proof (progress_step _ _ _ _ P2 Hran eq_refl) as P3. rewrite Hc in Hc2.
  clear P2 Hran Hc.
  (* launchingCheckApiserverPublicService *)
  next_step H launchingCheckApiserverPublicService_cases H3.
  destruct H3 as [Hran [(-> & Hc3)|[(-> & p & u & Hc3)|(Hf & He)]]]; simpl in H.
  2: { unfold mret in H. injection H as <- <-. right. right. right. left.
       split; [reflexivity|]. split; [exists p, u; rewrite Hc3, Hc2; reflexivity|].
       eapply progress_step; [exact P3 | exact Hran | reflexivity]. }
  2: { exit_error H. }
  pose proof (progress_step _ _ _ _ P3 Hran eq_refl) as P4. rewrite Hc2 in Hc3.
  clear P3 Hran Hc2.
  (* launchingCheckServiceAccounts *)
  next_step H launchingCheckServiceAccounts_quiet H4.
  destruct H4 as [Hc4 Hran].
  pose proof (progress_step _ _ _ _ P4 Hran eq_refl) as P5. rewrite Hc3 in Hc4.
  clear P4 Hran Hc3.
  match type of H with context [isNil ?o] => destruct o end; simpl in H.
  { unfold mret in H. injection H as <- <-. left. reflexivity. }
  (* launchingCheckClusterRoleBindings *)
  next_step H launchingCheckClusterRoleBindings_quiet H5.
  destruct H5 as [Hc5 Hran].
  pose proof (progress_step _ _ _ _ P5 Hran eq_refl) as P6. rewrite Hc4 in Hc5.
  clear P5 Hran Hc4.
  match type of H with context [isNil ?o] => destruct o end; simpl in H.
  { unfold mret in H. injection H as <- <-. left. reflexivity. }
  (* launchingCheckServices *)
  next_step H launchingCheckServices_quiet H6.
  destruct H6 as (Hc6 & Hran & Hnil).
  pose proof (progress_step _ _ _ _ P6 Hran eq_refl) as P7. rewrite Hc5 in Hc6.
  clear P6 Hran Hc5.
  match type of H with context [stops ?x] => destruct x as [a b] end.
  simpl in Hnil. subst a. unfold stops in H. simpl in H.
  destruct b; simpl in H.
  { unfold mret in H. injection H as <- <-. left. reflexivity. }
  (* pendingCheckSecrets *)
  next_step H (pendingCheckSecrets_cases w cc R Hauth Hssh) H7.
  destruct H7 as [Hran [(-> & Hc7)|[(Hf & He)|(ref & -> & HR)]]]; simpl in H.
  2: { exit_error H. }
  2: { unfold mret in H. injection H as <- <-. do 4 right. left.
       exists ref. split; [reflexivity|]. split; [rewrite <- Hc6; exact HR|].
       eapply progress_step; [exact P7 | exact Hran | reflexivity]. }
  pose proof (progress_step _ _ _ _ P7 Hran eq_refl) as P8. rewrite Hc6 in Hc7.
  clear P7 Hran Hc6.
  (* launchingCheckConfigMaps *)
  next_step H launchingCheckConfigMaps_quiet H8.
  destruct H8 as [Hc8 Hran].
  pose proof (progress_step _ _ _ _ P8 Hran eq_refl) as P9. rewrite Hc7 in Hc8.
  clear P8 Hran Hc7.
  match type of H with context [isNil ?o] => destruct o end; simpl in H.
  { unfold mret in H. injection H as <- <-. left. reflexivity. }
  (* launchingCheckPvcs *)
  next_step H launchingCheckPvcs_quiet H9.
  destruct H9 as [Hc9 Hran].
  pose proof (progress_step _ _ _ _ P9 Hran eq_refl) as P10. rewrite Hc8 in Hc9.
  clear P9 Hran Hc8.
  match type of H with context [isNil ?o] => destruct o end; simpl in H.
  { unfold mret in H. injection H as <- <-. left. reflexivity. }
  (* launchingCheckDeployments *)
  next_step H launchingCheckDeployments_cases H10.
  rewrite Hc9 in H10.
  destruct H10 as [Hran [(Hfound & Hnil & Hc10)|(Hnone & -> & Hc10)]]; simpl in H.
  2: { unfold mret in H. injection H as <- <-. do 5 right. left.
       exists (resolvedVersion cc c). split; [reflexivity|].
       split; [exact Hnone|]. rewrite Hc10. reflexivity. }
  pose proof (progress_step _ _ _ _ P10 Hran eq_refl) as P11.
  clear P10 Hran Hc9.
  match type of H with context [isNil (snd ?x)] => destruct x as [a b] end.
  simpl in Hnil. subst a. simpl in H. destruct b; simpl in H.
  { unfold mret in H. injection H as <- <-. left. reflexivity. }
  (* launchingCheckEtcdCluster *)
  next_step H launchingCheckEtcdCluster_cases H11.
  rewrite Hc10 in H11.
  destruct H11 as [Hran [(Hfound' & Hnil & Hc11)|(Hnone & -> & Hc11)]]; simpl in H.
  2: { unfold mret in H. injection H as <- <-. do 5 right. left.
       exists (resolvedVersion cc (withResolvedVersion cc c)).
       rewrite withResolvedVersion_Name. split; [reflexivity|].
       split; [exact Hnone|]. rewrite Hc11. reflexivity. }
  pose proof (progress_step _ _ _ _ P11 Hran eq_refl) as P12.
  clear P11 Hran Hc10.
  match type of H with context [isNil (snd ?x)] => destruct x as [a b] end.
  simpl in Hnil. simpl in H. destruct b; simpl in H.
  { rewrite Hnil in H by discriminate.
    unfold mret in H. injection H as <- <-. left. reflexivity. }
  (* launchingCheckDefaultPlugins *)
  next_step H launchingCheckDefaultPlugins_quiet H12.
  destruct H12 as [Hc12 Hran].
  pose proof (progress_step _ _ _ _ P12 Hran eq_refl) as P13.
  clear P12 Hran.
  match type of H with context [isNil ?o] => destruct o end; simpl in H.
  { unfold mret in H. injection H as <- <-. left. reflexivity. }
  (* promotion *)
  unfold_m. simpl in H. injection H as <- <-. do 6 right.
  split; [reflexivity|]. split; [reflexivity|]. split; [reflexivity|].
  eapply progress_same_log; [|exact P13]. reflexivity.
Qed.

End Driver.

(** ** Yield on mutation *)

Lemma progress_log_reached (f : Fn) (s : State) :
  progress_log (S (fnIndex f)) s ->
  (forall ev, In ev (log s) -> (fnIndex (evFn ev) <= fnIndex f)%nat) /\
  In (enter f) (log s).
Proof.
  intros [Hev Hent]. split.
  - intros ev Hin. specialize (Hev ev Hin). lia.
  - apply Hent. lia.
Qed.


(** ** Phases *)


(** The sample collaborators meet the assumptions. *)

Lemma sample_timeout : timeout_leaves_record Sample.world.
Proof. intros c c' H. simpl in H. congruence. Qed.

Lemma sample_tokens_frame : tokens_frame Sample.world.
Proof.
  intros c [] Hne; simpl; first [congruence | reflexivity | split; reflexivity].
Qed.

Lemma sample_tokens_keep_phase : tokens_keep_phase Sample.world.
Proof. intros c. reflexivity. Qed.

Lemma sample_auth_untouched (R : Cluster -> Cluster -> Prop) :
  gen_respects R (createApiserverAuth Sample.world).
Proof. intros c t _. reflexivity. Qed.

Lemma sample_ssh_frame :
  gen_respects (only_changes AspectApiserverSSH) (createApiserverSSH Sample.world).
Proof.
  intros c t _ [] Hne; simpl; first [congruence | reflexivity | split; reflexivity].
Qed.

Lemma sample_ssh_keeps_phase :
  gen_respects same_phase (createApiserverSSH Sample.world).
Proof. intros c t _. reflexivity. Qed.



(** ** The reconcile returns *)

Lemma mbind_total {A B : Type} (m : M A) (k : A -> M B) (s : State) :
  (exists res, m s = Some res) ->
  (forall a s', exists res, k a s' = Some res) ->
  exists res, mbind m k s = Some res.
Proof.
  intros [[a s1] Hm] Hk. unfold mbind. rewrite Hm. apply Hk.
Qed.

Lemma rangeMap_total {A R : Type} (w : World) (entries : list (string * A))
      (body : string * A -> M (LoopCtl R)) (s : State) :
  (forall e s0, exists res, body e s0 = Some res) ->
  exists res, rangeMap w entries body s = Some res.
Proof.
  intros Hbody. unfold rangeMap, mbind, history. apply forEach_total.
  intros e s0 _. apply Hbody.
Qed.

(** Closes the totality of a piece of straight-line code. *)
Ltac total_body := msimpl; repeat (break_goal; msimpl); eexists; reflexivity.

(** Closes the totality of a step that ranges over a map with body [tac]. *)
Ltac total_loop :=
  cbv zeta;
  repeat (apply mbind_total; [solve [eexists; reflexivity] | intros ?a ?s]; cbv zeta);
  first
    [ apply mbind_total;
      [ apply rangeMap_total; intros [? ?] ?; total_body
      | intros [?|] ?; eexists; reflexivity ]
    | total_body ].

Section Totality.

Variable w : World.
Variable cc : clusterController.

Lemma runCheckTimeout_total s : exists res, runCheckTimeout w s = Some res.
Proof. rewrite runCheckTimeout_spec. eexists. reflexivity. Qed.

Lemma pendingCreateRootCA_total s : exists res, pendingCreateRootCA w cc s = Some res.
Proof. unfold pendingCreateRootCA. total_body. Qed.

Lemma launchingCheckTokenUsers_total s :
  exists res, launchingCheckTokenUsers w cc s = Some res.
Proof. unfold launchingCheckTokenUsers. total_body. Qed.

Lemma launchingCheckApiserverPublicService_total s :
  int32_services cc = true ->
  exists res, launchingCheckApiserverPublicService w cc s = Some res.
Proof.
  intros Hwf.
  assert (Hport : exists res, GetFreeNodePort cc = Some res).
  { destruct (GetFreeNodePort_returns cc Hwf) as [res Hres].
    exists res. exact Hres. }
  destruct Hport as [[port err] Hport].
  unfold launchingCheckApiserverPublicService. msimpl.
  destruct (GetByKey (serviceStore cc) _) as [[o ex] [e|]]; msimpl;
    [eexists; reflexivity|].
  destruct ex; msimpl; [eexists; reflexivity|].
  rewrite Hport. total_body.
Qed.

Lemma launchingCheckServiceAccounts_total s :
  exists res, launchingCheckServiceAccounts w cc s = Some res.
Proof. unfold launchingCheckServiceAccounts. total_loop. Qed.

Lemma launchingCheckClusterRoleBindings_total s :
  exists res, launchingCheckClusterRoleBindings w cc s = Some res.
Proof. unfold launchingCheckClusterRoleBindings. total_loop. Qed.

Lemma launchingCheckServices_total s :
  exists res, launchingCheckServices w cc s = Some res.
Proof. unfold launchingCheckServices. total_loop. Qed.

Lemma pendingCheckSecrets_total s :
  exists res, pendingCheckSecrets w cc s = Some res.
Proof.
  unfold pendingCheckSecrets. cbv zeta.
  repeat (apply mbind_total; [solve [eexists; reflexivity] | intros ?a ?s]; cbv zeta).
  apply mbind_total;
    [ apply rangeMap_total; intros [? ?] ?; unfold secretBody, generateSecret;
      total_body
    | intros [?|] ?; eexists; reflexivity ].
Qed.

Lemma launchingCheckConfigMaps_total s :
  exists res, launchingCheckConfigMaps w cc s = Some res.
Proof. unfold launchingCheckConfigMaps. total_loop. Qed.

Lemma launchingCheckPvcs_total s :
  exists res, launchingCheckPvcs w cc s = Some res.
Proof. unfold launchingCheckPvcs. total_loop. Qed.

Lemma launchingCheckDeployments_total s :
  exists res, launchingCheckDeployments w cc s = Some res.
Proof.
  unfold launchingCheckDeployments. cbv zeta.
  apply mbind_total; [eexists; reflexivity | intros _ s1].
  apply mbind_total; [eexists; reflexivity | intros c s2]. cbv zeta.
  apply mbind_total; [rewrite resolveMasterVersion_spec; eexists; reflexivity|].
  intros [res|mv] s3; [eexists; reflexivity|]. cbv zeta.
  apply mbind_total; [eexists; reflexivity | intros _ s4].
  destruct (depsByNamespace cc _) as [deps [e|]]; [eexists; reflexivity|].
  apply mbind_total.
  - apply rangeMap_total. intros [name yamlFile] s5. unfold deploymentBody.
    match goal with |- context [existsb ?f ?l] => destruct (existsb f l) end;
      total_body.
  - intros [?|] ?; eexists; reflexivity.
Qed.

Lemma launchingCheckEtcdCluster_total s :
  exists res, launchingCheckEtcdCluster w cc s = Some res.
Proof.
  unfold launchingCheckEtcdCluster. cbv zeta.
  apply mbind_total; [eexists; reflexivity | intros _ s1].
  apply mbind_total; [eexists; reflexivity | intros c s2]. cbv zeta.
  apply mbind_total; [rewrite resolveMasterVersion_spec; eexists; reflexivity|].
  intros [res|mv] s3; [eexists; reflexivity|]. total_body.
Qed.

(** Over a cache whose node ports are [int32] values, every reconcile
    returns. *)
Lemma syncPendingCluster_total s :
  int32_services cc = true ->
  exists res, syncPendingCluster w cc s = Some res.
Proof.
  intros Hwf. unfold syncPendingCluster.
  repeat
    (first
       [ apply mbind_total;
         [ first
             [ apply runCheckTimeout_total
             | apply pendingCreateRootCA_total
             | apply launchingCheckTokenUsers_total
             | apply launchingCheckApiserverPublicService_total; exact Hwf
             | apply launchingCheckServiceAccounts_total
             | apply launchingCheckClusterRoleBindings_total
             | apply launchingCheckServices_total
             | apply pendingCheckSecrets_total
             | apply launchingCheckConfigMaps_total
             | apply launchingCheckPvcs_total
             | apply launchingCheckDeployments_total
             | apply launchingCheckEtcdCluster_total
             | apply launchingCheckDefaultPlugins_total
             | eexists; reflexivity ]
         | intros ?a ?s ]
       | match goal with
         | |- context [if ?b then _ else _] =>
             destruct b; [eexists; reflexivity|]
         end
       | cbv zeta ]).
  eexists. reflexivity.
Qed.

End Totality.

(** ** Two reconciles, run *)

(** A fresh cluster over empty caches: the first reconcile mints the root
    CA and yields; nothing else of the record moves and no later step runs. *)
Example cold_start_mints_root_ca :
  let c := Sample.cluster "c1" Sample.aws in
  exists s',
    reconcile Sample.world (Sample.controller [] []) c
    = Some ((Some RefC, None), s') /\
    cur s' = set_RootCA {| Key := Some [Byte.x02]; Cert := Some [Byte.x01] |} c /\
    map evAct (log s')
    = [ActEnter; ActEnter;
       ActInitCA {| CN := "root-ca.c1.fra1.example.com";
                    KeyRequestA := "rsa";
                    KeyRequestS := 2048;
                    CAExpiry := "87600h" |}].
Proof. eexists. split; [reflexivity|]. split; reflexivity. Qed.

(** An unknown master version: the reconcile that reaches the deployment
    step fails the cluster and creates neither a deployment nor the etcd
    cluster. *)
Example unknown_version_creates_no_workload :
  let c := set_MasterVersion "zzz" (Sample.settled "c1") in
  exists s',
    reconcile Sample.world Sample.warm c
    = Some ((Some RefC, Some (unknownMasterVersion "c1" "zzz")), s') /\
    Phase (Status (cur s')) = FailedClusterStatusPhase /\
    List.filter (fun x => match fst (fst x) with
                     | KDeployment | KEtcdCluster => true
                     | _ => false
                     end) (creates (log s')) = [].
Proof. eexists. split; [vm_compute; reflexivity|]. split; reflexivity. Qed.

(** * Further properties of the code *)

(** ** The port allocator, continued *)

Lemma isIn_ext (used1 used2 : list Z) :
  (forall q, In q used1 <-> In q used2) -> forall p, isIn p used1 = isIn p used2.
Proof.
  intros H p. destruct (isIn p used1) eqn:E1, (isIn p used2) eqn:E2; try reflexivity.
  - apply isIn_In, H, isIn_In in E1. congruence.
  - apply isIn_In, H, isIn_In in E2. congruence.
Qed.

Lemma freePortLoop_ext (cc1 cc2 : clusterController) (used1 used2 : list Z) :
  minAPIServerPort cc1 = minAPIServerPort cc2 ->
  maxAPIServerPort cc1 = maxAPIServerPort cc2 ->
  (forall p, isIn p used1 = isIn p used2) ->
  forall fuel port,
    freePortLoop cc1 used1 fuel port = freePortLoop cc2 used2 fuel port.
Proof.
  intros Hmin Hmax Hused. induction fuel as [|fuel IH]; intros port; [reflexivity|].
  simpl. unfold noFreeNodePort. rewrite Hmin, Hmax, Hused.
  destruct (port <=? maxAPIServerPort cc2); [|reflexivity].
  destruct (isIn port used2); [apply IH | reflexivity].
Qed.

(** X1: the answer of [GetFreeNodePort] depends on the cache only through
    the set of non-zero node ports it holds: two controllers with the same
    range whose caches hold the same non-zero node ports get the same answer,
    whatever the order and grouping of the services and port entries. *)
Theorem GetFreeNodePort_order_independent (cc1 cc2 : clusterController) :
  minAPIServerPort cc1 = minAPIServerPort cc2 ->
  maxAPIServerPort cc1 = maxAPIServerPort cc2 ->
  (forall q, taken cc1 q <-> taken cc2 q) ->
  GetFreeNodePort cc1 = GetFreeNodePort cc2.
Proof.
  intros Hmin Hmax Htaken. unfold GetFreeNodePort, freePortFuel.
  rewrite Hmin, Hmax. apply freePortLoop_ext; [exact Hmin | exact Hmax |].
  apply isIn_ext. intros q. rewrite !usedPorts_taken. apply Htaken.
Qed.

Lemma GetFreeNodePort_order_independent_witness :
  let cc1 := Sample.controller []
               [("cluster-a/apiserver", Sample.svc [30000; 0]);
                ("cluster-b/apiserver", Sample.svc [30001])] in
  let cc2 := Sample.controller []
               [("cluster-b/apiserver", Sample.svc [30001; 30000; 30001]);
                ("cluster-z/dns", Sample.svc [0])] in
  (forall q, taken cc1 q <-> taken cc2 q) /\
  GetFreeNodePort cc1 = GetFreeNodePort cc2.
Proof.
  intros cc1 cc2.
  assert (Htaken : forall q, taken cc1 q <-> taken cc2 q).
  { intros q. rewrite <- !usedPorts_taken. simpl. tauto. }
  split; [exact Htaken|].
  apply GetFreeNodePort_order_independent; [reflexivity | reflexivity | exact Htaken].
Defined.

(** X2: once the cache shows the port an allocation returned (on top of
    what it showed before), the next allocation returns a strictly larger
    port or the [no free NodePort] error; it never returns the same port
    again. *)
Theorem GetFreeNodePort_next_is_larger (cc cc' : clusterController) (p : Z) :
  int32_services cc' = true ->
  minAPIServerPort cc' = minAPIServerPort cc ->
  maxAPIServerPort cc' = maxAPIServerPort cc ->
  (forall q, taken cc q -> taken cc' q) ->
  taken cc' p ->
  GetFreeNodePort cc = Some (p, None) ->
  (exists p', GetFreeNodePort cc' = Some (p', None) /\ p < p')
  \/ GetFreeNodePort cc' = Some (0, Some (noFreeNodePort cc')).
Proof.
  intros Hwf Hmin Hmax Hgrow Hp Hfirst.
  assert (Hused : forall q, In q (usedPorts (StoreList (serviceStore cc))) ->
                            is_int32 q = true).
  { intros q Hq. apply (taken_int32 cc'); [exact Hwf|].
    apply Hgrow, usedPorts_taken. exact Hq. }
  assert (Hused' : forall q, In q (usedPorts (StoreList (serviceStore cc'))) ->
                             is_int32 q = true).
  { intros q Hq. apply (taken_int32 cc'); [exact Hwf|]. apply usedPorts_taken. exact Hq. }
  unfold GetFreeNodePort in *.
  destruct (freePortLoop_spec cc _ Hused (freePortFuel cc) (minAPIServerPort cc))
    as [(p0 & Hp0 & Hrange & Hfree & Hbelow)|[Herr _]];
    [unfold freePortFuel; lia | | congruence].
  assert (p0 = p) by congruence. subst p0.
  destruct (freePortLoop_spec cc' _ Hused' (freePortFuel cc') (minAPIServerPort cc'))
    as [(p' & Hp' & Hrange' & Hfree' & _)|[Herr _]];
    [unfold freePortFuel; lia | left | right; exact Herr].
  exists p'. split; [exact Hp'|].
  destruct (Z.lt_trichotomy p' p) as [Hlt|[Heq|Hgt]]; [exfalso | exfalso | exact Hgt].
  - apply Hfree'. apply usedPorts_taken. apply Hgrow. apply usedPorts_taken.
    apply Hbelow. lia.
  - subst p'. apply Hfree'. apply usedPorts_taken. exact Hp.
Qed.

Lemma GetFreeNodePort_next_is_larger_witness :
  let cc := Sample.controller [] [("cluster-a/apiserver", Sample.svc [30000])] in
  let cc' := Sample.controller []
               [("cluster-a/apiserver", Sample.svc [30000]);
                ("cluster-c1/apiserver", Sample.svc [30001])] in
  int32_services cc' = true /\
  GetFreeNodePort cc = Some (30001, None) /\
  taken cc' 30001 /\
  exists p', GetFreeNodePort cc' = Some (p', None) /\ 30001 < p'.
Proof.
  intros cc cc'.
  assert (Hwf : int32_services cc' = true) by reflexivity.
  assert (Hfirst : GetFreeNodePort cc = Some (30001, None)) by reflexivity.
  assert (Hp : taken cc' 30001) by (apply usedPorts_taken; simpl; tauto).
  assert (Hgrow : forall q, taken cc q -> taken cc' q).
  { intros q Hq. apply usedPorts_taken. apply usedPorts_taken in Hq.
    simpl in *. tauto. }
  split; [exact Hwf|]. split; [exact Hfirst|]. split; [exact Hp|].
  destruct (GetFreeNodePort_next_is_larger cc cc' 30001 Hwf eq_refl eq_refl
              Hgrow Hp Hfirst) as [Hnext|Herr].
  - exact Hnext.
  - assert (Hval : GetFreeNodePort cc' = Some (30002, None)) by reflexivity.
    congruence.
Defined.

Lemma creates_app (l1 l2 : list Event) :
  creates (l1 ++ l2) = creates l1 ++ creates l2.
Proof. apply flat_map_app. Qed.

(** X3: when [launchingCheckApiserverPublicService] hands back the record,
    the port it stored is the smallest port of the range that no cached
    service holds as a non-zero [NodePort], and the one service it created is
    the one rendered from the record as it is after the call, with the port
    and the URL in it. *)
Theorem public_service_records_free_port
        (w : World) (cc : clusterController) (s s' : State) :
  int32_services cc = true ->
  launchingCheckApiserverPublicService w cc s = Some ((Some RefC, None), s') ->
  let p := ApiserverExternalPort (Address (cur s')) in
  (minAPIServerPort cc <= p <= maxAPIServerPort cc /\
   ~ taken cc p /\
   forall q, minAPIServerPort cc <= q < p -> taken cc q) /\
  creates (log s')
  = creates (log s)
    ++ [(KService, NamespaceName w (Name (Metadata (cur s))),
         fst (LoadServiceFile w (cur s') "apiserver" (masterResourcesPath cc)))].
Proof.
  intros Hwf H p. subst p.
  assert (Hused : forall q, In q (usedPorts (StoreList (serviceStore cc))) ->
                            is_int32 q = true).
  { intros q Hq. apply (taken_int32 cc); [exact Hwf|]. apply usedPorts_taken. exact Hq. }
  assert (Hfuel : (Z.to_nat (maxAPIServerPort cc - minAPIServerPort cc + 1)
                   < freePortFuel cc)%nat) by (unfold freePortFuel; lia).
  pose proof (freePortLoop_spec cc _ Hused (freePortFuel cc) (minAPIServerPort cc)
                                Hfuel) as Hspec.
  fold (GetFreeNodePort cc) in Hspec. clear Hfuel.
  unfold launchingCheckApiserverPublicService in H.
  repeat (progress (unfold_m; simpl in H) || break_in H); try discriminate.
  injection H as <-. simpl.
  match goal with
  | E : LoadServiceFile _ _ _ _ = _ |- _ => rewrite E
  end.
  split.
  - destruct Hspec as [(pmin & Hpmin & Hrange & Hfree & Hbelow)|[Herr _]];
      [|congruence].
    match goal with
    | E : GetFreeNodePort cc = Some (?z, None) |- _ =>
        assert (pmin = z) by congruence; subst pmin
    end.
    split; [exact Hrange|]. split.
    + intros Ht. apply Hfree. apply usedPorts_taken. exact Ht.
    + intros q Hq. apply usedPorts_taken. apply Hbelow. exact Hq.
  - rewrite !creates_app. simpl. rewrite !app_nil_r. reflexivity.
Qed.

Lemma public_service_records_free_port_witness :
  let cc := Sample.controller [] [("cluster-a/apiserver", Sample.svc [30000; 30002])] in
  let s := Sample.start (Sample.cluster "c1" None) in
  int32_services cc = true /\
  exists s',
    launchingCheckApiserverPublicService Sample.world cc s
    = Some ((Some RefC, None), s') /\
    ApiserverExternalPort (Address (cur s')) = 30001 /\
    ~ taken cc 30001 /\
    creates (log s') = [(KService, "cluster-c1", Sample.obj "apiserver")].
Proof.
  intros cc s.
  assert (Hwf : int32_services cc = true) by reflexivity.
  split; [exact Hwf|].
  destruct (launchingCheckApiserverPublicService Sample.world cc s)
    as [[r s']|] eqn:Hrun.
  - pose proof Hrun as Hval. vm_compute in Hval. injection Hval as Hr Hs.
    exists s'. rewrite <- Hr in Hrun |- *. split; [reflexivity|].
    destruct (public_service_records_free_port Sample.world cc s s' Hwf Hrun)
      as [(_ & Hfree & _) Hcreates].
    assert (Hport : ApiserverExternalPort (Address (cur s')) = 30001)
      by (rewrite <- Hs; reflexivity).
    split; [exact Hport|]. split; [rewrite <- Hport; exact Hfree|].
    rewrite Hcreates. rewrite <- Hs. reflexivity.
  - vm_compute in Hrun. discriminate Hrun.
Defined.

(** ** The driver, whatever the collaborators do *)

Lemma StronglySorted_app {A : Type} (R : A -> A -> Prop) (l1 l2 : list A) :
  StronglySorted R l1 -> StronglySorted R l2 ->
  (forall a b, In a l1 -> In b l2 -> R a b) ->
  StronglySorted R (l1 ++ l2).
Proof.
  intros H1 H2 H12. induction l1 as [|x l1 IH]; simpl; [exact H2|].
  apply StronglySorted_inv in H1 as [H1 Hx]. constructor.
  - apply IH; [exact H1|]. intros a b Ha Hb. apply H12; [right; exact Ha | exact Hb].
  - apply Forall_app. split; [exact Hx|].
    apply List.Forall_forall. intros b Hb. apply H12; [left; reflexivity | exact Hb].
Qed.

Lemma StronglySorted_const {A : Type} (R : A -> A -> Prop) (l : list A) :
  (forall a b, In a l -> In b l -> R a b) -> StronglySorted R l.
Proof.
  induction l as [|x l IH]; intros H; constructor.
  - apply IH. intros a b Ha Hb. apply H; right; assumption.
  - apply List.Forall_forall. intros b Hb. apply H; [left; reflexivity | right; exact Hb].
Qed.

Lemma reached_step (k : nat) (f : Fn) (s s' : State) :
  reached k s -> ran f s s' -> fnIndex f = k -> reached (S k) s'.
Proof.
  intros [Hp Ho] Hran Hk. split; [eapply progress_step; eassumption|].
  destruct Hran as (evs & Hl & Hf). unfold in_order. rewrite Hl.
  assert (Hall : forall e, In e (enter f :: evs) -> fnIndex (evFn e) = k).
  { intros e [<-|Hin]; [exact Hk|].
    rewrite List.Forall_forall in Hf. rewrite (Hf e Hin). exact Hk. }
  apply StronglySorted_app; [exact Ho | |].
  - apply StronglySorted_const. intros a b Ha Hb.
    rewrite (Hall a Ha), (Hall b Hb). lia.
  - intros a b Ha Hb. destruct Hp as [Hev _]. specialize (Hev a Ha).
    rewrite (Hall b Hb). lia.
Qed.

Section SecretsShape.

Variable w : World.
Variable cc : clusterController.

Let returns (r : Result) (s s' : State) : Prop :=
  traced FnPendingCheckSecrets s s' /\
  ((fst r = None /\ snd r <> None) \/ exists ref, r = (Some ref, None)).

Lemma secretBody_shape recreate ns e s ctl s' :
  secretBody w cc recreate ns e s = Some (ctl, s') ->
  match ctl with
  | Continue => traced FnPendingCheckSecrets s s'
  | Return r => returns r s s'
  end.
Proof.
  intros H. destruct e as [name gen]. unfold secretBody, generateSecret in H.
  subst returns.
  run_cases H ltac:(
    simpl;
    first
      [ solve [solve_traced]
      | solve [split; [solve_traced | left; split; [reflexivity | discriminate]]]
      | solve [split; [solve_traced | right; eexists; reflexivity]] ]).
Qed.

Lemma pendingCheckSecrets_shape s r s' :
  pendingCheckSecrets w cc s = Some (r, s') ->
  ran FnPendingCheckSecrets s s' /\
  (r = (None, None)
   \/ (fst r = None /\ snd r <> None)
   \/ (exists ref, r = (Some ref, None))).
Proof.
  intros H. unfold pendingCheckSecrets in H. unfold_m. simpl in H.
  destruct (forEach _ _ _) as [[res s1]|] eqn:Hloop; [|discriminate].
  apply (forEach_spec (traced FnPendingCheckSecrets) returns) in Hloop.
  - destruct res as [r0|]; injection H as <- <-.
    + destruct Hloop as [Htr Hcase]. split.
      * apply enter_then_traced. exact Htr.
      * right. exact Hcase.
    + split; [apply enter_then_traced; exact Hloop | left; reflexivity].
  - apply traced_refl.
  - apply traced_trans.
  - intros r0 s2 s3 s4 Ht [Ht' Hcase]. split; [|exact Hcase].
    eapply traced_trans; eassumption.
  - intros e s2 ctl s2' _ Hb. eapply secretBody_shape. exact Hb.
Qed.

End SecretsShape.

Lemma reached_same_log (k : nat) (s s' : State) :
  log s' = log s -> reached k s -> reached k s'.
Proof. unfold reached, progress_log. intros ->. tauto. Qed.

(** Closes the three parts of an outcome at an exit of the driver. *)
Ltac leave_with P :=
  split; [eexists; split; [|exact P]; lia|];
  split; [discriminate|];
  simpl; intros ? ?;
  first [congruence | eexists _, _; split; [reflexivity | eassumption]].

Ltac leave_error H P :=
  simpl in *; subst;
  repeat match goal with
         | o : option error |- _ => destruct o
         | r : Result |- _ => destruct r
         end;
  simpl in *; subst; try congruence;
  unfold mret in H; injection H; intros; subst; leave_with P.

Section DriverShape.

Variable w : World.
Variable cc : clusterController.

(** What every return of [syncPendingCluster] looks like. *)
Let outcome (r : Result) (s' : State) : Prop :=
  (exists k, (1 <= k <= 13)%nat /\ reached k s') /\
  r <> (None, None) /\
  (fst r <> None -> snd r <> None ->
   exists name v, r = (Some RefC, Some (unknownMasterVersion name v)) /\
                  versions cc !! v = None).

Lemma syncPendingCluster_shape (c : Cluster) (r : Result) (s' : State) :
  reconcile w cc c = Some (r, s') -> outcome r s'.
Proof.
  unfold reconcile, syncPendingCluster. intros H. subst outcome.
  (* checkTimeout *)
  unfold mbind at 1 in H. rewrite runCheckTimeout_spec in H. simpl in H.
  assert (P1 : forall c0, reached 1 {| cur := c0; log := [enter FnCheckTimeout] |}).
  { intros c0. split; [split|].
    - intros ev [<-|[]]. simpl. lia.
    - intros f Hf. destruct f; simpl in Hf; try lia. left. reflexivity.
    - repeat constructor. }
  destruct (checkTimeout w c) as [c0 [e|]]; simpl in H.
  { unfold mret in H. injection H as <- <-. leave_with (P1 c0). }
  specialize (P1 c0).
  (* pendingCreateRootCA *)
  next_step H pendingCreateRootCA_cases H1.
  destruct H1 as [Hran Hcase].
  pose proof (reached_step _ _ _ _ P1 Hran eq_refl) as P2. clear P1 Hran.
  destruct Hcase as [(-> & _)|[(-> & _)|(Hf & He)]]; simpl in H.
  2: { unfold mret in H. injection H as <- <-. leave_with P2. }
  2: { leave_error H P2. }
  (* launchingCheckTokenUsers *)
  next_step H launchingCheckTokenUsers_cases H2.
  destruct H2 as [Hran Hcase].
  pose proof (reached_step _ _ _ _ P2 Hran eq_refl) as P3. clear P2 Hran.
  destruct Hcase as [(-> & _)|[(-> & _)|(Hf & He)]]; simpl in H.
  2: { unfold mret in H. injection H as <- <-. leave_with P3. }
  2: { leave_error H P3. }
  (* launchingCheckApiserverPublicService *)
  next_step H launchingCheckApiserverPublicService_cases H3.
  destruct H3 as [Hran Hcase].
  pose proof (reached_step _ _ _ _ P3 Hran eq_refl) as P4. clear P3 Hran.
  destruct Hcase as [(-> & _)|[(-> & _)|(Hf & He)]]; simpl in H.
  2: { unfold mret in H. injection H as <- <-. leave_with P4. }
  2: { leave_error H P4. }
  (* launchingCheckServiceAccounts *)
  next_step H launchingCheckServiceAccounts_quiet H4.
  destruct H4 as [_ Hran].
  pose proof (reached_step _ _ _ _ P4 Hran eq_refl) as P5. clear P4 Hran.
  match type of H with context [isNil ?o] => destruct o end; simpl in H.
  { unfold mret in H. injection H as <- <-. leave_with P5. }
  (* launchingCheckClusterRoleBindings *)
  next_step H launchingCheckClusterRoleBindings_quiet H5.
  destruct H5 as [_ Hran].
  pose proof (reached_step _ _ _ _ P5 Hran eq_refl) as P6. clear P5 Hran.
  match type of H with context [isNil ?o] => destruct o end; simpl in H.
  { unfold mret in H. injection H as <- <-. leave_with P6. }
  (* launchingCheckServices *)
  next_step H launchingCheckServices_quiet H6.
  destruct H6 as (_ & Hran & Hnil).
  pose proof (reached_step _ _ _ _ P6 Hran eq_refl) as P7. clear P6 Hran.
  match type of H with context [stops ?x] => destruct x as [a b] end.
  simpl in Hnil. subst a. unfold stops in H. simpl in H.
  destruct b; simpl in H.
  { unfold mret in H. injection H as <- <-. leave_with P7. }
  (* pendingCheckSecrets *)
  next_step H pendingCheckSecrets_shape H7.
  destruct H7 as [Hran Hcase].
  pose proof (reached_step _ _ _ _ P7 Hran eq_refl) as P8. clear P7 Hran.
  destruct Hcase as [->|[(Hf & He)|(ref & ->)]]; simpl in H.
  2: { leave_error H P8. }
  2: { unfold mret in H. injection H as <- <-. leave_with P8. }
  (* launchingCheckConfigMaps *)
  next_step H launchingCheckConfigMaps_quiet H8.
  destruct H8 as [_ Hran].
  pose proof (reached_step _ _ _ _ P8 Hran eq_refl) as P9. clear P8 Hran.
  match type of H with context [isNil ?o] => destruct o end; simpl in H.
  { unfold mret in H. injection H as <- <-. leave_with P9. }
  (* launchingCheckPvcs *)
  next_step H launchingCheckPvcs_quiet H9.
  destruct H9 as [_ Hran].
  pose proof (reached_step _ _ _ _ P9 Hran eq_refl) as P10. clear P9 Hran.
  match type of H with context [isNil ?o] => destruct o end; simpl in H.
  { unfold mret in H. injection H as <- <-. leave_with P10. }
  (* launchingCheckDeployments *)
  next_step H launchingCheckDeployments_cases H10.
  destruct H10 as [Hran Hcase].
  pose proof (reached_step _ _ _ _ P10 Hran eq_refl) as P11. clear P10 Hran.
  destruct Hcase as [(_ & Hnil & _)|(Hnone & -> & _)]; simpl in H.
  2: { unfold mret in H. injection H as <- <-. leave_with P11. }
  match type of H with context [isNil (snd ?x)] => destruct x as [a b] end.
  simpl in Hnil. subst a. simpl in H. destruct b; simpl in H.
  { unfold mret in H. injection H as <- <-. leave_with P11. }
  (* launchingCheckEtcdCluster *)
  next_step H launchingCheckEtcdCluster_cases H11.
  destruct H11 as [Hran Hcase].
  pose proof (reached_step _ _ _ _ P11 Hran eq_refl) as P12. clear P11 Hran.
  destruct Hcase as [(_ & Hnil & _)|(Hnone & -> & _)]; simpl in H.
  2: { unfold mret in H. injection H as <- <-. leave_with P12. }
  match type of H with context [isNil (snd ?x)] => destruct x as [a b] end.
  simpl in Hnil. simpl in H. destruct b; simpl in H.
  { rewrite Hnil in H by discriminate.
    unfold mret in H. injection H as <- <-. leave_with P12. }
  (* launchingCheckDefaultPlugins *)
  next_step H launchingCheckDefaultPlugins_quiet H12.
  destruct H12 as [_ Hran].
  pose proof (reached_step _ _ _ _ P12 Hran eq_refl) as P13. clear P12 Hran.
  match type of H with context [isNil ?o] => destruct o end; simpl in H.
  { unfold mret in H. injection H as <- <-. leave_with P13. }
  (* promotion *)
  unfold_m. simpl in H. injection H as <- <-.
  match goal with
  | |- context [reached _ ?s1] =>
      assert (P : reached 13 s1)
        by (eapply reached_same_log; [|exact P13]; reflexivity)
  end.
  leave_with P.
Qed.

End DriverShape.

(** X4: whatever the collaborators do, a reconcile never returns
    [(nil, nil)]: it reports an error or hands back a cluster; and it hands
    back a cluster together with an error only on the unknown-master-version
    path, the cluster being [c] itself and the version one the registry does
    not hold. *)
Theorem reconcile_returns_cluster_or_error
        (w : World) (cc : clusterController) (c : Cluster)
        (r : Result) (s' : State) :
  reconcile w cc c = Some (r, s') ->
  r <> (None, None) /\
  (fst r <> None -> snd r <> None ->
   exists name v, r = (Some RefC, Some (unknownMasterVersion name v)) /\
                  versions cc !! v = None).
Proof.
  intros H. apply syncPendingCluster_shape in H. destruct H as (_ & Hne & Hboth).
  split; assumption.
Qed.

Lemma reconcile_returns_cluster_or_error_witness :
  let c := set_MasterVersion "zzz" (Sample.settled "c1") in
  exists r s',
    reconcile Sample.world Sample.warm c = Some (r, s') /\
    fst r = Some RefC /\
    exists name v, snd r = Some (unknownMasterVersion name v) /\
                   versions Sample.warm !! v = None.
Proof.
  intros c.
  destruct (reconcile Sample.world Sample.warm c) as [[r s']|] eqn:Hrun.
  - pose proof Hrun as Hval. vm_compute in Hval. injection Hval as Hr Hs.
    exists r, s'. split; [reflexivity|].
    assert (Hc : fst r = Some RefC) by (rewrite <- Hr; reflexivity).
    split; [exact Hc|].
    destruct (reconcile_returns_cluster_or_error Sample.world Sample.warm c r s' Hrun)
      as [_ Hboth].
    destruct Hboth as (name & v & Heq & Hv).
    + rewrite Hc. discriminate.
    + rewrite <- Hr. discriminate.
    + exists name, v. rewrite Heq. split; [reflexivity | exact Hv].
  - vm_compute in Hrun. discriminate Hrun.
Defined.

(** X5: whatever the collaborators do, the trace of a reconcile lists the
    functions in the order of the pipeline, and the functions entered are
    exactly the first [k] of the thirteen for some [k >= 1]: no step runs
    before an earlier one, none is skipped, none runs twice, and no event
    belongs to a step that was not entered. *)
Theorem steps_run_in_order
        (w : World) (cc : clusterController) (c : Cluster)
        (r : Result) (s' : State) :
  reconcile w cc c = Some (r, s') ->
  in_order (log s') /\
  exists k, (1 <= k <= 13)%nat /\
            (forall f, In (enter f) (log s') <-> (fnIndex f < k)%nat) /\
            (forall ev, In ev (log s') -> In (enter (evFn ev)) (log s')).
Proof.
  intros H. apply syncPendingCluster_shape in H.
  destruct H as ((k & Hk & [Hev Hent] & Hord) & _).
  split; [exact Hord|]. exists k. split; [exact Hk|]. split.
  - intros f. split; [|apply Hent]. intros Hin. apply (Hev _ Hin).
  - intros ev Hin. apply Hent. apply Hev. exact Hin.
Qed.

Lemma steps_run_in_order_witness :
  let c := Sample.cluster "c1" None in
  let cc := Sample.controller [] [] in
  exists r s',
    reconcile Sample.world cc c = Some (r, s') /\
    map evFn (log s')
    = [FnCheckTimeout; FnPendingCreateRootCA; FnPendingCreateRootCA] /\
    in_order (log s') /\
    ~ In (enter FnLaunchingCheckTokenUsers) (log s').
Proof.
  intros c cc.
  destruct (reconcile Sample.world cc c) as [[r s']|] eqn:Hrun.
  - pose proof Hrun as Hval. vm_compute in Hval. injection Hval as Hr Hs.
    exists r, s'. split; [reflexivity|].
    split; [rewrite <- Hs; reflexivity|].
    destruct (steps_run_in_order Sample.world cc c r s' Hrun) as [Hord _].
    split; [exact Hord|].
    rewrite <- Hs. simpl. unfold enter. intros [Hq|[Hq|[Hq|[]]]]; discriminate Hq.
  - vm_compute in Hrun. discriminate Hrun.
Defined.

(** ** The deployments *)

Section Deployments.

Variable w : World.
Variable cc : clusterController.
Variable ns : string.
Variable masterVersion : MasterVersionT.
Variable existingDeps : list Deployment.

Let render (c : Cluster) (e : string * string) : Kind * string * Obj :=
  (KDeployment, ns,
   fst (LoadDeploymentFile w c masterVersion (masterResourcesPath cc) (dc cc) (snd e))).

Let missing (e : string * string) : bool := negb (hasRole existingDeps (fst e)).

Lemma deployments_loop (entries : list (string * string)) :
  forall s res s',
    forEach entries (deploymentBody w cc ns masterVersion existingDeps) s
    = Some (res, s') ->
    exists done rest,
      entries = done ++ rest /\
      creates (log s')
      = creates (log s) ++ map (render (cur s)) (List.filter missing done) /\
      match res with
      | None => rest = []
      | Some r => snd r <> None
      end.
Proof.
  subst render missing.
  induction entries as [|[role yamlFile] entries IH]; intros s res s' H; simpl in H.
  - unfold mret in H. injection H as <- <-. exists [], []. simpl.
    rewrite app_nil_r. split; [reflexivity|]. split; reflexivity.
  - unfold mbind in H at 1. unfold deploymentBody in H at 1.
    fold (hasRole existingDeps role) in H.
    destruct (hasRole existingDeps role) eqn:Hex.
    + unfold mret in H at 1. apply IH in H.
      destruct H as (done & rest & -> & Hcr & Hres).
      exists ((role, yamlFile) :: done), rest. simpl. rewrite Hex. simpl.
      split; [reflexivity|]. split; assumption.
    + unfold_m. simpl in H.
      destruct (LoadDeploymentFile w (cur s) masterVersion (masterResourcesPath cc)
                                   (dc cc) yamlFile) as [dep [e|]] eqn:Hload.
      * injection H as <- <-. exists [], ((role, yamlFile) :: entries). simpl.
        rewrite app_nil_r. split; [reflexivity|]. split; [reflexivity | discriminate].
      * simpl in H. destruct (clientCreate w (log s) KDeployment ns dep) as [e|].
        -- injection H as <- <-. exists [(role, yamlFile)], entries. simpl.
           rewrite Hex. simpl. rewrite Hload. rewrite creates_app. simpl.
           split; [reflexivity|]. split; [reflexivity | discriminate].
        -- apply IH in H. destruct H as (done & rest & -> & Hcr & Hres).
           exists ((role, yamlFile) :: done), rest. simpl. rewrite Hex. simpl.
           rewrite Hload. simpl in Hcr. rewrite Hcr.
           rewrite !creates_app. simpl. rewrite app_nil_r, <- app_assoc.
           split; [reflexivity|]. split; [reflexivity | exact Hres].
Qed.

End Deployments.



(** ** Side effects by step *)

Lemma emitted_refl (Q : Event -> Prop) (s : State) : emitted Q s s.
Proof. exists []. rewrite app_nil_r. split; [reflexivity | constructor]. Qed.

Lemma emitted_trans (Q : Event -> Prop) (s1 s2 s3 : State) :
  emitted Q s1 s2 -> emitted Q s2 s3 -> emitted Q s1 s3.
Proof.
  intros (e1 & Hl1 & Hf1) (e2 & Hl2 & Hf2).
  exists (e1 ++ e2). split.
  - rewrite Hl2, Hl1, app_assoc. reflexivity.
  - apply Forall_app. split; assumption.
Qed.

(** Closes an [emitted fits] goal between two explicit states. *)
Ltac solve_fits :=
  first
    [ apply emitted_refl
    | eexists; split;
      [ simpl; repeat rewrite <- app_assoc; simpl; reflexivity
      | repeat (constructor; simpl); auto ] ].

Section Fits.

Variable w : World.
Variable cc : clusterController.

Lemma pendingCreateRootCA_fits s r s' :
  pendingCreateRootCA w cc s = Some (r, s') -> emitted fits s s'.
Proof.
  intros H. unfold pendingCreateRootCA in H. run_cases H ltac:(idtac; solve_fits).
Qed.

Lemma launchingCheckTokenUsers_fits s r s' :
  launchingCheckTokenUsers w cc s = Some (r, s') -> emitted fits s s'.
Proof.
  intros H. unfold launchingCheckTokenUsers in H. run_cases H ltac:(idtac; solve_fits).
Qed.

Lemma launchingCheckApiserverPublicService_fits s r s' :
  launchingCheckApiserverPublicService w cc s = Some (r, s') -> emitted fits s s'.
Proof.
  intros H. unfold launchingCheckApiserverPublicService in H.
  run_cases H ltac:(idtac; solve_fits).
Qed.

Lemma launchingCheckServiceAccounts_fits s r s' :
  launchingCheckServiceAccounts w cc s = Some (r, s') -> emitted fits s s'.
Proof.
  intros H. unfold launchingCheckServiceAccounts, rangeMap, rangeOrder in H.
  run_cases H ltac:(idtac; solve_fits).
Qed.

Lemma launchingCheckClusterRoleBindings_fits s r s' :
  launchingCheckClusterRoleBindings w cc s = Some (r, s') -> emitted fits s s'.
Proof.
  intros H. unfold launchingCheckClusterRoleBindings, rangeMap, rangeOrder in H.
  run_cases H ltac:(idtac; solve_fits).
Qed.

Lemma launchingCheckServices_fits s r s' :
  launchingCheckServices w cc s = Some (r, s') -> emitted fits s s'.
Proof.
  intros H. unfold launchingCheckServices, rangeMap, rangeOrder in H.
  run_cases H ltac:(idtac; solve_fits).
Qed.

Lemma secretBody_fits c ns e s ctl s' :
  secretBody w cc (recreateSecretsOf c) ns e s = Some (ctl, s') -> emitted fits s s'.
Proof.
  intros H. destruct e as [name gen]. unfold secretBody, generateSecret in H.
  rewrite recreate_member in H.
  destruct (String.eqb_spec name "apiserver-ssh") as [->|Hne]; simpl in H;
    run_cases H ltac:(idtac; solve_fits).
Qed.

Lemma pendingCheckSecrets_fits s r s' :
  pendingCheckSecrets w cc s = Some (r, s') -> emitted fits s s'.
Proof.
  intros H. unfold pendingCheckSecrets in H. unfold_m. simpl in H.
  destruct (forEach _ _ _) as [[res s1]|] eqn:Hloop; [|discriminate].
  apply (forEach_inv (emitted fits)) in Hloop;
    [| apply emitted_refl | apply emitted_trans
     | intros e s2 ctl s2' _; apply secretBody_fits].
  assert (s' = s1) by (destruct res; congruence). subst s1.
  eapply emitted_trans; [|exact Hloop]. solve_fits.
Qed.

Lemma launchingCheckConfigMaps_fits s r s' :
  launchingCheckConfigMaps w cc s = Some (r, s') -> emitted fits s s'.
Proof.
  intros H. unfold launchingCheckConfigMaps, configMaps, rangeMap, rangeOrder in H.
  run_cases H ltac:(idtac; solve_fits).
Qed.

Lemma launchingCheckPvcs_fits s r s' :
  launchingCheckPvcs w cc s = Some (r, s') -> emitted fits s s'.
Proof.
  intros H. unfold launchingCheckPvcs, rangeMap, rangeOrder in H.
  run_cases H ltac:(idtac; solve_fits).
Qed.

Lemma deploymentBody_fits ns mv deps e s ctl s' :
  deploymentBody w cc ns mv deps e s = Some (ctl, s') -> emitted fits s s'.
Proof.
  intros H. destruct e as [name yamlFile]. unfold deploymentBody in H.
  match type of H with context [existsb ?f ?l] => destruct (existsb f l) end.
  all: run_cases H ltac:(idtac; solve_fits).
Qed.

Lemma launchingCheckDeployments_fits s r s' :
  launchingCheckDeployments w cc s = Some (r, s') -> emitted fits s s'.
Proof.
  intros H. unfold launchingCheckDeployments in H. unfold_m. simpl in H.
  rewrite resolveMasterVersion_spec in H. simpl in H.
  destruct (versions cc !! resolvedVersion cc (cur s)) as [mv|].
  - destruct (depsByNamespace cc _) as [existingDeps [e|]].
    + injection H as <- <-. solve_fits.
    + destruct (forEach _ _ _) as [[res s1]|] eqn:Hloop; [|discriminate].
      apply (forEach_inv (emitted fits)) in Hloop;
        [| apply emitted_refl | apply emitted_trans
         | intros e s2 ctl s2' _; apply deploymentBody_fits].
      assert (s' = s1) by (destruct res; congruence). subst s1.
      eapply emitted_trans; [|exact Hloop]. solve_fits.
  - injection H as <- <-. solve_fits.
Qed.

Lemma launchingCheckEtcdCluster_fits s r s' :
  launchingCheckEtcdCluster w cc s = Some (r, s') -> emitted fits s s'.
Proof.
  intros H. unfold launchingCheckEtcdCluster in H. unfold_m. simpl in H.
  rewrite resolveMasterVersion_spec in H. simpl in H.
  destruct (versions cc !! resolvedVersion cc (cur s)) as [mv|];
    run_cases H ltac:(idtac; solve_fits).
Qed.

Lemma defaultPluginBody_fits c ns e s ctl s' :
  defaultPluginBody w cc c ns e s = Some (ctl, s') -> emitted fits s s'.
Proof.
  intros H. destruct e as [safeName name]. unfold defaultPluginBody in H.
  run_cases H ltac:(idtac; solve_fits).
Qed.

Lemma launchingCheckDefaultPlugins_fits s r s' :
  launchingCheckDefaultPlugins w cc s = Some (r, s') -> emitted fits s s'.
Proof.
  intros H. unfold launchingCheckDefaultPlugins in H. unfold_m. simpl in H.
  destruct (forEach _ _ _) as [[res s1]|] eqn:Hloop; [|discriminate].
  apply (forEach_inv (emitted fits)) in Hloop;
    [| apply emitted_refl | apply emitted_trans
     | intros e s2 ctl s2' _; apply defaultPluginBody_fits].
  assert (s' = s1) by (destruct res; congruence). subst s1.
  eapply emitted_trans; [|exact Hloop]. solve_fits.
Qed.

End Fits.

(** Runs the next step of the driver in [H], adds its events to [G] and
    closes the exit after it. *)
Ltac fits_step H G lem :=
  unfold mbind at 1 in H;
  match type of H with
  | match ?m ?S with _ => _ end = _ =>
      let Hk := fresh "Hk" in
      destruct (m S) as [[? ?]|] eqn:Hk; [|discriminate H];
      apply lem in Hk;
      apply (emitted_trans _ _ _ _ G) in Hk; clear G; rename Hk into G
  end;
  cbv beta iota zeta in H;
  match type of H with
  | (if ?b then _ else _) _ = _ =>
      destruct b; [unfold mret in H; injection H as <- <-; exact G|]
  end.

Lemma syncPendingCluster_fits (w : World) (cc : clusterController) (c : Cluster)
      (r : Result) (s' : State) :
  reconcile w cc c = Some (r, s') -> Forall fits (log s').
Proof.
  unfold reconcile, syncPendingCluster. intros H.
  assert (Hgoal : emitted fits {| cur := c; log := [] |} s').
  2: { destruct Hgoal as (evs & Hl & Hf). rewrite Hl. exact Hf. }
  unfold mbind at 1 in H. rewrite runCheckTimeout_spec in H.
  cbv beta iota zeta in H.
  assert (G : emitted fits {| cur := c; log := [] |}
                {| cur := fst (checkTimeout w c);
                   log := log {| cur := c; log := [] |} ++ [enter FnCheckTimeout] |})
    by solve_fits.
  match type of H with
  | (if ?b then _ else _) _ = _ =>
      destruct b; [unfold mret in H; injection H as <- <-; exact G|]
  end.
  fits_step H G pendingCreateRootCA_fits.
  fits_step H G launchingCheckTokenUsers_fits.
  fits_step H G launchingCheckApiserverPublicService_fits.
  fits_step H G launchingCheckServiceAccounts_fits.
  fits_step H G launchingCheckClusterRoleBindings_fits.
  fits_step H G launchingCheckServices_fits.
  fits_step H G pendingCheckSecrets_fits.
  fits_step H G launchingCheckConfigMaps_fits.
  fits_step H G launchingCheckPvcs_fits.
  fits_step H G launchingCheckDeployments_fits.
  fits_step H G launchingCheckEtcdCluster_fits.
  fits_step H G launchingCheckDefaultPlugins_fits.
  unfold_m. simpl in H. injection H as <- <-.
  destruct G as (evs & Hl & Hf). exists evs. split; [exact Hl | exact Hf].
Qed.

Lemma deletes_In (l : list Event) (k : Kind) (ns name : string) :
  In (k, ns, name) (deletes l) <->
  exists f, In {| evFn := f; evAct := ActDelete k ns name |} l.
Proof.
  unfold deletes. rewrite in_flat_map. split.
  - intros ([f a] & Hin & Ha). simpl in Ha. destruct a; try contradiction.
    destruct Ha as [Ha|[]]. injection Ha as -> -> ->. exists f. exact Hin.
  - intros [f Hin]. eexists. split; [exact Hin|]. left. reflexivity.
Qed.

(** X7: whatever the collaborators do, a reconcile deletes nothing but
    a secret named [apiserver-ssh]: every [Delete] call in its trace is issued
    by the secrets step, for a secret of that name. *)
Theorem reconcile_deletes_only_ssh_secret
        (w : World) (cc : clusterController) (c : Cluster)
        (r : Result) (s' : State) :
  reconcile w cc c = Some (r, s') ->
  forall f k ns name,
    In {| evFn := f; evAct := ActDelete k ns name |} (log s') ->
    f = FnPendingCheckSecrets /\ k = KSecret /\ name = "apiserver-ssh".
Proof.
  intros H f k ns name Hin. apply syncPendingCluster_fits in H.
  rewrite List.Forall_forall in H. exact (H _ Hin).
Qed.

Lemma reconcile_deletes_only_ssh_secret_witness :
  let c := Sample.advanced "c1" in
  exists r s',
    reconcile Sample.world Sample.warm c = Some (r, s') /\
    deletes (log s') = [(KSecret, "cluster-c1", "apiserver-ssh")] /\
    forall k ns name,
      In (k, ns, name) (deletes (log s')) -> k = KSecret /\ name = "apiserver-ssh".
Proof.
  intros c.
  destruct (reconcile Sample.world Sample.warm c) as [[r s']|] eqn:Hrun.
  - pose proof Hrun as Hval. vm_compute in Hval. injection Hval as Hr Hs.
    exists r, s'. split; [reflexivity|].
    split; [rewrite <- Hs; reflexivity|].
    intros k ns name Hin. apply deletes_In in Hin as [f Hin].
    destruct (reconcile_deletes_only_ssh_secret Sample.world Sample.warm c r s' Hrun
                f k ns name Hin) as (_ & Hk & Hn).
    split; assumption.
  - vm_compute in Hrun. discriminate Hrun.
Defined.

Lemma stage_mono (f1 f2 : Fn) (k1 k2 : Kind) :
  stepCreates f1 = Some k1 -> stepCreates f2 = Some k2 ->
  (fnIndex f1 <= fnIndex f2)%nat -> (kindStage k1 <= kindStage k2)%nat.
Proof.
  destruct f1, f2; simpl; intros H1 H2 Hle; try discriminate;
    injection H1 as <-; injection H2 as <-; simpl; lia.
Qed.

Lemma creates_In (l : list Event) (k : Kind) (ns : string) (o : Obj) :
  In (k, ns, o) (creates l) ->
  exists f, In {| evFn := f; evAct := ActCreate k ns o |} l.
Proof.
  unfold creates. rewrite in_flat_map.
  intros ([f a] & Hin & Ha). simpl in Ha. destruct a; try contradiction.
  destruct Ha as [Ha|[]]. injection Ha as -> -> ->. exists f. exact Hin.
Qed.

Lemma creates_sorted (l : list Event) :
  in_order l -> Forall fits l ->
  StronglySorted (fun x y => (kindStage (fst (fst x)) <= kindStage (fst (fst y)))%nat)
                 (creates l).
Proof.
  induction l as [|[f a] l IH]; intros Hord Hfits; [constructor|].
  apply StronglySorted_inv in Hord as [Hord Hle].
  apply Forall_cons_iff in Hfits as [Hfit Hfits].
  specialize (IH Hord Hfits).
  destruct a; try exact IH.
  change (creates ({| evFn := f; evAct := ActCreate k ns o |} :: l))
    with ((k, ns, o) :: creates l).
  constructor; [exact IH|].
  apply List.Forall_forall. intros [[k2 ns2] o2] Hin. simpl.
  apply creates_In in Hin as [f2 Hin].
  rewrite List.Forall_forall in Hle, Hfits.
  apply (stage_mono f f2).
  - exact Hfit.
  - exact (Hfits _ Hin).
  - exact (Hle _ Hin).
Qed.

(** X8: whatever the collaborators do, the [Create] calls of a reconcile
    come in stages: the secrets, services, service accounts and role bindings
    first, then config maps, then deployments, then the etcd cluster; no
    object of an earlier stage is created after one of a later stage. *)
Theorem creates_follow_stages
        (w : World) (cc : clusterController) (c : Cluster)
        (r : Result) (s' : State) :
  reconcile w cc c = Some (r, s') ->
  StronglySorted (fun x y => (kindStage (fst (fst x)) <= kindStage (fst (fst y)))%nat)
                 (creates (log s')).
Proof.
  intros H. apply creates_sorted.
  - apply syncPendingCluster_shape in H. destruct H as ((k & _ & _ & Hord) & _).
    exact Hord.
  - eapply syncPendingCluster_fits. exact H.
Qed.

Lemma creates_follow_stages_witness :
  let c := Sample.settled "c1" in
  exists r s',
    reconcile Sample.world Sample.warm c = Some (r, s') /\
    map (fun x => fst (fst x)) (creates (log s'))
    = [KServiceAccount; KClusterRoleBinding; KService;
       KDeployment; KDeployment; KDeployment; KDeployment; KEtcdCluster] /\
    StronglySorted
      (fun x y => (kindStage (fst (fst x)) <= kindStage (fst (fst y)))%nat)
      (creates (log s')).
Proof.
  intros c.
  destruct (reconcile Sample.world Sample.warm c) as [[r s']|] eqn:Hrun.
  - pose proof Hrun as Hval. vm_compute in Hval. injection Hval as Hr Hs.
    exists r, s'. split; [reflexivity|].
    split; [rewrite <- Hs; reflexivity|].
    exact (creates_follow_stages Sample.world Sample.warm c r s' Hrun).
  - vm_compute in Hrun. discriminate Hrun.
Defined.

(** ** The steady state *)

Lemma forEach_skips {A R : Type} (P : State -> State -> Prop)
      (body : A -> M (LoopCtl R)) (entries : list A) :
  (forall s, P s s) ->
  (forall s1 s2 s3, P s1 s2 -> P s2 s3 -> P s1 s3) ->
  (forall e s, In e entries -> exists s1, body e s = Some (Continue, s1) /\ P s s1) ->
  forall s, exists s1, forEach entries body s = Some (None, s1) /\ P s s1.
Proof.
  intros Hrefl Htrans. induction entries as [|e rest IH]; intros Hbody s; simpl.
  - exists s. split; [reflexivity | apply Hrefl].
  - unfold mbind. destruct (Hbody e s (or_introl eq_refl)) as (s1 & Hb & HP).
    rewrite Hb.
    destruct (IH (fun e' s0 Hin => Hbody e' s0 (or_intror Hin)) s1)
      as (s2 & Hrun & HP2).
    exists s2. split; [exact Hrun | eapply Htrans; eassumption].
Qed.

(** Closes [cur s1 = c /\ emitted readOnly s s1] between explicit states. *)
Ltac solve_idle :=
  split;
  [ first [assumption | reflexivity | simpl; assumption]
  | first
      [ apply emitted_refl
      | eexists; split;
        [ simpl; repeat rewrite <- app_assoc; simpl; reflexivity
        | repeat (constructor; simpl); auto ] ] ].

Lemma resolvedVersion_idem (cc : clusterController) (c : Cluster) :
  resolvedVersion cc (withResolvedVersion cc c) = resolvedVersion cc c.
Proof.
  unfold resolvedVersion, withResolvedVersion.
  destruct (String.eqb (MasterVersion (Spec c)) "") eqn:E; simpl; [|rewrite E; reflexivity].
  destruct (String.eqb (ID (defaultMasterVersion cc)) ""); reflexivity.
Qed.

Lemma withResolvedVersion_idem (cc : clusterController) (c : Cluster) :
  withResolvedVersion cc (withResolvedVersion cc c) = withResolvedVersion cc c.
Proof.
  rewrite (withResolvedVersion_set cc (withResolvedVersion cc c)).
  rewrite resolvedVersion_idem. rewrite (withResolvedVersion_set cc c).
  destruct c as [m [v cl] a st u]. reflexivity.
Qed.

Section SteadySteps.

Variable w : World.
Variable cc : clusterController.
Variable c : Cluster.

Let ns : string := NamespaceName w (Name (Metadata c)).

Let idle (s s1 : State) : Prop := cur s1 = c /\ emitted readOnly s s1.

Lemma pendingCreateRootCA_steady s :
  cur s = c ->
  Key (RootCA (Status c)) <> None ->
  exists s1, pendingCreateRootCA w cc s = Some ((None, None), s1) /\ idle s s1.
Proof.
  subst ns idle. intros Hs Hk. unfold pendingCreateRootCA. msimpl. rewrite Hs.
  destruct (Key (RootCA (Status c))); [|congruence]. simpl.
  eexists. split; [reflexivity | solve_idle].
Qed.

Lemma launchingCheckTokenUsers_steady s :
  cur s = c ->
  cached (secretStore cc) (ns +:+ "/token-users") ->
  exists s1, launchingCheckTokenUsers w cc s = Some ((None, None), s1) /\ idle s s1.
Proof.
  subst ns idle. intros Hs [o Ho]. unfold launchingCheckTokenUsers. msimpl.
  rewrite Hs, Ho. msimpl. eexists. split; [reflexivity | solve_idle].
Qed.

Lemma launchingCheckApiserverPublicService_steady s :
  cur s = c ->
  cached (serviceStore cc) (ns +:+ "/" +:+ "apiserver") ->
  exists s1,
    launchingCheckApiserverPublicService w cc s = Some ((None, None), s1) /\ idle s s1.
Proof.
  subst ns idle. intros Hs [o Ho]. unfold launchingCheckApiserverPublicService.
  msimpl. rewrite Hs, Ho. msimpl. eexists. split; [reflexivity | solve_idle].
Qed.

Lemma launchingCheckServiceAccounts_steady s :
  cur s = c ->
  cached (saStore cc) (ns +:+ "/" +:+ "etcd-operator") ->
  exists s1, launchingCheckServiceAccounts w cc s = Some (None, s1) /\ idle s s1.
Proof.
  subst ns idle. intros Hs [o Ho].
  unfold launchingCheckServiceAccounts, rangeMap, rangeOrder. msimpl.
  rewrite Hs, Ho. msimpl. eexists. split; [reflexivity | solve_idle].
Qed.

Lemma launchingCheckClusterRoleBindings_steady s :
  cur s = c ->
  snd (LoadClusterRoleBindingFile w ns "etcd-operator" (masterResourcesPath cc)) = None ->
  cached (clusterRoleBindingStore cc)
         (ObjName (fst (LoadClusterRoleBindingFile w ns "etcd-operator"
                                                   (masterResourcesPath cc)))) ->
  exists s1, launchingCheckClusterRoleBindings w cc s = Some (None, s1) /\ idle s s1.
Proof.
  subst ns idle. intros Hs Hl [o Ho].
  unfold launchingCheckClusterRoleBindings, rangeMap, rangeOrder. msimpl.
  rewrite Hs.
  destruct (LoadClusterRoleBindingFile w _ _ _) as [binding err].
  simpl in Hl, Ho. subst err. msimpl. rewrite Ho. msimpl.
  eexists. split; [reflexivity | solve_idle].
Qed.

Lemma launchingCheckServices_steady s :
  cur s = c ->
  cached (serviceStore cc) (ns +:+ "/" +:+ "apiserver-insecure") ->
  exists s1, launchingCheckServices w cc s = Some ((None, None), s1) /\ idle s s1.
Proof.
  subst ns idle. intros Hs [o Ho].
  unfold launchingCheckServices, rangeMap, rangeOrder. msimpl.
  rewrite Hs, Ho. msimpl. eexists. split; [reflexivity | solve_idle].
Qed.

Lemma pendingCheckSecrets_steady s :
  cur s = c ->
  ApiserverSSH (Status c) <> "" ->
  cached (secretStore cc) (ns +:+ "/" +:+ "apiserver-auth") ->
  cached (secretStore cc) (ns +:+ "/" +:+ "apiserver-ssh") ->
  exists s1, pendingCheckSecrets w cc s = Some ((None, None), s1) /\ idle s s1.
Proof.
  subst ns idle. intros Hs Hssh [oa Hoa] [os Hos].
  unfold pendingCheckSecrets. unfold_m. simpl. rewrite Hs.
  match goal with
  | |- context [forEach ?l ?b ?S] =>
      assert (Hloop : exists s1, forEach l b S = Some (None, s1) /\
                                 (cur s1 = cur S /\ emitted readOnly S s1))
  end.
  { apply (forEach_skips (fun s0 s1 => cur s1 = cur s0 /\ emitted readOnly s0 s1)).
    - intros s0. split; [reflexivity | apply emitted_refl].
    - intros s1 s2 s3 [Hc1 He1] [Hc2 He2]. split; [congruence|].
      eapply emitted_trans; eassumption.
    - intros [name gen] s0 Hin. apply rangeOrder_In in Hin.
      unfold secrets in Hin. simpl in Hin.
      destruct Hin as [Heq|[Heq|[]]]; injection Heq as <- <-;
        unfold secretBody; rewrite recreate_member; msimpl.
      + rewrite Hoa. msimpl. eexists. split; [reflexivity | solve_idle].
      + rewrite Hos. msimpl.
        destruct (ApiserverSSH (Status c)) as [|ch rest]; [congruence|]. simpl.
        eexists. split; [reflexivity | solve_idle]. }
  destruct Hloop as (s1 & Hrun & Hcur & Hrd). rewrite Hrun.
  eexists. split; [reflexivity|]. split; [simpl in Hcur; congruence|].
  eapply emitted_trans; [|exact Hrd].
  eexists; split; [simpl; reflexivity | repeat (constructor; simpl); auto].
Qed.

Lemma launchingCheckConfigMaps_steady s :
  cur s = c ->
  (hasAWS c = true -> cached (cmStore cc) (ns +:+ "/" +:+ "aws-cloud-config")) ->
  exists s1, launchingCheckConfigMaps w cc s = Some (None, s1) /\ idle s s1.
Proof.
  subst ns idle. intros Hs Hc.
  unfold launchingCheckConfigMaps, configMaps, rangeMap, rangeOrder. msimpl.
  rewrite Hs. unfold hasAWS in Hc.
  destruct (Cloud (Spec c)) as [[[a|]]|]; msimpl.
  - destruct (Hc eq_refl) as [o Ho]. rewrite Ho. msimpl.
    eexists. split; [reflexivity | solve_idle].
  - eexists. split; [reflexivity | solve_idle].
  - eexists. split; [reflexivity | solve_idle].
Qed.

Lemma launchingCheckPvcs_steady s :
  cur s = c ->
  exists s1, launchingCheckPvcs w cc s = Some (None, s1) /\ idle s s1.
Proof.
  subst ns idle. intros Hs. unfold launchingCheckPvcs, rangeMap, rangeOrder. msimpl.
  eexists. split; [reflexivity | solve_idle].
Qed.

Lemma launchingCheckDeployments_steady s masterVersion :
  cur s = c ->
  versions cc !! resolvedVersion cc c = Some masterVersion ->
  snd (depsByNamespace cc ns) = None ->
  (forall e, In e (deploymentFiles masterVersion) ->
             hasRole (fst (depsByNamespace cc ns)) (fst e) = true) ->
  exists s1,
    launchingCheckDeployments w cc s = Some ((None, None), s1) /\
    cur s1 = withResolvedVersion cc c /\ emitted readOnly s s1.
Proof.
  subst ns idle. intros Hs Hv Herr Hroles.
  unfold launchingCheckDeployments. unfold_m. simpl.
  rewrite resolveMasterVersion_spec. simpl. rewrite Hs, Hv.
  destruct (depsByNamespace cc _) as [existingDeps err].
  simpl in Herr, Hroles. subst err.
  match goal with
  | |- context [forEach ?l ?b ?S] =>
      assert (Hloop : exists s1, forEach l b S = Some (None, s1) /\ s1 = S)
  end.
  { apply (forEach_skips (fun s0 s1 => s1 = s0)); [reflexivity | congruence |].
    intros [role yamlFile] s0 Hin. apply rangeOrder_In in Hin.
    unfold deploymentBody. fold (hasRole existingDeps role).
    pose proof (Hroles (role, yamlFile) Hin) as Hr. simpl in Hr. rewrite Hr.
    exists s0. split; reflexivity. }
  destruct Hloop as (s1 & Hrun & ->). rewrite Hrun.
  eexists. split; [reflexivity|]. split; [reflexivity|].
  eexists; split;
    [simpl; repeat rewrite <- app_assoc; simpl; reflexivity
    | repeat (constructor; simpl); auto].
Qed.

Lemma launchingCheckEtcdCluster_steady s masterVersion :
  cur s = withResolvedVersion cc c ->
  versions cc !! resolvedVersion cc c = Some masterVersion ->
  snd (LoadEtcdClusterFile w masterVersion (masterResourcesPath cc)
                           (EtcdClusterYaml masterVersion)) = None ->
  cached (etcdClusterStore cc)
         (ns +:+ "/" +:+
          ObjName (fst (LoadEtcdClusterFile w masterVersion (masterResourcesPath cc)
                                            (EtcdClusterYaml masterVersion)))) ->
  exists s1,
    launchingCheckEtcdCluster w cc s = Some ((Some RefC, None), s1) /\
    cur s1 = withResolvedVersion cc c /\ emitted readOnly s s1.
Proof.
  subst ns idle. intros Hs Hv Hl [o Ho].
  unfold launchingCheckEtcdCluster. unfold_m. simpl.
  rewrite resolveMasterVersion_spec. simpl.
  rewrite Hs, resolvedVersion_idem, Hv, withResolvedVersion_idem,
    withResolvedVersion_Name.
  destruct (LoadEtcdClusterFile w _ _ _) as [etcd err].
  simpl in Hl, Ho. subst err. msimpl. rewrite Ho. msimpl.
  eexists. split; [reflexivity|]. split; [reflexivity|].
  eexists; split;
    [simpl; repeat rewrite <- app_assoc; simpl; reflexivity
    | repeat (constructor; simpl); auto].
Qed.

Lemma launchingCheckDefaultPlugins_steady s :
  Name (Metadata (cur s)) = Name (Metadata c) ->
  (forall e, In e defaultPlugins ->
             cached (addonStore cc) (addonProbeKey w c (fst e))) ->
  exists s1,
    launchingCheckDefaultPlugins w cc s = Some (None, s1) /\
    cur s1 = cur s /\ emitted readOnly s s1.
Proof.
  subst ns idle. intros Hs Hc.
  unfold launchingCheckDefaultPlugins. unfold_m. simpl. rewrite Hs.
  match goal with
  | |- context [forEach ?l ?b ?S] =>
      assert (Hloop : exists s1, forEach l b S = Some (None, s1) /\
                                 (cur s1 = cur S /\ emitted readOnly S s1))
  end.
  { apply (forEach_skips (fun s0 s1 => cur s1 = cur s0 /\ emitted readOnly s0 s1)).
    - intros s0. split; [reflexivity | apply emitted_refl].
    - intros s1 s2 s3 [Hc1 He1] [Hc2 He2]. split; [congruence|].
      eapply emitted_trans; eassumption.
    - intros [safeName name] s0 Hin. apply rangeOrder_In in Hin.
      destruct (Hc _ Hin) as [o Ho]. unfold addonProbeKey in Ho. simpl in Ho.
      unfold defaultPluginBody. msimpl. rewrite Ho. msimpl.
      eexists. split; [reflexivity | solve_idle]. }
  destruct Hloop as (s1 & Hrun & Hcur & Hrd). rewrite Hrun.
  eexists. split; [reflexivity|]. split; [exact Hcur|].
  eapply emitted_trans; [|exact Hrd].
  eexists; split; [simpl; reflexivity | repeat (constructor; simpl); auto].
Qed.

End SteadySteps.

(** Runs the next step of the driver by its steady-state lemma [L]. *)
Ltac steady_step L s1 Hc G :=
  let Hrun := fresh "Hrun" in
  let Hrd := fresh "Hrd" in
  destruct L as (s1 & Hrun & Hc & Hrd);
  unfold mbind at 1; rewrite Hrun; simpl;
  apply (emitted_trans _ _ _ _ G) in Hrd; clear G Hrun; rename Hrd into G.


Lemma steady_materialised :
  materialised Sample.world Steady.controller Steady.cluster.
Proof.
  unfold materialised. simpl.
  repeat match goal with
         | |- _ /\ _ => split
         | |- cached _ _ => eexists; vm_compute; reflexivity
         | |- _ <> _ => discriminate
         | |- _ -> cached _ _ => intros _
         | |- _ = _ => reflexivity
         end.
  - exists Sample.v1. split; [reflexivity|]. split; [reflexivity|]. split; [|split].
    + intros e Hin. simpl in Hin.
      repeat match goal with
             | H : _ \/ _ |- _ => destruct H as [H|H]
             end; try contradiction; subst e; vm_compute; reflexivity.
    + reflexivity.
    + eexists. vm_compute. reflexivity.
  - intros e Hin. simpl in Hin.
    repeat match goal with
           | H : _ \/ _ |- _ => destruct H as [H|H]
           end; try contradiction; subst e; eexists; vm_compute; reflexivity.
Qed.


(** ** The etcd cluster after the deployments *)

(** X10: after a deployments step that reported no error, the
    etcd-cluster step finds the master version in the registry: its
    unknown-version exit is never taken, it leaves the record as the
    deployments step left it, and it returns no cluster together with an
    error. *)
Theorem etcd_step_after_deployments
        (w : World) (cc : clusterController)
        (s : State) (r : Result) (s1 : State) (r' : Result) (s2 : State) :
  launchingCheckDeployments w cc s = Some (r, s1) ->
  snd r = None ->
  launchingCheckEtcdCluster w cc s1 = Some (r', s2) ->
  (exists masterVersion,
      versions cc !! MasterVersion (Spec (cur s1)) = Some masterVersion) /\
  cur s2 = cur s1 /\
  (snd r' <> None -> fst r' = None).
Proof.
  intros H1 Hok H2.
  apply launchingCheckDeployments_cases in H1.
  destruct H1 as [_ [(Hknown & _ & Hc1)|(_ & -> & _)]]; [|discriminate Hok].
  apply launchingCheckEtcdCluster_cases in H2.
  rewrite Hc1 in H2 |- *. rewrite resolvedVersion_idem, withResolvedVersion_idem in H2.
  destruct H2 as [_ [(_ & Hnil & Hc2)|(Hnone & _ & _)]]; [|contradiction].
  split; [|split; [exact Hc2 | exact Hnil]].
  rewrite withResolvedVersion_MasterVersion.
  destruct (versions cc !! resolvedVersion cc (cur s)) as [mv|]; [|contradiction].
  exists mv. reflexivity.
Qed.

Lemma etcd_step_after_deployments_witness :
  let c := Steady.cluster in
  exists r s1 r' s2,
    launchingCheckDeployments Sample.world Sample.warm (Sample.start c) = Some (r, s1) /\
    snd r = None /\
    launchingCheckEtcdCluster Sample.world Sample.warm s1 = Some (r', s2) /\
    MasterVersion (Spec c) = "" /\
    MasterVersion (Spec (cur s1)) = "v1" /\
    cur s2 = cur s1.
Proof.
  intros c.
  destruct (launchingCheckDeployments Sample.world Sample.warm (Sample.start c))
    as [[r s1]|] eqn:H1.
  - pose proof H1 as Hv1. vm_compute in Hv1. injection Hv1 as Hr Hs1.
    destruct (launchingCheckEtcdCluster Sample.world Sample.warm s1)
      as [[r' s2]|] eqn:H2.
    + exists r, s1, r', s2. split; [reflexivity|].
      assert (Hok : snd r = None) by (rewrite <- Hr; reflexivity).
      split; [exact Hok|]. split; [exact H2|]. split; [reflexivity|].
      split; [rewrite <- Hs1; reflexivity|].
      destruct (etcd_step_after_deployments Sample.world Sample.warm
                  (Sample.start c) r s1 r' s2 H1 Hok H2) as (_ & Hcur & _).
      exact Hcur.
    + rewrite <- Hs1 in H2. vm_compute in H2. discriminate H2.
  - vm_compute in H1. discriminate H1.
Defined.

(** ** The default add-ons *)

Section Addons.

Variable w : World.
Variable cc : clusterController.
Variable c : Cluster.
Variable ns : string.

Let created (e : string * string) : string * ClusterAddon :=
  ("cluster-" +:+ Name (Metadata c), addonOf e).

Let missing (e : string * string) : bool :=
  absent (addonStore cc) (ns +:+ "/" +:+ "addon-default-" +:+ fst e).

Lemma defaultPlugins_loop (entries : list (string * string)) :
  forall s res s',
    forEach entries (defaultPluginBody w cc c ns) s = Some (res, s') ->
    exists done rest,
      entries = done ++ rest /\
      addonCreates (log s')
      = addonCreates (log s) ++ map created (List.filter missing done) /\
      match res with
      | None => rest = []
      | Some r => r <> None
      end.
Proof.
  subst created missing. unfold absent.
  induction entries as [|[safeName name] entries IH]; intros s res s' H; simpl in H.
  - unfold mret in H. injection H as <- <-. exists [], []. simpl.
    rewrite app_nil_r. split; [reflexivity|]. split; reflexivity.
  - unfold mbind in H at 1. unfold defaultPluginBody in H at 1.
    unfold_m. simpl in H.
    destruct (GetByKey (addonStore cc) _) as [[o ex] [e|]] eqn:Hget; simpl in H.
    + injection H as <- <-. exists [], ((safeName, name) :: entries). simpl.
      rewrite addonCreates_app. simpl. rewrite !app_nil_r.
      split; [reflexivity|]. split; [reflexivity | discriminate].
    + destruct ex; simpl in H.
      * apply IH in H. destruct H as (done & rest & -> & Hcr & Hres).
        exists ((safeName, name) :: done), rest. simpl. rewrite Hget. simpl.
        rewrite Hcr. simpl. rewrite addonCreates_app. simpl. rewrite app_nil_r.
        split; [reflexivity|]. split; [reflexivity | exact Hres].
      * destruct (tprCreate w _ _ _) as [e|].
        -- injection H as <- <-. exists [(safeName, name)], entries. simpl.
           rewrite Hget. simpl. rewrite !addonCreates_app. simpl.
           rewrite app_nil_r.
           split; [reflexivity|]. split; [reflexivity | discriminate].
        -- apply IH in H. destruct H as (done & rest & -> & Hcr & Hres).
           exists ((safeName, name) :: done), rest. simpl. rewrite Hget. simpl.
           rewrite Hcr. simpl. rewrite !addonCreates_app. simpl.
           rewrite app_nil_r, <- app_assoc. simpl.
           split; [reflexivity|]. split; [reflexivity | exact Hres].
Qed.

End Addons.

(** X11: the add-ons [launchingCheckDefaultPlugins] creates are, of
    the default plug-ins it got to, exactly those whose probe of the add-on
    cache finds nothing, each once, named [addon-default-<safe-name>], in
    phase Pending and in the namespace [cluster-<name>]; when the step
    returns no error it got to all five. *)
Theorem default_addons_created_when_absent
        (w : World) (cc : clusterController) (s : State)
        (r : option error) (s' : State) :
  launchingCheckDefaultPlugins w cc s = Some (r, s') ->
  let c := cur s in
  exists done rest,
    Permutation (done ++ rest) defaultPlugins /\
    addonCreates (log s')
    = addonCreates (log s)
      ++ map (fun e => ("cluster-" +:+ Name (Metadata c), addonOf e))
             (List.filter
                (fun e => absent (addonStore cc) (addonProbeKey w c (fst e))) done) /\
    (r = None -> rest = []).
Proof.
  intros H c. subst c. unfold launchingCheckDefaultPlugins in H.
  unfold_m. simpl in H.
  destruct (forEach _ _ _) as [[res s1]|] eqn:Hloop; [|discriminate].
  apply defaultPlugins_loop in Hloop. simpl in Hloop.
  destruct Hloop as (done & rest & Hsplit & Hcr & Hres).
  exists done, rest. split; [|split].
  - rewrite <- Hsplit. apply rangeOrder_Permutation.
  - assert (s' = s1) by (destruct res; congruence). subst s1.
    rewrite Hcr. rewrite addonCreates_app. simpl. rewrite app_nil_r. reflexivity.
  - intros Hr. destruct res as [r0|]; [|exact Hres].
    exfalso. apply Hres. injection H as <- _. exact Hr.
Qed.

Lemma default_addons_created_when_absent_witness :
  let c := Sample.cluster "c1" None in
  let cc := Sample.withAddons
              [("cluster-c1/addon-default-heapster", Sample.obj "addon-default-heapster");
               ("cluster-c2/addon-default-kubedns", Sample.obj "addon-default-kubedns")]
              (Sample.controller [] []) in
  exists s',
    launchingCheckDefaultPlugins Sample.world cc (Sample.start c) = Some (None, s') /\
    map (fun x => AddonName (snd x)) (addonCreates (log s'))
    = ["flannel-cni"; "kubedns"; "kube-proxy"; "kubernetes-dashboard"] /\
    exists done,
      Permutation done defaultPlugins /\
      addonCreates (log s')
      = map (fun e => ("cluster-c1", addonOf e))
            (List.filter
               (fun e => absent (addonStore cc)
                                (addonProbeKey Sample.world c (fst e))) done).
Proof.
  intros c cc.
  destruct (launchingCheckDefaultPlugins Sample.world cc (Sample.start c))
    as [[r s']|] eqn:Hrun.
  - pose proof Hrun as Hval. vm_compute in Hval. injection Hval as Hr Hs.
    exists s'. rewrite <- Hr in Hrun |- *. split; [reflexivity|].
    split; [rewrite <- Hs; reflexivity|].
    destruct (default_addons_created_when_absent Sample.world cc (Sample.start c)
                _ s' Hrun) as (done & rest & Hperm & Hcr & Hall).
    rewrite (Hall eq_refl), app_nil_r in Hperm.
    exists done. split; [exact Hperm | exact Hcr].
  - vm_compute in Hrun. discriminate Hrun.
Defined.

(** * Hetzner server sizes *)

Section HetznerSizes.

Import Hetzner.

Variable float32 : Type.

Lemma standard_not_dedicated (name : string) :
  MatchString reStandardSize name = true ->
  MatchString reDedicatedSize name = false.
Proof.
  unfold reStandardSize, reDedicatedSize, MatchString.
  destruct name as [|a [|b name]]; cbn [String.prefix]; try discriminate;
    repeat match goal with
           | |- context [Ascii.ascii_dec ?x ?y] =>
               destruct (Ascii.ascii_dec x y); subst
           end;
    congruence.
Qed.

Lemma fold_addSize (sizes : list (ServerType float32)) :
  forall acc,
    fold_left addSize sizes acc
    = {| Standard :=
           Standard acc
           ++ map sizeOf
                (List.filter (fun t => MatchString reStandardSize (Name t)) sizes);
         Dedicated :=
           Dedicated acc
           ++ map sizeOf
                (List.filter (fun t => MatchString reDedicatedSize (Name t)) sizes) |}.
Proof.
  induction sizes as [|size sizes IH]; intros acc.
  - simpl. rewrite !app_nil_r. destruct acc; reflexivity.
  - cbn [fold_left List.filter]. rewrite IH. unfold addSize.
    destruct (MatchString reStandardSize (Name size)) eqn:Hs.
    + rewrite (standard_not_dedicated _ Hs). cbn [Standard Dedicated map].
      rewrite <- app_assoc. reflexivity.
    + destruct (MatchString reDedicatedSize (Name size)); cbn [Standard Dedicated map].
      * rewrite <- app_assoc. reflexivity.
      * reflexivity.
Qed.

End HetznerSizes.

(** X12: when the listing succeeds, [HetznerSize] returns, in the order
    of the listing, the sizes whose name starts with [cx] as the standard
    ones and those whose name starts with [ccx] as the dedicated ones; every
    other size is left out, and no size is in both lists. *)
Theorem hetzner_sizes_by_prefix
        (float32 : Type) (client : Hetzner.ServerTypeClient float32) (token : string)
        (sizeList : Hetzner.HetznerSizeList float32) :
  Hetzner.HetznerSize client token = (sizeList, None) ->
  let sizes := fst (client token {| Hetzner.Page := 1; Hetzner.PerPage := 1000 |}) in
  Hetzner.Standard sizeList
  = map Hetzner.sizeOf
        (List.filter (fun t => String.prefix "cx" (Hetzner.Name t)) sizes) /\
  Hetzner.Dedicated sizeList
  = map Hetzner.sizeOf
        (List.filter (fun t => String.prefix "ccx" (Hetzner.Name t)) sizes) /\
  forall s, ~ (In s (Hetzner.Standard sizeList) /\ In s (Hetzner.Dedicated sizeList)).
Proof.
  intros H sizes. subst sizes. unfold Hetzner.HetznerSize in H.
  destruct (client token _) as [sizes [e|]]; [discriminate H|].
  injection H as <-. rewrite fold_addSize. simpl.
  split; [reflexivity|]. split; [reflexivity|].
  intros s [Hstd Hded].
  apply in_map_iff in Hstd as (t1 & <- & H1). apply in_map_iff in Hded as (t2 & Heq & H2).
  apply filter_In in H1 as [_ H1]. apply filter_In in H2 as [_ H2].
  assert (Hname : Hetzner.Name t2 = Hetzner.Name t1)
    by (apply (f_equal Hetzner.SizeName) in Heq; exact Heq).
  rewrite Hname in H2.
  pose proof (standard_not_dedicated (Hetzner.Name t1) H1) as Hno.
  simpl in Hno. congruence.
Qed.

Lemma hetzner_sizes_by_prefix_witness :
  let size (id : Z) (name : string) : Hetzner.ServerType Z :=
    {| Hetzner.ID := id; Hetzner.Name := name; Hetzner.Description := name;
       Hetzner.Cores := 2; Hetzner.Memory := 4; Hetzner.Disk := 40 |} in
  let client : Hetzner.ServerTypeClient Z :=
    fun _ _ => ([size 1 "cx11"; size 2 "ccx21"; size 3 "cpx31"; size 4 "cx21";
                 size 5 "c"], None) in
  exists sizeList,
    Hetzner.HetznerSize client "token" = (sizeList, None) /\
    map Hetzner.SizeName (Hetzner.Standard sizeList) = ["cx11"; "cx21"] /\
    map Hetzner.SizeName (Hetzner.Dedicated sizeList) = ["ccx21"].
Proof.
  intros size client. eexists. split; [reflexivity|].
  destruct (hetzner_sizes_by_prefix Z client "token" _ eq_refl) as (Hstd & Hded & _).
  rewrite Hstd, Hded. split; reflexivity.
Defined.

(** * The reader of the list-datacenters response *)

Lemma quot_100_is_2 (code : Z) : Z.quot code 100 = 2 <-> 200 <= code <= 299.
Proof.
  pose proof (Z.quot_rem' code 100) as Hqr.
  destruct (Z.le_ge_cases 0 code) as [Hpos|Hneg].
  - pose proof (Z.rem_bound_pos code 100 Hpos ltac:(lia)). lia.
  - pose proof (Z.rem_bound_pos_neg code 100 ltac:(lia) Hneg). lia.
Qed.

(** X13: [ReadResponse] returns a result and no error exactly when the
    status code is from 200 to 299 and the consumer reports no error other
    than [io.EOF]; an error of the consumer other than [io.EOF] is returned as
    it is, without a result; outside 200-299 with the body consumed, the
    error is the default response, which carries the status code. *)
Theorem read_response_succeeds_on_2xx
        (DatacenterList ErrorResponse : Type)
        (response : Datacenters.ClientResponse)
        (consumer : Datacenters.Consumer DatacenterList ErrorResponse) :
  let code := Datacenters.Code response in
  let body := Datacenters.Body response in
  let fail :=
    Datacenters.failure
      (if code =? 200 then snd (Datacenters.ConsumeList consumer body)
       else snd (Datacenters.ConsumeErrorResponse consumer body)) in
  let out := Datacenters.ReadResponse response consumer in
  (snd out = None <-> fail = None /\ 200 <= code <= 299) /\
  (fst out <> None <-> snd out = None) /\
  (forall e, fail = Some e -> out = (None, Some (Datacenters.Consumed e))) /\
  (fail = None -> ~ 200 <= code <= 299 ->
   exists o, out = (None, Some (Datacenters.Unexpected o)) /\
             Datacenters._statusCode o = code).
Proof.
  intros code body fail out. subst code body fail out.
  unfold Datacenters.ReadResponse, Datacenters.readResponseOK,
    Datacenters.readResponseDefault.
  destruct (Z.eqb_spec (Datacenters.Code response) 200) as [Heq|Hne].
  - destruct (Datacenters.ConsumeList consumer _) as [payload err]. simpl.
    destruct (Datacenters.failure err) as [e|]; simpl.
    + split; [split; [discriminate | intros [Hf _]; discriminate Hf]|].
      split; [split; intros Hx; [contradiction | discriminate Hx]|].
      split; [intros e' He'; injection He' as <-; reflexivity|].
      intros Hf. discriminate Hf.
    + split; [split; [intros _; split; [reflexivity | lia] | reflexivity]|].
      split; [split; [reflexivity | discriminate]|].
      split; [intros e' He'; discriminate He'|].
      intros _ Hout. exfalso. apply Hout. lia.
  - destruct (Datacenters.ConsumeErrorResponse consumer _) as [payload err]. simpl.
    destruct (Datacenters.failure err) as [e|]; simpl.
    + split; [split; [discriminate | intros [Hf _]; discriminate Hf]|].
      split; [split; intros Hx; [contradiction | discriminate Hx]|].
      split; [intros e' He'; injection He' as <-; reflexivity|].
      intros Hf. discriminate Hf.
    + destruct (Z.eqb_spec (Z.quot (Datacenters.Code response) 100) 2) as [Hq|Hq];
        simpl.
      * apply quot_100_is_2 in Hq.
        split; [split; [intros _; split; [reflexivity | exact Hq] | reflexivity]|].
        split; [split; [reflexivity | discriminate]|].
        split; [intros e' He'; discriminate He'|].
        intros _ Hout. contradiction.
      * rewrite quot_100_is_2 in Hq.
        split; [split; [discriminate | intros [_ Hr]; contradiction]|].
        split; [split; intros Hx; [contradiction | discriminate Hx]|].
        split; [intros e' He'; discriminate He'|].
        intros _ _. eexists. split; reflexivity.
Qed.

Lemma read_response_succeeds_on_2xx_witness :
  let consumer : Datacenters.Consumer (list string) string :=
    {| Datacenters.ConsumeList := fun _ => (["fra1"], Some Datacenters.io_EOF);
       Datacenters.ConsumeErrorResponse := fun _ => ("not found", None) |} in
  let ok := {| Datacenters.Code := 200; Datacenters.Body := [] |} in
  let created := {| Datacenters.Code := 201; Datacenters.Body := [] |} in
  let missing := {| Datacenters.Code := 404; Datacenters.Body := [] |} in
  snd (Datacenters.ReadResponse ok consumer) = None /\
  snd (Datacenters.ReadResponse created consumer) = None /\
  exists o,
    Datacenters.ReadResponse missing consumer
    = (None, Some (Datacenters.Unexpected o)) /\
    Datacenters._statusCode o = 404.
Proof.
  intros consumer ok created missing.
  destruct (read_response_succeeds_on_2xx (list string) string ok consumer)
    as ([_ Hok] & _).
  destruct (read_response_succeeds_on_2xx (list string) string created consumer)
    as ([_ Hcreated] & _).
  destruct (read_response_succeeds_on_2xx (list string) string missing consumer)
    as (_ & _ & _ & Hmissing).
  split; [apply Hok; simpl; split; [reflexivity | lia]|].
  split; [apply Hcreated; simpl; split; [reflexivity | lia]|].
  apply Hmissing; [reflexivity | simpl; lia].
Defined.

(** * The secrets, continued *)

Lemma createdSecrets_app (l1 l2 : list Event) :
  createdSecrets (l1 ++ l2) = createdSecrets l1 ++ createdSecrets l2.
Proof. apply flat_map_app. Qed.

Section SecretsCreated.

Variable w : World.
Variable cc : clusterController.
Variable recreateSecrets : gset string.
Variable ns : string.

Let needed (e : string * SecretGen) : bool :=
  negb (existsIn (secretStore cc) (ns +:+ "/" +:+ fst e))
  || bool_decide (fst e ∈ recreateSecrets).

Let keyOf (e : string * SecretGen) : string := ns +:+ "/" +:+ fst e.

Lemma secretBody_created e s ctl s1 :
  secretBody w cc recreateSecrets ns e s = Some (ctl, s1) ->
  createdSecrets (log s1)
  = createdSecrets (log s)
    ++ match ctl with
       | Return (None, _) => []
       | Return (Some _, _) | Continue => if needed e then [keyOf e] else []
       end
  /\ match ctl with
     | Return r => r <> (None, None)
     | Continue => True
     end.
Proof.
  subst needed keyOf. intros H. destruct e as [name gen]. simpl.
  unfold secretBody, generateSecret in H. unfold existsIn.
  unfold_m. simpl in H.
  destruct (GetByKey (secretStore cc) _) as [[o ex] err]; simpl in H |- *.
  destruct (bool_decide (name ∈ recreateSecrets)); simpl in H;
    run_cases H ltac:(
      simpl; rewrite ?createdSecrets_app; simpl; rewrite ?app_nil_r;
      repeat rewrite <- app_assoc; simpl;
      split; first [reflexivity | discriminate | exact I]).
Qed.

Lemma secrets_loop (entries : list (string * SecretGen)) :
  forall s res s',
    forEach entries (secretBody w cc recreateSecrets ns) s = Some (res, s') ->
    exists done rest,
      entries = done ++ rest /\
      createdSecrets (log s')
      = createdSecrets (log s) ++ map keyOf (List.filter needed done) /\
      match res with
      | None => rest = []
      | Some r => r <> (None, None)
      end.
Proof.
  induction entries as [|e entries IH]; intros s res s' H; simpl in H.
  - unfold mret in H. injection H as <- <-. exists [], []. simpl.
    rewrite app_nil_r. split; [reflexivity|]. split; reflexivity.
  - unfold mbind in H at 1.
    destruct (secretBody w cc recreateSecrets ns e s) as [[ctl s1]|] eqn:Hb;
      [|discriminate].
    apply secretBody_created in Hb. destruct Hb as [Hcr Hne].
    destruct ctl as [|[[ref|] err]].
    + apply IH in H. destruct H as (done & rest & -> & Hcr' & Hres).
      exists (e :: done), rest. split; [reflexivity|]. split; [|exact Hres].
      rewrite Hcr', Hcr. simpl.
      destruct (needed e); simpl; rewrite <- app_assoc; reflexivity.
    + unfold mret in H. injection H as <- <-.
      exists [e], entries. split; [reflexivity|]. split; [|exact Hne].
      rewrite Hcr. simpl. destruct (needed e); reflexivity.
    + unfold mret in H. injection H as <- <-.
      exists [], (e :: entries). split; [reflexivity|]. split; [|exact Hne].
      rewrite Hcr. reflexivity.
Qed.

End SecretsCreated.

(** X14: the secrets [pendingCheckSecrets] records as created are, of
    the two it ranges over and got through, exactly those that the cache does
    not show or that are to be recreated ([apiserver-ssh] under an empty
    [Status.ApiserverSSH]), each once and under the key it was probed with;
    when the step returns [(nil, nil)] it got through both. *)
Theorem secrets_created_when_needed
        (w : World) (cc : clusterController) (s : State)
        (r : Result) (s' : State) :
  pendingCheckSecrets w cc s = Some (r, s') ->
  let ns := NamespaceName w (Name (Metadata (cur s))) in
  let needed (name : string) :=
    negb (existsIn (secretStore cc) (ns +:+ "/" +:+ name))
    || (String.eqb name "apiserver-ssh"
        && (String.length (ApiserverSSH (Status (cur s))) =? 0)%nat) in
  exists done rest,
    Permutation (done ++ rest) ["apiserver-auth"; "apiserver-ssh"] /\
    createdSecrets (log s')
    = createdSecrets (log s)
      ++ map (fun name => ns +:+ "/" +:+ name) (List.filter needed done) /\
    (r = (None, None) -> rest = []).
Proof.
  intros H ns needed. subst ns needed.
  unfold pendingCheckSecrets in H. unfold_m. simpl in H.
  destruct (forEach _ _ _) as [[res s1]|] eqn:Hloop; [|discriminate].
  apply secrets_loop in Hloop. simpl in Hloop.
  destruct Hloop as (done & rest & Hsplit & Hcr & Hres).
  exists (map fst done), (map fst rest). split; [|split].
  - rewrite <- map_app, <- Hsplit.
    change ["apiserver-auth"; "apiserver-ssh"] with (map fst (secrets w)).
    apply Permutation_map. apply rangeOrder_Permutation.
  - assert (s' = s1) by (destruct res; congruence). subst s1.
    rewrite Hcr. rewrite createdSecrets_app. simpl. rewrite app_nil_r.
    f_equal. clear. induction done as [|[name gen] done IH]; [reflexivity|].
    simpl. rewrite recreate_member.
    destruct (_ || _); simpl; rewrite IH; reflexivity.
  - intros Hr. destruct res as [r0|].
    + exfalso. apply Hres. injection H as <- _. exact Hr.
    + rewrite Hres. reflexivity.
Qed.

Lemma secrets_created_when_needed_witness :
  let cc := Sample.controller
              [("cluster-c1/apiserver-auth", Sample.obj "apiserver-auth");
               ("cluster-c1/apiserver-ssh", Sample.obj "apiserver-ssh")] [] in
  let s := Sample.start (Sample.cluster "c1" None) in
  exists r s',
    pendingCheckSecrets Sample.world cc s = Some (r, s') /\
    createdSecrets (log s') = ["cluster-c1/apiserver-ssh"] /\
    exists done rest,
      Permutation (done ++ rest) ["apiserver-auth"; "apiserver-ssh"] /\
      createdSecrets (log s')
      = map (fun name => "cluster-c1/" +:+ name)
            (List.filter
               (fun name =>
                  negb (existsIn (secretStore cc) ("cluster-c1/" +:+ name))
                  || String.eqb name "apiserver-ssh") done).
Proof.
  intros cc s.
  destruct (pendingCheckSecrets Sample.world cc s) as [[r s']|] eqn:Hrun.
  - pose proof Hrun as Hval. vm_compute in Hval. injection Hval as Hr Hs.
    exists r, s'. split; [reflexivity|].
    split; [rewrite <- Hs; reflexivity|].
    destruct (secrets_created_when_needed Sample.world cc s r s' Hrun)
      as (done & rest & Hperm & Hcr & _).
    exists done, rest. split; [exact Hperm|].
    rewrite Hcr. simpl. f_equal. apply filter_ext. intros name.
    rewrite andb_true_r. reflexivity.
  - vm_compute in Hrun. discriminate Hrun.
Defined.
